(** * egg-router: a shallow embedding of the routing core

    Source files embedded here:
    - [src/Layer.ts]      class [Layer]
    - [src/layer.ts]      class [Router] (second half of the file)
    - [src/EggRouter.ts]  [EggRouter.url]

    JavaScript values are modelled by the data the code really inspects:
    strings are byte strings, [undefined] is [None], arrays are lists, objects
    used as dictionaries are finite maps (or association lists where the
    enumeration order is observable), thrown exceptions are the left summand
    of a sum type. *)

From Stdlib Require Import String Ascii ZArith List Bool Lia.
From Stdlib Require Import Permutation Sorted.
From stdpp Require Import base option list strings gmap pretty.

Local Open Scope string_scope.
Local Open Scope list_scope.
Local Open Scope Z_scope.

(** ** JavaScript helpers *)

Module Js.

(** Error objects, thrown or (in [Router.url]) returned.  [PlainError] is
    [new Error(msg)]. *)
Inductive Exn :=
| TypeError (msg : string)
| AssertionError (msg : string)
| HttpError (status : Z) (msg : string)
| UserError (tag : string)
| PlainError (msg : string).

(** [s.toUpperCase()] on the ASCII range; bytes outside [a-z] are kept.
    (No character outside ASCII upper-cases to one of the letters of an
    HTTP verb, so method names are faithfully covered.) *)
Definition upper_ascii (c : ascii) : ascii :=
  let n := nat_of_ascii c in
  if ((97 <=? n)%nat && (n <=? 122)%nat)%bool then ascii_of_nat (n - 32) else c.

Fixpoint toUpperCase (s : string) : string :=
  match s with
  | EmptyString => EmptyString
  | String c r => String (upper_ascii c) (toUpperCase r)
  end.

(** Truthiness of a [string | undefined] value. *)
Definition truthy (v : option string) : bool :=
  match v with
  | Some s => negb (String.eqb s "")
  | None => false
  end.

(** [xs.indexOf(x)], with [-1] for "absent". *)
Fixpoint indexOf {A} `{EqDecision A} (xs : list A) (x : A) : Z :=
  match xs with
  | [] => -1
  | y :: r =>
      if decide (y = x) then 0
      else let i := indexOf r x in if i <? 0 then -1 else i + 1
  end.

(** [xs.includes(x)]. *)
Definition includes {A} `{EqDecision A} (xs : list A) (x : A) : bool :=
  bool_decide (x ∈ xs).

(** [xs.join(sep)] on strings. *)
Fixpoint join (sep : string) (xs : list string) : string :=
  match xs with
  | [] => ""
  | [x] => x
  | x :: r => x +:+ sep +:+ join sep r
  end.

End Js.

Import Js.

(** ** path-to-regexp, seen from the router

    The package is an external dependency.  The router only uses a compiled
    regular expression through [test] and [String.prototype.match]; both are
    determined by what the (non-global) expression captures on a string. *)

Inductive KeyName :=
| NameStr (s : string)
| NameIdx (n : nat).

#[global] Instance KeyName_eq_dec : EqDecision KeyName.
Proof. solve_decision. Defined.

Record Key := { key_name : KeyName }.

Record RegExp := {
  (** [path.match(re)] without its first entry: [None] when the expression
      rejects the string, else the capture groups ([None] = [undefined]). *)
  exec : string -> option (list (option string))
}.

Definition test (re : RegExp) (s : string) : bool :=
  match exec re s with Some _ => true | None => false end.

(** A route pattern: a template string or a regular-expression object
    (kept by its printed form, which is what [prefix + path] concatenates). *)
Inductive PathSpec :=
| PString (s : string)
| PRegExp (printed : string).

Definition path_to_string (p : PathSpec) : string :=
  match p with PString s => s | PRegExp s => s end.

(** Truthiness of [this.path]: a RegExp object is always truthy. *)
Definition path_truthy (p : PathSpec) : bool :=
  match p with PString s => negb (String.eqb s "") | PRegExp _ => true end.

Module LayerOptions.

Record t := {
  prefix : option string;
  name : option string;
  sensitive : option bool;
  strict : option bool;
  ignoreCaptures : option bool;
  end_ : option bool
}.

Definition empty : t :=
  {| prefix := None; name := None; sensitive := None; strict := None;
     ignoreCaptures := None; end_ := None |}.

End LayerOptions.

(** The compiler [pathToRegExp(path, keys, opts)]: it may reject a pattern
    by throwing, else returns the expression and the keys it pushed. *)
Class PathToRegExp := {
  pathToRegExp : PathSpec -> LayerOptions.t -> Exn + (RegExp * list Key)
}.

(** [decodeURIComponent] is a language built-in: [None] models the
    [URIError] thrown on a malformed escape sequence. *)
Class UriDecoder := {
  decodeURIComponent : string -> option string
}.

(** Modelled from the spec: [safeDecodeURIComponent] of the [utility]
    package is not in the repository; the spec says that when decoding
    fails the raw captured string is kept as-is rather than raising. *)
Definition safeDecodeURIComponent `{UriDecoder} (c : string) : string :=
  match decodeURIComponent c with
  | Some d => d
  | None => c
  end.

(** ** Values passed to URL generation *)

#[local] Set Warnings "-register-all".

Inductive JsValue :=
| JUndefined
| JNull
| JString (s : string)
| JNumber (n : Z)
| JArray (xs : list JsValue)
| JObject (props : list (string * JsValue)).

Module Value.

(** [typeof v === 'object'] (true of [null] and of arrays). *)
Definition is_object (v : JsValue) : bool :=
  match v with
  | JNull | JArray _ | JObject _ => true
  | _ => false
  end.

(** [v === undefined]. *)
Definition is_undefined (v : JsValue) : bool :=
  match v with JUndefined => true | _ => false end.

(** Truthiness. *)
Definition truthy (v : JsValue) : bool :=
  match v with
  | JUndefined | JNull => false
  | JString s => negb (String.eqb s "")
  | JNumber n => negb (n =? 0)
  | JArray _ | JObject _ => true
  end.

(** [v == null]. *)
Definition is_nullish (v : JsValue) : bool :=
  match v with JUndefined | JNull => true | _ => false end.

(** [props[k]] on the own properties of a plain object used as a mapping
    (what a mapping inherits from its prototype is not looked at). *)
Fixpoint lookup (props : list (string * JsValue)) (k : string) : option JsValue :=
  match props with
  | [] => None
  | (k', v) :: rest => if String.eqb k' k then Some v else lookup rest k
  end.

(** [k in obj]. *)
Definition has (props : list (string * JsValue)) (k : string) : bool :=
  match lookup props k with Some _ => true | None => false end.

(** [v[k]] for any value: only plain objects carry named properties. *)
Definition get (v : JsValue) (k : string) : JsValue :=
  match v with
  | JObject props => default JUndefined (lookup props k)
  | _ => JUndefined
  end.

(** [String(v)]. *)
Fixpoint to_string (v : JsValue) : string :=
  match v with
  | JUndefined => "undefined"
  | JNull => "null"
  | JString s => s
  | JNumber n => pretty n
  | JArray xs =>
      join "," (map (fun x => if is_nullish x then "" else to_string x) xs)
  | JObject _ => "[object Object]"
  end.

End Value.

(** ** Percent-encoding and [:name] placeholders *)

Module Text.

Definition in_range (lo hi : nat) (c : ascii) : bool :=
  let n := nat_of_ascii c in ((lo <=? n)%nat && (n <=? hi)%nat)%bool.

(** [\w]: letters, digits and the underscore. *)
Definition is_word (c : ascii) : bool :=
  in_range 97 122 c || in_range 65 90 c || in_range 48 57 c
  || Ascii.eqb c "_"%char.

(** [[a-zA-Z_]]. *)
Definition is_ident_start (c : ascii) : bool :=
  in_range 97 122 c || in_range 65 90 c || Ascii.eqb c "_"%char.

(** The characters [encodeURIComponent] leaves alone. *)
Definition is_unreserved (c : ascii) : bool :=
  is_word c || existsb (Ascii.eqb c) (list_ascii_of_string "-.!~*'()").

Definition hex_digit (n : nat) : ascii :=
  nth n (list_ascii_of_string "0123456789ABCDEF") "0"%char.

(** [encodeURIComponent(s)], on the UTF-8 bytes of [s]. *)
Fixpoint encodeURIComponent (s : string) : string :=
  match s with
  | EmptyString => EmptyString
  | String c r =>
      if is_unreserved c then String c (encodeURIComponent r)
      else
        let n := nat_of_ascii c in
        String "%"%char
          (String (hex_digit (n / 16)) (String (hex_digit (n mod 16))
             (encodeURIComponent r)))
  end.

Definition starts_with (p : ascii -> bool) (s : string) : bool :=
  match s with
  | EmptyString => false
  | String c _ => p c
  end.

(** A template cut at its placeholders. *)
Inductive Piece :=
| PChar (c : ascii)
| PName (n : string).

Definition flush (cur : option string) : list Piece :=
  match cur with
  | Some n => [PName n]
  | None => []
  end.

(** A left-to-right scan for the matches of the global pattern "colon,
    one [start] character, then word characters": [cur] is the name
    being read, if any.  A name runs as far as word characters go; a
    colon not followed by a start character is an ordinary character. *)
Fixpoint scan (start : ascii -> bool) (cur : option string) (s : string)
    : list Piece :=
  match s with
  | EmptyString => flush cur
  | String c r =>
      let fresh :=
        if Ascii.eqb c ":"%char && starts_with start r
        then scan start (Some "") r
        else PChar c :: scan start None r in
      match cur with
      | Some n =>
          if is_word c then scan start (Some (n +:+ String c "")) r
          else PName n :: fresh
      | None => fresh
      end
  end.



(** [s.replace(re, ($0, key) => cb(key))] for that pattern [re]. *)
Definition render_piece (cb : string -> string) (p : Piece) : string :=
  match p with
  | PChar c => String c ""
  | PName n => cb n
  end.

Fixpoint concat_strings (xs : list string) : string :=
  match xs with
  | [] => ""
  | x :: r => x +:+ concat_strings r
  end.

Definition replace_names (start : ascii -> bool) (cb : string -> string)
    (s : string) : string :=
  concat_strings (map (render_piece cb) (scan start None s)).

(** [s.replace(re, '')] where [re] is the global pattern for the literal
    wildcard group "open paren, dot, star, close paren". *)
Fixpoint strip_wildcards (s : string) : string :=
  match s with
  | String "("%char (String "."%char (String "*"%char (String ")"%char r))) =>
      strip_wildcards r
  | String c r => String c (strip_wildcards r)
  | EmptyString => EmptyString
  end.

End Text.

(** ** The reverse compiler of path-to-regexp

    [pathToRegExp.parse] and [pathToRegExp.compile] belong to the
    path-to-regexp package, which is not in the repository. *)
Module PathToRegExpSpec.

Import Text.

(** Modelled from the spec: [pathToRegExp.parse] is missing; the spec
    describes a template as "literal segments and named parameters marked
    by a prefix token (e.g. [:name])".  The tokens are the characters and
    the names; the router only inspects whether a token has a [name]. *)
Definition parse (template : string) : list Piece :=
  scan is_word None template.

(** [token.name] of a token, when it is an object. *)
Definition token_name (p : Piece) : option string :=
  match p with
  | PName n => Some n
  | PChar _ => None
  end.

(** Modelled from the spec: the rendering of one placeholder by the
    missing reverse compiler, which "substitutes parameter placeholders
    with string-encoded values, leaving unmatched placeholders as literal
    [:name] tokens when a value is missing". *)
Definition render_name (data : JsValue) (n : string) : string :=
  let v := Value.get data n in
  if Value.is_nullish v then ":" +:+ n
  else encodeURIComponent (Value.to_string v).

(** Modelled from the spec: [pathToRegExp.compile(template)(data)] is
    missing; the spec gives it as [render(values) -> path string], the
    template with each placeholder rendered as above. *)
Definition compile (template : string) (data : JsValue) : string :=
  concat_strings (map (render_piece (render_name data)) (parse template)).

End PathToRegExpSpec.

(** [new URI(path).search(query).toString()] of the urijs package: an
    external capability, taken as given. *)
Class UriJs := {
  uri_with_search : string -> JsValue -> string
}.

(** ** Middleware functions

    A function object is known by its identity.  A layer stack holds
    user-supplied handlers (which may carry a [param] property) and the
    wrappers that [Layer.param] creates around a parameter handler. *)

Definition FnId := nat.

Inductive Middleware :=
| Handler (fn : FnId) (param : option string)
| ParamMw (param : string) (fn : FnId).

Definition mw_param (m : Middleware) : option string :=
  match m with
  | Handler _ p => p
  | ParamMw p _ => Some p
  end.

(** What [typeof fn] and [isGeneratorFunction(fn)] can see of an argument
    passed as middleware. *)
Inductive MwArg :=
| ArgFunction (m : Middleware)
| ArgGenerator (m : Middleware)
| ArgOther (type_of : string).

(** ** class Layer (src/Layer.ts) *)

Module Layer.

Record t := {
  opts : LayerOptions.t;
  name : option string;
  methods : list string;
  stack : list Middleware;
  path : PathSpec;
  regexp : RegExp;
  paramNames : list Key
}.

Definition set_stack (s : list Middleware) (l : t) : t :=
  {| opts := opts l; name := name l; methods := methods l; stack := s;
     path := path l; regexp := regexp l; paramNames := paramNames l |}.

(** The fourth constructor argument: [LayerOptions | string | undefined]. *)
Inductive OptsArg :=
| OptsUndefined
| OptsName (n : string)
| OptsObject (o : LayerOptions.t).

Definition init_opts (a : OptsArg) : LayerOptions.t :=
  let o := match a with
           | OptsUndefined => LayerOptions.empty
           | OptsName n =>
               {| LayerOptions.prefix := None; LayerOptions.name := Some n;
                  LayerOptions.sensitive := None; LayerOptions.strict := None;
                  LayerOptions.ignoreCaptures := None; LayerOptions.end_ := None |}
           | OptsObject o => o
           end in
  {| LayerOptions.prefix := Some (default "" (LayerOptions.prefix o));
     LayerOptions.name := LayerOptions.name o;
     LayerOptions.sensitive := LayerOptions.sensitive o;
     LayerOptions.strict := LayerOptions.strict o;
     LayerOptions.ignoreCaptures := LayerOptions.ignoreCaptures o;
     LayerOptions.end_ := LayerOptions.end_ o |}.

(** One turn of [for (const method of methods)]: push the upper-cased
    name, and unshift [HEAD] when the element just pushed is [GET]. *)
Definition push_method (acc : list string) (method : string) : list string :=
  let pushed := acc ++ [toUpperCase method] in
  let l := length pushed in
  if bool_decide (pushed !! (l - 1)%nat = Some "GET")
  then "HEAD" :: pushed
  else pushed.

Definition build_methods (ms : list string) : list string :=
  fold_left push_method ms [].

(** [this.stack.forEach(fn => ...)]: the first offending entry throws;
    [subject] is [methods.toString() + ' `' + (this.opts.name || path) + '`']. *)
Fixpoint check_stack (subject : string) (args : list MwArg) : Exn + list Middleware :=
  match args with
  | [] => inr []
  | ArgOther ty :: _ =>
      inl (TypeError (subject +:+ ": `middleware` must be a function, not `" +:+ ty +:+ "`"))
  | ArgGenerator _ :: _ =>
      inl (TypeError (subject +:+ ": Please use async function instead of generator function"))
  | ArgFunction m :: r =>
      match check_stack subject r with
      | inl e => inl e
      | inr ms => inr (m :: ms)
      end
  end.

Definition error_subject (p : PathSpec) (ms : list string) (o : LayerOptions.t) : string :=
  join "," ms +:+ " `"
  +:+ (if truthy (LayerOptions.name o) then default "" (LayerOptions.name o)
       else path_to_string p)
  +:+ "`".

(** [new Layer(path, methods, middlewares, opts)]. *)
Definition new `{PathToRegExp} (p : PathSpec) (ms : list string)
    (middlewares : list MwArg) (o : OptsArg) : Exn + t :=
  let opts0 := init_opts o in
  let methods0 := build_methods ms in
  match check_stack (error_subject p ms opts0) middlewares with
  | inl e => inl e
  | inr stack0 =>
      match pathToRegExp p opts0 with
      | inl e => inl e
      | inr (re, keys) =>
          inr {| opts := opts0; name := LayerOptions.name opts0;
                 methods := methods0; stack := stack0; path := p;
                 regexp := re; paramNames := keys |}
      end
  end.

(** [match(path)]; the method name is a keyword here, hence the suffix. *)
Definition match_ (l : t) (p : string) : bool := test (regexp l) p.

(** [captures(path)]. *)
Definition captures (l : t) (p : string) : list (option string) :=
  if default false (LayerOptions.ignoreCaptures (opts l)) then []
  else match exec (regexp l) p with
       | Some m => m
       | None => []
       end.

(** The property name under which a key is stored in [params]. *)
Definition prop_of_key (k : Key) : string :=
  match key_name k with
  | NameStr s => s
  | NameIdx n => pretty n
  end.

(** The value stored for a capture: [c ? safeDecodeURIComponent(c) : c]. *)
Definition param_value `{UriDecoder} (c : option string) : option string :=
  if truthy c then safeDecodeURIComponent <$> c else c.

(** The loop of [params]: [caps] are the captures still to visit and
    [keys] the param names aligned with them.  A capture beyond the last
    key finds [paramNames[i]] undefined and is skipped. *)
Fixpoint params_loop `{UriDecoder} (keys : list Key) (caps : list (option string))
    (acc : gmap string (option string)) {struct caps} : gmap string (option string) :=
  match caps with
  | [] => acc
  | c :: caps' =>
      match keys with
      | [] => acc
      | k :: keys' =>
          params_loop keys' caps' (<[prop_of_key k := param_value c]> acc)
      end
  end.

(** [params(_path, captures, existingParams)]. *)
Definition params `{UriDecoder} (l : t) (_path : string)
    (caps : list (option string))
    (existingParams : option (gmap string (option string)))
    : gmap string (option string) :=
  params_loop (paramNames l) caps (default ∅ existingParams).

(** [names.indexOf(fn.param)] for [fn.param : string | undefined]. *)
Definition index_of_param (names : list KeyName) (p : option string) : Z :=
  match p with
  | Some s => indexOf names (NameStr s)
  | None => -1
  end.

(** The callback of [stack.some] in [param]: stop at an entry without a
    (truthy) [param] property, or whose parameter comes after index [x]. *)
Definition stops (names : list KeyName) (x : Z) (fn : Middleware) : bool :=
  negb (truthy (mw_param fn)) || (x <? index_of_param names (mw_param fn)).

(** [stack.some((fn, i) => { if (...) { stack.splice(i, 0, mw); return true }
    return false })]: the walk ends at the first hit; without a hit the
    stack is left as it is. *)
Fixpoint some_splice (names : list KeyName) (x : Z) (mw : Middleware)
    (st : list Middleware) : list Middleware :=
  match st with
  | [] => []
  | fn :: rest =>
      if stops names x fn then mw :: fn :: rest
      else fn :: some_splice names x mw rest
  end.

(** [param(param, fn)]. *)
Definition param (p : string) (fn : FnId) (l : t) : t :=
  let middleware := ParamMw p fn in
  let names := map key_name (paramNames l) in
  let x := indexOf names (NameStr p) in
  if -1 <? x then set_stack (some_splice names x middleware (stack l)) l
  else l.

(** [setPrefix(prefix)]; recompiling the longer pattern may throw. *)
Definition setPrefix `{PathToRegExp} (pre : string) (l : t) : Exn + t :=
  if path_truthy (path l) then
    let p := PString (pre +:+ path_to_string (path l)) in
    match pathToRegExp p (opts l) with
    | inl e => inl e
    | inr (re, keys) =>
        inr {| opts := opts l; name := name l; methods := methods l;
               stack := stack l; path := p; regexp := re; paramNames := keys |}
    end
  else inr l.

(** [replace[token.name] = args[j++]] over the tokens, in order. *)
Fixpoint assign_props (props : list (string * JsValue)) (k : string) (v : JsValue)
    : list (string * JsValue) :=
  match props with
  | [] => [(k, v)]
  | (k', v') :: rest =>
      if String.eqb k' k then (k', v) :: rest
      else (k', v') :: assign_props rest k v
  end.

Fixpoint positional (tokens : list Text.Piece) (args : list JsValue)
    (replace : list (string * JsValue)) : list (string * JsValue) :=
  match tokens with
  | [] => replace
  | Text.PChar _ :: ts => positional ts args replace
  | Text.PName n :: ts =>
      positional ts (tail args) (assign_props replace n (default JUndefined (head args)))
  end.

(** The first [if / else if] of [url]: the pair ([args], [options]). *)
Definition split_arguments (params : JsValue) (paramsOrOptions : list JsValue)
    : Exn + (JsValue * JsValue) :=
  if negb (Value.is_undefined params) && negb (Value.is_object params) then
    let args := params :: paramsOrOptions in
    let lastIndex := (length args - 1)%nat in
    let last := default JUndefined (args !! lastIndex) in
    if Value.is_object last then inr (JArray (take lastIndex args), last)
    else inr (JArray args, JUndefined)
  else if Value.is_object params then
    match paramsOrOptions with
    | JNull :: _ =>
        inl (TypeError "Cannot use 'in' operator to search for 'query' in null")
    | JObject props :: _ =>
        if Value.has props "query" then inr (params, JObject props)
        else inr (params, JUndefined)
    | _ => inr (params, JUndefined)
    end
  else inr (params, JUndefined).

(** [url(params, ...paramsOrOptions)]. *)
Definition url `{UriJs} (l : t) (params : JsValue) (paramsOrOptions : list JsValue)
    : Exn + string :=
  match path l with
  | PRegExp _ => inl (TypeError "this.path.replace is not a function")
  | PString pattern =>
      let url := Text.strip_wildcards pattern in
      let toPath := PathToRegExpSpec.compile url in
      match split_arguments params paramsOrOptions with
      | inl e => inl e
      | inr (args, options) =>
          let tokens := PathToRegExpSpec.parse url in
          let '(replace, options) :=
            match args with
            | JArray xs => (JObject (positional tokens xs []), options)
            | _ =>
                if existsb (fun tok => bool_decide (is_Some (PathToRegExpSpec.token_name tok))) tokens
                then (params, options)
                else (JObject [], params)
            end in
          let replaced := toPath replace in
          if Value.truthy (Value.get options "query")
          then inr (uri_with_search replaced (Value.get options "query"))
          else inr replaced
      end
  end.

End Layer.

(** ** class Router (src/layer.ts, second half) *)

Module RouterOptions.

Record t := {
  methods : option (list string);
  prefix : option string;
  sensitive : option bool;
  strict : option bool;
  routerPath : option string
}.

Definition empty : t :=
  {| methods := None; prefix := None; sensitive := None; strict := None;
     routerPath := None |}.

End RouterOptions.

(** [interface MatchedResult]: layers matched by path, layers matched by
    path and method (including those without methods), and whether a method
    was matched. *)
Module MatchedResult.

Record t := {
  path : list Layer.t;
  pathAndMethod : list Layer.t;
  route : bool
}.

End MatchedResult.

Module Router.

Import MatchedResult.

Record t := {
  opts : RouterOptions.t;
  methods : list string;
  stack : list Layer.t;
  (** [params]: the parameter handlers, in the order [for ... in] visits. *)
  params : list (string * FnId)
}.

Definition default_methods : list string :=
  ["HEAD"; "OPTIONS"; "GET"; "PUT"; "PATCH"; "POST"; "DELETE"].

(** [new Router(opts)]. *)
Definition new (o : option RouterOptions.t) : t :=
  let o' := default RouterOptions.empty o in
  {| opts := o';
     methods := default default_methods (RouterOptions.methods o');
     stack := [];
     params := [] |}.

(** *** Matching *)

(** The body of [for (const layer of this.stack)] in [match]. *)
Definition match_step (p method : string) (matched : MatchedResult.t)
    (layer : Layer.t) : MatchedResult.t :=
  if Layer.match_ layer p then
    let path' := path matched ++ [layer] in
    if (length (Layer.methods layer) =? 0)%nat
       || includes (Layer.methods layer) method
    then
      {| path := path';
         pathAndMethod := pathAndMethod matched ++ [layer];
         route := if (0 <? length (Layer.methods layer))%nat then true
                  else MatchedResult.route matched |}
    else
      {| path := path'; pathAndMethod := pathAndMethod matched;
         route := MatchedResult.route matched |}
  else matched.

(** [match(path, method)]. *)
Definition match_ (r : t) (p method : string) : MatchedResult.t :=
  fold_left (match_step p method) (stack r)
    {| path := []; pathAndMethod := []; route := false |}.

(** [route(name)]: [None] is the [false] the source returns. *)
Fixpoint route_in (st : list Layer.t) (n : string) : option Layer.t :=
  match st with
  | [] => None
  | l :: rest =>
      if bool_decide (Layer.name l = Some n) then Some l else route_in rest n
  end.

Definition route (r : t) (n : string) : option Layer.t := route_in (stack r) n.

(** *** The request context

    The fields the router reads or writes on the host's context object. *)

Record Ctx := {
  ctx_path : string;
  ctx_method : string;
  ctx_routerPath : option PathSpec;
  ctx_routerName : option string;
  ctx_matched : option (list Layer.t);
  ctx_router : option t;
  ctx_captures : option (list (option string));
  ctx_params : option (gmap string (option string));
  _matchedRoute : option PathSpec;
  _matchedRouteName : option string;
  ctx_status : option Z;
  ctx_body : option string;
  ctx_headers : gmap string string;
  (** what the application's own handlers leave on the context *)
  ctx_state : list string
}.

Definition request (p method : string) : Ctx :=
  {| ctx_path := p; ctx_method := method; ctx_routerPath := None;
     ctx_routerName := None; ctx_matched := None; ctx_router := None;
     ctx_captures := None; ctx_params := None; _matchedRoute := None;
     _matchedRouteName := None; ctx_status := None; ctx_body := None;
     ctx_headers := ∅; ctx_state := [] |}.

(** The result of awaiting a middleware: settled or rejected, with the
    context as it was left. *)
Inductive Outcome :=
| Returned (c : Ctx)
| Threw (e : Exn) (c : Ctx).

Definition Next := Ctx -> Outcome.

(** The behaviour of the application's function objects: a handler gets
    the context and the continuation; a parameter handler also gets the
    value of [ctx.params[param]]. *)
Class Handlers := {
  call_handler : FnId -> Ctx -> Next -> Outcome;
  call_param_handler : FnId -> option string -> Ctx -> Next -> Outcome
}.

Definition run_middleware `{Handlers} (m : Middleware) (c : Ctx) (next : Next)
    : Outcome :=
  match m with
  | Handler fn _ => call_handler fn c next
  | ParamMw p fn =>
      match ctx_params c with
      | Some ps => call_param_handler fn (mjoin (ps !! p)) c next
      | None => Threw (TypeError "Cannot read properties of undefined") c
      end
  end.

(** An entry of [layerChain]: the closure pushed for a matched layer, or
    one of the layer's own middleware. *)
Inductive ChainEntry :=
| Enter (layer : Layer.t)
| Run (m : Middleware).

(** The closure [(ctx, next) => { ...; return next(); }] pushed for
    [layer]; [routerPath] is the variable captured from [dispatch]. *)
Definition enter_layer `{UriDecoder} (routerPath : string) (layer : Layer.t)
    (c : Ctx) : Ctx :=
  let caps := Layer.captures layer routerPath in
  let ps := Layer.params layer routerPath caps (ctx_params c) in
  {| ctx_path := ctx_path c; ctx_method := ctx_method c;
     ctx_routerPath := Some (Layer.path layer);
     ctx_routerName := Layer.name layer;
     ctx_matched := ctx_matched c; ctx_router := ctx_router c;
     ctx_captures := Some caps;
     ctx_params := Some ps;
     _matchedRoute := Some (Layer.path layer);
     _matchedRouteName :=
       if truthy (Layer.name layer) then Layer.name layer else None;
     ctx_status := ctx_status c; ctx_body := ctx_body c;
     ctx_headers := ctx_headers c; ctx_state := ctx_state c |}.

Definition run_entry `{UriDecoder} `{Handlers} (routerPath : string)
    (e : ChainEntry) (c : Ctx) (next : Next) : Outcome :=
  match e with
  | Enter layer => next (enter_layer routerPath layer c)
  | Run m => run_middleware m c next
  end.

(** Modelled from the spec: [compose] of the [koa-compose] package is not
    in the repository; the spec gives it as "compose(list of handlers) ->
    single handler that invokes each in order, short-circuiting when a
    handler does not call continue", the last handler continuing with the
    callback handed to the composed handler. *)
Fixpoint compose {E} (run : E -> Ctx -> Next -> Outcome) (chain : list E)
    (c : Ctx) (next : Next) : Outcome :=
  match chain with
  | [] => next c
  | e :: rest => run e c (fun c' => compose run rest c' next)
  end.

(** [this.opts.routerPath || ctx.routerPath || ctx.path]. *)
Definition effective_path (r : t) (c : Ctx) : string :=
  if truthy (RouterOptions.routerPath (opts r))
  then default "" (RouterOptions.routerPath (opts r))
  else match ctx_routerPath c with
       | Some p => if path_truthy p then path_to_string p else ctx_path c
       | None => ctx_path c
       end.

(** The bookkeeping of [dispatch] ahead of its branch:
    [ctx.matched] grows by [matched.path] and [ctx.router = this]. *)
Definition note_match (r : t) (matched : MatchedResult.t) (c : Ctx) : Ctx :=
  {| ctx_path := ctx_path c; ctx_method := ctx_method c;
     ctx_routerPath := ctx_routerPath c; ctx_routerName := ctx_routerName c;
     ctx_matched := Some (match ctx_matched c with
                          | Some ms => ms ++ path matched
                          | None => path matched
                          end);
     ctx_router := Some r;
     ctx_captures := ctx_captures c; ctx_params := ctx_params c;
     _matchedRoute := _matchedRoute c;
     _matchedRouteName := _matchedRouteName c;
     ctx_status := ctx_status c; ctx_body := ctx_body c;
     ctx_headers := ctx_headers c; ctx_state := ctx_state c |}.

(** [matchedLayers.reduce((memo, layer) => { memo.push(closure);
    return memo.concat(layer.stack); }, [])]. *)
Definition layerChain (matchedLayers : list Layer.t) : list ChainEntry :=
  fold_left (fun memo layer => (memo ++ [Enter layer]) ++ map Run (Layer.stack layer))
    matchedLayers [].

(** What [dispatch] decides before it hands over control: the context as
    updated, and either [None] for [return next()] or the chain given to
    [compose]. *)
Definition dispatch_plan (r : t) (c : Ctx) : Ctx * option (list ChainEntry) :=
  let routerPath := effective_path r c in
  let matched := match_ r routerPath (ctx_method c) in
  let c' := note_match r matched c in
  if negb (MatchedResult.route matched) then (c', None)
  else (c', Some (layerChain (pathAndMethod matched))).

(** [routes()]: the [dispatch] function it returns. *)
Definition routes `{UriDecoder} `{Handlers} (r : t) (c : Ctx) (next : Next)
    : Outcome :=
  match dispatch_plan r c with
  | (c', None) => next c'
  | (c', Some chain) => compose (run_entry (effective_path r c)) chain c' next
  end.

(** *** allowedMethods *)

Record AllowedMethodsOptions := {
  throw : option bool;
  (** the value the caller's factory returns, when one is supplied *)
  notImplemented : option Exn;
  methodNotAllowed : option Exn
}.

(** [allowed[method] = method] on the object [allowed]: a known key keeps
    its place, a new key goes last.  (That is the order in which
    [Object.keys] lists string keys; method names are HTTP verbs, never the
    integer-like keys that would be listed first.) *)
Fixpoint allow (allowed : list (string * string)) (method : string)
    : list (string * string) :=
  match allowed with
  | [] => [(method, method)]
  | (k, v) :: rest =>
      if String.eqb k method then (k, method) :: rest
      else (k, v) :: allow rest method
  end.

(** The two nested [forEach] over [ctx.matched] and each [methods]. *)
Definition collect_allowed (matched : list Layer.t) : list (string * string) :=
  fold_left (fun allowed layer => fold_left allow (Layer.methods layer) allowed)
    matched [].

(** [allowed[k]]. *)
Fixpoint allowed_get (allowed : list (string * string)) (k : string)
    : option string :=
  match allowed with
  | [] => None
  | (k', v) :: rest => if String.eqb k' k then Some v else allowed_get rest k
  end.

Definition set_response (status : Z) (body : option string)
    (allow_header : option string) (c : Ctx) : Ctx :=
  {| ctx_path := ctx_path c; ctx_method := ctx_method c;
     ctx_routerPath := ctx_routerPath c; ctx_routerName := ctx_routerName c;
     ctx_matched := ctx_matched c; ctx_router := ctx_router c;
     ctx_captures := ctx_captures c; ctx_params := ctx_params c;
     _matchedRoute := _matchedRoute c;
     _matchedRouteName := _matchedRouteName c;
     ctx_status := Some status;
     ctx_body := match body with Some b => Some b | None => ctx_body c end;
     ctx_headers := match allow_header with
                    | Some h => <["Allow" := h]> (ctx_headers c)
                    | None => ctx_headers c
                    end;
     ctx_state := ctx_state c |}.

(** [ctx.status && ctx.status !== 404]. *)
Definition already_answered (c : Ctx) : bool :=
  match ctx_status c with
  | Some st => negb (st =? 0) && negb (st =? 404)
  | None => false
  end.

Definition wants_throw (options : option AllowedMethodsOptions) : bool :=
  match options with
  | Some o => default false (throw o)
  | None => false
  end.

(** The part of the returned middleware that runs once [next()] settled. *)
Definition after_next (r : t) (options : option AllowedMethodsOptions) (c : Ctx)
    : Outcome :=
  if already_answered c then Returned c
  else
    match ctx_matched c with
    | None => Threw (TypeError "Cannot read properties of undefined (reading 'forEach')") c
    | Some matched =>
        let allowed := collect_allowed matched in
        let allowedMethods := map fst allowed in
        if negb (includes (methods r) (ctx_method c)) then
          if wants_throw options then
            Threw (default (HttpError 501 "Not Implemented")
                     (options ≫= notImplemented)) c
          else
            Returned (set_response 501 None (Some (join ", " allowedMethods)) c)
        else if (0 <? length allowedMethods)%nat then
          if String.eqb (ctx_method c) "OPTIONS" then
            Returned (set_response 200 (Some "") (Some (join ", " allowedMethods)) c)
          else if negb (truthy (allowed_get allowed (ctx_method c))) then
            if wants_throw options then
              Threw (default (HttpError 405 "Method Not Allowed")
                       (options ≫= methodNotAllowed)) c
            else
              Returned (set_response 405 None (Some (join ", " allowedMethods)) c)
          else Returned c
        else Returned c
    end.

(** [allowedMethods(options)]: the middleware it returns. *)
Definition allowedMethods (r : t) (options : option AllowedMethodsOptions)
    (c : Ctx) (next : Next) : Outcome :=
  match next c with
  | Threw e c' => Threw e c'
  | Returned c' => after_next r options c'
  end.

(** *** Registration *)

Record RegisterOptions := {
  reg_name : option string;
  reg_prefix : option string;
  reg_sensitive : option bool;
  reg_strict : option bool;
  reg_ignoreCaptures : option bool;
  reg_end : option bool
}.

Definition set_stack (st : list Layer.t) (r : t) : t :=
  {| opts := opts r; methods := methods r; stack := st; params := params r |}.

(** [register(path, methods, middleware, opts)] for one path. *)
Definition register `{PathToRegExp} (p : PathSpec) (ms : list string)
    (middleware : list MwArg) (o : RegisterOptions) (r : t) : Exn + (t * Layer.t) :=
  let lo :=
    {| LayerOptions.end_ :=
         Some (if bool_decide (reg_end o = Some false) then false else true);
       LayerOptions.name := reg_name o;
       LayerOptions.sensitive :=
         Some (default (default false (RouterOptions.sensitive (opts r))) (reg_sensitive o));
       LayerOptions.strict :=
         Some (default (default false (RouterOptions.strict (opts r))) (reg_strict o));
       LayerOptions.prefix :=
         Some (default (default "" (RouterOptions.prefix (opts r))) (reg_prefix o));
       LayerOptions.ignoreCaptures := reg_ignoreCaptures o |} in
  match Layer.new p ms middleware (Layer.OptsObject lo) with
  | inl e => inl e
  | inr route0 =>
      let prefixed :=
        if truthy (RouterOptions.prefix (opts r))
        then Layer.setPrefix (default "" (RouterOptions.prefix (opts r))) route0
        else inr route0 in
      match prefixed with
      | inl e => inl e
      | inr route1 =>
          let route2 :=
            fold_left (fun l kv => Layer.param (fst kv) (snd kv) l) (params r) route1 in
          inr (set_stack (stack r ++ [route2]) r, route2)
      end
  end.

(** [this.params[param] = middleware]. *)
Fixpoint set_param (ps : list (string * FnId)) (p : string) (fn : FnId)
    : list (string * FnId) :=
  match ps with
  | [] => [(p, fn)]
  | (k, v) :: rest =>
      if String.eqb k p then (k, fn) :: rest else (k, v) :: set_param rest p fn
  end.

(** [param(param, middleware)]. *)
Definition param (p : string) (fn : FnId) (r : t) : t :=
  {| opts := opts r; methods := methods r;
     stack := map (Layer.param p fn) (stack r);
     params := set_param (params r) p fn |}.

(** *** URL generation by route name *)

(** What [url] returns: [string | Error]. *)
Inductive UrlValue :=
| UrlString (s : string)
| UrlError (e : Exn).

(** [url(name, params, ...paramsOrOptions)]. *)
Definition url `{UriJs} (r : t) (n : string) (ps : JsValue)
    (paramsOrOptions : list JsValue) : Exn + UrlValue :=
  match route r n with
  | Some l =>
      match Layer.url l ps paramsOrOptions with
      | inl e => inl e
      | inr s => inr (UrlString s)
      end
  | None => inr (UrlError (PlainError ("No route found for name: " +:+ n)))
  end.

End Router.

(** ** class EggRouter (src/EggRouter.ts): [url] *)

Module EggRouter.

Import Text.

(** The callback of [url.replace]: a key found in [args] is replaced by
    its encoded value (the first element of an array), any other match is
    given back unchanged. *)
Definition replacement (args : list (string * JsValue)) (key : string) : string :=
  match Value.lookup args key with
  | Some values =>
      encodeURIComponent
        (match values with
         | JArray xs => Value.to_string (default JUndefined (head xs))
         | v => Value.to_string v
         end)
  | None => ":" +:+ key
  end.

(** The keys pushed on [replacedParams], in order. *)
Definition replacedParams (args : list (string * JsValue)) (pattern : string)
    : list string :=
  omap (fun p => match p with
                 | PName k => if Value.has args k then Some k else None
                 | PChar _ => None
                 end)
    (scan is_ident_start None pattern).

(** The loop [for (const key in args)] that fills [queries]. *)
Definition queries (args : list (string * JsValue)) (replaced : list string)
    : list string :=
  flat_map (fun kv =>
    let '(key, values) := kv in
    if includes replaced key then []
    else
      let encodedKey := encodeURIComponent key in
      match values with
      | JArray xs =>
          map (fun val => encodedKey +:+ "=" +:+ encodeURIComponent (Value.to_string val)) xs
      | v => [encodedKey +:+ "=" +:+ encodeURIComponent (Value.to_string v)]
      end) args.

(** [s.includes('?')]. *)
Fixpoint has_question_mark (s : string) : bool :=
  match s with
  | EmptyString => false
  | String c r => Ascii.eqb c "?"%char || has_question_mark r
  end.

(** [url(name, params)]: [params] is [undefined] or a plain object. *)
Definition url (r : Router.t) (n : string) (ps : option (list (string * JsValue)))
    : Exn + string :=
  match Router.route r n with
  | None => inr ""
  | Some route =>
      match Layer.path route with
      | PRegExp printed =>
          inl (AssertionError ("Can't get the url for regExp " +:+ printed
                               +:+ " for by name '" +:+ n +:+ "'"))
      | PString url0 =>
          let '(url1, qs) :=
            match ps with
            | Some args =>
                (replace_names is_ident_start (replacement args) url0,
                 queries args (replacedParams args url0))
            | None => (url0, [])
            end in
          if (0 <? length qs)%nat then
            let queryStr := join "&" qs in
            if negb (has_question_mark url1) then inr (url1 +:+ "?" +:+ queryStr)
            else inr (url1 +:+ "&" +:+ queryStr)
          else inr url1
      end
  end.

(** [pathFor(name, params)]. *)
Definition pathFor (r : Router.t) (n : string) (ps : option (list (string * JsValue)))
    : Exn + string := url r n ps.

End EggRouter.

(** ** A router object of either class

    [EggRouter extends Router] and overrides [url]; a call
    [router.url(name, params)] runs the method of the object's class. *)

Module AnyRouter.

Inductive t :=
| Plain (r : Router.t)
| Egg (r : Router.t).

(** [router.url(name, params)] with [params] undefined or a plain object. *)
Definition url `{UriJs} (a : t) (n : string) (ps : option (list (string * JsValue)))
    : Exn + Router.UrlValue :=
  match a with
  | Plain r =>
      Router.url r n (match ps with Some o => JObject o | None => JUndefined end) []
  | Egg r =>
      match EggRouter.url r n ps with
      | inl e => inl e
      | inr s => inr (Router.UrlString s)
      end
  end.

End AnyRouter.

(** ** lib/router.js: the [routes] of the former JavaScript version

    Kept for comparison: it marks the most specific layer once, before the
    chain runs, and its per-layer closure leaves the two compatibility
    fields alone. *)

Module Legacy.

(** The closure pushed for [layer]. *)
Definition enter_layer `{UriDecoder} (routerPath : string) (layer : Layer.t)
    (c : Router.Ctx) : Router.Ctx :=
  let caps := Layer.captures layer routerPath in
  let ps := Layer.params layer routerPath caps (Router.ctx_params c) in
  {| Router.ctx_path := Router.ctx_path c;
     Router.ctx_method := Router.ctx_method c;
     Router.ctx_routerPath := Some (Layer.path layer);
     Router.ctx_routerName := Layer.name layer;
     Router.ctx_matched := Router.ctx_matched c;
     Router.ctx_router := Router.ctx_router c;
     Router.ctx_captures := Some caps;
     Router.ctx_params := Some ps;
     Router._matchedRoute := Router._matchedRoute c;
     Router._matchedRouteName := Router._matchedRouteName c;
     Router.ctx_status := Router.ctx_status c;
     Router.ctx_body := Router.ctx_body c;
     Router.ctx_headers := Router.ctx_headers c;
     Router.ctx_state := Router.ctx_state c |}.

Definition run_entry `{UriDecoder} `{Router.Handlers} (routerPath : string)
    (e : Router.ChainEntry) (c : Router.Ctx) (next : Router.Next) : Router.Outcome :=
  match e with
  | Router.Enter layer => next (enter_layer routerPath layer c)
  | Router.Run m => Router.run_middleware m c next
  end.

(** [ctx._matchedRoute = mostSpecificLayer.path;
    if (mostSpecificLayer.name) ctx._matchedRouteName = mostSpecificLayer.name]. *)
Definition mark_most_specific (layer : Layer.t) (c : Router.Ctx) : Router.Ctx :=
  {| Router.ctx_path := Router.ctx_path c;
     Router.ctx_method := Router.ctx_method c;
     Router.ctx_routerPath := Router.ctx_routerPath c;
     Router.ctx_routerName := Router.ctx_routerName c;
     Router.ctx_matched := Router.ctx_matched c;
     Router.ctx_router := Router.ctx_router c;
     Router.ctx_captures := Router.ctx_captures c;
     Router.ctx_params := Router.ctx_params c;
     Router._matchedRoute := Some (Layer.path layer);
     Router._matchedRouteName :=
       if truthy (Layer.name layer) then Layer.name layer
       else Router._matchedRouteName c;
     Router.ctx_status := Router.ctx_status c;
     Router.ctx_body := Router.ctx_body c;
     Router.ctx_headers := Router.ctx_headers c;
     Router.ctx_state := Router.ctx_state c |}.

(** [routes()]: the [dispatch] function of lib/router.js. *)
Definition routes `{UriDecoder} `{Router.Handlers} (r : Router.t) (c : Router.Ctx)
    (next : Router.Next) : Router.Outcome :=
  let p := Router.effective_path r c in
  let matched := Router.match_ r p (Router.ctx_method c) in
  let c1 := Router.note_match r matched c in
  if negb (MatchedResult.route matched) then next c1
  else
    match last (MatchedResult.pathAndMethod matched) with
    | None => Router.Threw (TypeError "Cannot read properties of undefined (reading 'path')") c1
    | Some mostSpecificLayer =>
        Router.compose (run_entry p)
          (Router.layerChain (MatchedResult.pathAndMethod matched))
          (mark_most_specific mostSpecificLayer c1) next
    end.

End Legacy.

(** ** Stand-ins for the external capabilities, used in the examples

    The theorems below hold for every compiler, decoder and handler
    behaviour; the examples need concrete ones to run. *)

Module Fixtures.

(** Cut a string at its slashes. *)
Fixpoint split_slash (cur : string) (s : string) : list string :=
  match s with
  | EmptyString => [cur]
  | String c r =>
      if Ascii.eqb c "/"%char then cur :: split_slash "" r
      else split_slash (cur +:+ String c "") r
  end.

Inductive Segment :=
| Literal (s : string)
| Named (n : string).

Definition segment_of (s : string) : Segment :=
  match s with
  | String ":" (String c r) => Named (String c r)
  | _ => Literal s
  end.

Definition segments (template : string) : list Segment :=
  map segment_of (split_slash "" template).

(** Segment-wise matching: a literal must be equal, a named segment
    captures a non-empty piece. *)
Fixpoint match_segments (segs : list Segment) (parts : list string)
    : option (list (option string)) :=
  match segs, parts with
  | [], [] => Some []
  | Literal s :: segs', p :: parts' =>
      if String.eqb s p then match_segments segs' parts' else None
  | Named _ :: segs', p :: parts' =>
      if String.eqb p "" then None
      else cons (Some p) <$> match_segments segs' parts'
  | _, _ => None
  end.

Definition keys_of (segs : list Segment) : list Key :=
  omap (fun s => match s with
                 | Named n => Some {| key_name := NameStr n |}
                 | Literal _ => None
                 end) segs.

(** A small compiler for templates of literal and [:name] segments;
    regular-expression objects are compiled to "matches nothing". *)
#[export] Instance segment_compiler : PathToRegExp := {
  pathToRegExp p _ :=
    match p with
    | PString template =>
        let segs := segments template in
        inr ({| exec := fun s => match_segments segs (split_slash "" s) |},
             keys_of segs)
    | PRegExp _ => inr ({| exec := fun _ => None |}, [])
    end
}.

Definition hex_value (c : ascii) : option nat :=
  let n := nat_of_ascii c in
  if Text.in_range 48 57 c then Some (n - 48)%nat
  else if Text.in_range 65 70 c then Some (n - 55)%nat
  else if Text.in_range 97 102 c then Some (n - 87)%nat
  else None.

(** Percent-decoding of escapes below [%80]; any other escape, and a [%]
    not followed by two hexadecimal digits, is reported as malformed. *)
Fixpoint percent_decode (s : string) : option string :=
  match s with
  | EmptyString => Some EmptyString
  | String "%" (String h (String l r)) =>
      match hex_value h, hex_value l with
      | Some a, Some b =>
          if (a <? 8)%nat
          then String (ascii_of_nat (16 * a + b)) <$> percent_decode r
          else None
      | _, _ => None
      end
  | String "%" _ => None
  | String c r => String c <$> percent_decode r
  end.

#[export] Instance ascii_decoder : UriDecoder := {
  decodeURIComponent := percent_decode
}.

(** Appends a pre-encoded query string after a question mark. *)
#[export] Instance plain_uri : UriJs := {
  uri_with_search replaced q := replaced +:+ "?" +:+ Value.to_string q
}.

Definition log (tag : string) (c : Router.Ctx) : Router.Ctx :=
  {| Router.ctx_path := Router.ctx_path c;
     Router.ctx_method := Router.ctx_method c;
     Router.ctx_routerPath := Router.ctx_routerPath c;
     Router.ctx_routerName := Router.ctx_routerName c;
     Router.ctx_matched := Router.ctx_matched c;
     Router.ctx_router := Router.ctx_router c;
     Router.ctx_captures := Router.ctx_captures c;
     Router.ctx_params := Router.ctx_params c;
     Router._matchedRoute := Router._matchedRoute c;
     Router._matchedRouteName := Router._matchedRouteName c;
     Router.ctx_status := Router.ctx_status c;
     Router.ctx_body := Router.ctx_body c;
     Router.ctx_headers := Router.ctx_headers c;
     Router.ctx_state := Router.ctx_state c ++ [tag] |}.

(** What a handler reads in [ctx._matchedRoute]. *)
Definition seen_route (c : Router.Ctx) : string :=
  default "undefined" (path_to_string <$> Router._matchedRoute c).

(** Handlers that record on the context their call and the
    [_matchedRoute] they saw: those with an even identity go on to
    [next], those with an odd identity answer the request themselves.
    Parameter handlers record the value they got and go on. *)
#[export] Instance recording_handlers : Router.Handlers := {
  call_handler fn c next :=
    let c' := log ("handler " +:+ pretty fn +:+ " at " +:+ seen_route c) c in
    if Nat.even fn then next c' else Router.Returned c';
  call_param_handler fn v c next :=
    next (log ("param " +:+ pretty fn +:+ " " +:+ default "undefined" v) c)
}.

(** Handlers that all go on to [next], leaving only their record. *)
Definition passing_handlers : Router.Handlers := {|
  Router.call_handler fn c next := next (log ("handler " +:+ pretty fn) c);
  Router.call_param_handler fn v c next := next (log ("param " +:+ pretty fn) c)
|}.

Definition named (n : string) : Router.RegisterOptions :=
  {| Router.reg_name := Some n; Router.reg_prefix := None;
     Router.reg_sensitive := None; Router.reg_strict := None;
     Router.reg_ignoreCaptures := None; Router.reg_end := None |}.

Definition unnamed : Router.RegisterOptions :=
  {| Router.reg_name := None; Router.reg_prefix := None;
     Router.reg_sensitive := None; Router.reg_strict := None;
     Router.reg_ignoreCaptures := None; Router.reg_end := None |}.

(** Plain functions passed as middleware. *)
Definition fn_args (ids : list FnId) : list MwArg :=
  map (fun i => ArgFunction (Handler i None)) ids.

(** [router.register(...)], keeping the router when the call throws. *)
Definition registered (p : string) (ms : list string) (ids : list FnId)
    (o : Router.RegisterOptions) (r : Router.t) : Router.t :=
  match Router.register (PString p) ms (fn_args ids) o r with
  | inr (r', _) => r'
  | inl _ => r
  end.

(** The router of the test "routerName and routerPath work with next":
    [get('name1', '/users/1', h0)] then [get('name2', '/users/:id', h2)]. *)
Definition users_router : Router.t :=
  registered "/users/:id" ["get"] [2%nat] (named "name2")
    (registered "/users/1" ["get"] [0%nat] (named "name1") (Router.new None)).

(** The same routes, the first handler answering without [next]. *)
Definition users_router_short : Router.t :=
  registered "/users/:id" ["get"] [2%nat] (named "name2")
    (registered "/users/1" ["get"] [1%nat] (named "name1") (Router.new None)).

(** A layer without anything. *)
Definition no_layer : Layer.t :=
  {| Layer.opts := LayerOptions.empty; Layer.name := None; Layer.methods := [];
     Layer.stack := []; Layer.path := PString "";
     Layer.regexp := {| exec := fun _ => None |}; Layer.paramNames := [] |}.

(** The [i]-th layer of a router's stack ([no_layer] when there is none). *)
Definition layer_at (r : Router.t) (i : nat) : Layer.t :=
  default no_layer (Router.stack r !! i).

(** [router.param(n1, f1).param(n2, f2)...]. *)
Definition with_params (regs : list (string * FnId)) (r : Router.t) : Router.t :=
  fold_left (fun r kv => Router.param (fst kv) (snd kv) r) regs r.

(** [routes()] followed by [allowedMethods(options)], as an application
    mounts them, with nothing after them. *)
Definition serve `{UriDecoder} `{Router.Handlers} (r : Router.t)
    (options : option Router.AllowedMethodsOptions) (c : Router.Ctx)
    : Router.Outcome :=
  Router.routes r c (fun c1 => Router.allowedMethods r options c1 Router.Returned).

(** [new Layer(p, ms, handlers, o)] when it does not throw. *)
Definition constructed (p : string) (ms : list string) (ids : list FnId)
    (o : Layer.OptsArg) : Layer.t :=
  match Layer.new (PString p) ms (fn_args ids) o with
  | inr l => l
  | inl _ => no_layer
  end.

(** The context an outcome leaves behind. *)
Definition ctx_of (o : Router.Outcome) : Router.Ctx :=
  match o with
  | Router.Returned c => c
  | Router.Threw _ c => c
  end.

(** [get('bare', '/:a')]: a named route registered without any handler. *)
Definition bare_router : Router.t :=
  registered "/:a" ["get"] [] (named "bare") (Router.new None).

(** [get('/:a/:b/:c/:d', h0)]. *)
Definition four_params_router : Router.t :=
  registered "/:a/:b/:c/:d" ["get"] [0%nat] unnamed (Router.new None).

(** [get('post', '/post/:id', h1)]. *)
Definition post_router : Router.t :=
  registered "/post/:id" ["get"] [1%nat] (named "post") (Router.new None).

(** [get('root', '', h1)]: a named route whose path is the empty string. *)
Definition root_router : Router.t :=
  registered "" ["get"] [1%nat] (named "root") (Router.new None).

(** [get('/users', h1)] and [put('/users', h3)]. *)
Definition get_put_router : Router.t :=
  registered "/users" ["put"] [3%nat] unnamed
    (registered "/users" ["get"] [1%nat] unnamed (Router.new None)).

(** The context of [POST /users] as [dispatch] hands it to [next] on that
    router. *)
Definition post_users : Router.Ctx :=
  (Router.dispatch_plan get_put_router (Router.request "/users" "POST")).1.

(** [register('/users', [], h0)]: a layer without methods, as [use] makes
    them. *)
Definition middleware_only_router : Router.t :=
  registered "/users" [] [0%nat] unnamed (Router.new None).

(** Parameter handlers declared d, c, a, b before the route exists. *)
Definition four_params_declared_first : Router.t :=
  registered "/:a/:b/:c/:d" ["get"] [0%nat] unnamed
    (with_params [("d", 4%nat); ("c", 3%nat); ("a", 1%nat); ("b", 2%nat)]
       (Router.new None)).

(** [get('books', '/:category/:title', h1)]. *)
Definition books_router : Router.t :=
  registered "/:category/:title" ["get"] [1%nat] (named "books") (Router.new None).

End Fixtures.

(** ** The properties in the specification's own terms *)

Module Spec.

(** Layers whose compiled matcher accepts [p], in registration order. *)
Definition matched_by_path (st : list Layer.t) (p : string) : list Layer.t :=
  List.filter (fun l => Layer.match_ l p) st.

(** A method set that is empty or contains the request method. *)
Definition answers (method : string) (l : Layer.t) : bool :=
  match Layer.methods l with
  | [] => true
  | _ :: _ => bool_decide (method ∈ Layer.methods l)
  end.

(** A non-empty method set containing the request method. *)
Definition handles (method : string) (l : Layer.t) : bool :=
  bool_decide (Layer.methods l ≠ [] ∧ method ∈ Layer.methods l).

(** The elements of a list without repetition, each at its first place. *)
Fixpoint first_seen (seen : list string) (xs : list string) : list string :=
  match xs with
  | [] => []
  | x :: r =>
      if bool_decide (x ∈ seen) then first_seen seen r
      else x :: first_seen (x :: seen) r
  end.

(** The methods of all the layers, one after the other. *)
Definition all_methods (ls : list Layer.t) : list string :=
  flat_map Layer.methods ls.

(** A stack entry that is a parameter validator: it carries a [param]. *)
Definition is_validator (m : Middleware) : bool := truthy (mw_param m).

(** The names of a layer's parameters, left to right. *)
Definition names_of (l : Layer.t) : list KeyName :=
  map key_name (Layer.paramNames l).

(** Where the parameter of a stack entry stands among the names. *)
Definition position (names : list KeyName) (m : Middleware) : Z :=
  Layer.index_of_param names (mw_param m).

Definition in_parameter_order (names : list KeyName) (a b : Middleware) : Prop :=
  position names a <= position names b.

(** [layer.param(n1, f1)], then [layer.param(n2, f2)], and so on. *)
Definition register_all (regs : list (string * FnId)) (l : Layer.t) : Layer.t :=
  fold_left (fun l kv => Layer.param (fst kv) (snd kv) l) regs l.

Definition validator_of (kv : string * FnId) : Middleware :=
  ParamMw (fst kv) (snd kv).

(** What [params] stores for a capture, in the words of the spec: a
    non-empty capture is percent-decoded, and kept raw when decoding
    fails; an empty or absent capture is stored as it is. *)
Definition stored_value `{UriDecoder} (c : option string) : option string :=
  match c with
  | Some s =>
      if String.eqb s "" then Some ""
      else match decodeURIComponent s with
           | Some decoded => Some decoded
           | None => Some s
           end
  | None => None
  end.

(** The name a layer shows in [_matchedRouteName]: its name when it has a
    (non-empty) one. *)
Definition shown_name (l : Layer.t) : option string :=
  if truthy (Layer.name l) then Layer.name l else None.

(** A middleware step from [c] to [c1] that leaves the two compatibility
    fields alone (and does not drop [ctx.params]). *)
Definition passes_on (c c1 : Router.Ctx) : Prop :=
  Router._matchedRoute c1 = Router._matchedRoute c
  ∧ Router._matchedRouteName c1 = Router._matchedRouteName c
  ∧ (is_Some (Router.ctx_params c) → is_Some (Router.ctx_params c1)).

(** Every function of the application goes on to [next] in that way. *)
Definition pass_through (hs : Router.Handlers) : Prop :=
  (∀ fn c k, ∃ c1, @Router.call_handler hs fn c k = k c1 ∧ passes_on c c1)
  ∧ (∀ fn v c k, ∃ c1, @Router.call_param_handler hs fn v c k = k c1 ∧ passes_on c c1).

End Spec.

(** ** Router: [verb], [all] and [redirect] (src/layer.ts) *)

(** The list exported by the [methods] package (the HTTP verbs Node knows,
    in lower case): an external constant, taken as given. *)
Class HttpMethods := {
  http_methods : list string
}.

Module Verb.

(** The third argument of [verb]: a path (string or RegExp), or anything
    else, which is then taken as the first middleware. *)
Inductive PathOrMiddleware :=
| IsPath (p : PathSpec)
| IsMiddleware (m : MwArg).

(** The object [options] of [verb]: empty, or with a [name]. *)
Definition options (name : option string) : Router.RegisterOptions :=
  {| Router.reg_name := name; Router.reg_prefix := None;
     Router.reg_sensitive := None; Router.reg_strict := None;
     Router.reg_ignoreCaptures := None; Router.reg_end := None |}.

(** [verb(method, nameOrPath, pathOrMiddleware, ...middlewares)]; a single
    method name is the one-element list the source makes of it. *)
Definition verb `{PathToRegExp} (method : list string) (nameOrPath : PathSpec)
    (pathOrMiddleware : PathOrMiddleware) (middlewares : list MwArg)
    (r : Router.t) : Exn + Router.t :=
  match pathOrMiddleware with
  | IsPath path =>
      match nameOrPath with
      | PRegExp _ => inl (AssertionError "route name should be string")
      | PString name =>
          match Router.register path method middlewares (options (Some name)) r with
          | inl e => inl e
          | inr (r', _) => inr r'
          end
      end
  | IsMiddleware m =>
      match Router.register nameOrPath method (m :: middlewares) (options None) r with
      | inl e => inl e
      | inr (r', _) => inr r'
      end
  end.

(** [all(nameOrPath, pathOrMiddleware, ...middlewares)]. *)
Definition all `{PathToRegExp} `{HttpMethods} (nameOrPath : PathSpec)
    (pathOrMiddleware : PathOrMiddleware) (middlewares : list MwArg)
    (r : Router.t) : Exn + Router.t :=
  verb http_methods nameOrPath pathOrMiddleware middlewares r.

(** The lookup [redirect] makes of its source and of its destination: a
    string that does not start with a slash is a route name, and the
    [Error] that [url] returns for an unknown name is thrown. *)
Definition resolve `{UriJs} (r : Router.t) (target : string) : Exn + string :=
  if Text.starts_with (Ascii.eqb "/"%char) target then inr target
  else
    match Router.url r target JUndefined [] with
    | inl e => inl e
    | inr (Router.UrlError e) => inl e
    | inr (Router.UrlString s) => inr s
    end.

(** What the handler made by [redirect] has captured. *)
Record Redirection := {
  destination : string;
  status : Z
}.

(** [redirect(source, destination, status)]: [closure] is the identity of
    the handler function the call creates. *)
Definition redirect `{PathToRegExp} `{UriJs} `{HttpMethods}
    (source destination : string) (status : Z) (closure : FnId) (r : Router.t)
    : Exn + (Router.t * Redirection) :=
  match resolve r source with
  | inl e => inl e
  | inr source' =>
      match resolve r destination with
      | inl e => inl e
      | inr destination' =>
          match all (PString source')
                  (IsMiddleware (ArgFunction (Handler closure None))) [] r with
          | inl e => inl e
          | inr r' =>
              inr (r', {| destination := destination'; status := status |})
          end
      end
  end.

End Verb.

(** ** Routers and layers as objects: [use], [prefix], [param], [register]

    [Layer.setPrefix] and [Layer.param] change a Layer object in place, and
    [Router.use] pushes the Layer objects of a mounted router on the stack of
    the router it is mounted on, so that two routers (or two places of one
    stack) hold the same object.  Here the objects live in a store and are
    known by their address.

    Each router owns its [opts] object, and each layer its [stack] array
    ([verb] and [use] always hand a fresh array to the constructor). *)

Module Store.

(** Objects are named by their place in the store. *)
Abbreviation Addr := nat (only parsing).
Abbreviation RouterId := nat (only parsing).

Record RouterObj := {
  opts : RouterOptions.t;
  methods : list string;
  (** the Layer objects of [this.stack], by address *)
  stack : list Addr;
  params : list (string * FnId)
}.

Record t := {
  layers : list Layer.t;
  routers : list RouterObj
}.

Definition empty : t := {| layers := []; routers := [] |}.

(** How a call ends.  Once an exception is thrown the objects are no
    longer described.  [SelfMount] stands for [router.use(router.routes())]
    on a router that has layers: the loop walks the array it pushes on. *)
Inductive Outcome (A : Type) :=
| Done (a : A) (h : t)
| Thrown (e : Exn)
| SelfMount.

Arguments Done {A} a h.
Arguments Thrown {A} e.
Arguments SelfMount {A}.

(** The error of a read through a reference that names no object; no
    operation below produces such a reference. *)
Definition dangling : Exn := TypeError "Cannot read properties of undefined".

Definition with_layers (ls : list Layer.t) (h : t) : t :=
  {| layers := ls; routers := routers h |}.

Definition with_routers (rs : list RouterObj) (h : t) : t :=
  {| layers := layers h; routers := rs |}.

(** A [for ... of] loop whose body works on the store. *)
Fixpoint for_each {A} (body : A -> t -> Outcome unit) (xs : list A) (h : t)
    : Outcome unit :=
  match xs with
  | [] => Done tt h
  | x :: rest =>
      match body x h with
      | Done _ h1 => for_each body rest h1
      | Thrown e => Thrown e
      | SelfMount => SelfMount
      end
  end.

(** [new Router(opts)]. *)
Definition new (o : option RouterOptions.t) (h : t) : RouterId * t :=
  let o' := default RouterOptions.empty o in
  (length (routers h),
   with_routers
     (routers h ++ [{| opts := o';
                       methods := default Router.default_methods (RouterOptions.methods o');
                       stack := []; params := [] |}]) h).

(** [layer.setPrefix(prefix)] on the object at [a]. *)
Definition setPrefix `{PathToRegExp} (pre : string) (a : Addr) (h : t)
    : Outcome unit :=
  match layers h !! a with
  | Some l =>
      match Layer.setPrefix pre l with
      | inl e => Thrown e
      | inr l' => Done tt (with_layers (<[a := l']> (layers h)) h)
      end
  | None => Thrown dangling
  end.

(** [layer.param(param, fn)] on the object at [a]. *)
Definition layer_param (p : string) (fn : FnId) (a : Addr) (h : t)
    : Outcome unit :=
  match layers h !! a with
  | Some l => Done tt (with_layers (<[a := Layer.param p fn l]> (layers h)) h)
  | None => Thrown dangling
  end.

Definition set_params (ps : list (string * FnId)) (r : RouterObj) : RouterObj :=
  {| opts := opts r; methods := methods r; stack := stack r; params := ps |}.

Definition push (a : Addr) (r : RouterObj) : RouterObj :=
  {| opts := opts r; methods := methods r; stack := stack r ++ [a];
     params := params r |}.

Definition set_prefix (pre : string) (r : RouterObj) : RouterObj :=
  {| opts := {| RouterOptions.methods := RouterOptions.methods (opts r);
                RouterOptions.prefix := Some pre;
                RouterOptions.sensitive := RouterOptions.sensitive (opts r);
                RouterOptions.strict := RouterOptions.strict (opts r);
                RouterOptions.routerPath := RouterOptions.routerPath (opts r) |};
     methods := methods r; stack := stack r; params := params r |}.

(** [router.param(param, middleware)]. *)
Definition param (rid : RouterId) (p : string) (fn : FnId) (h : t)
    : Outcome unit :=
  match routers h !! rid with
  | Some r =>
      for_each (layer_param p fn) (stack r)
        (with_routers
           (<[rid := set_params (Router.set_param (params r) p fn) r]> (routers h)) h)
  | None => Thrown dangling
  end.

(** What [register] reads of the router: its options and its parameter
    handlers. *)
Definition settings (r : RouterObj) : Router.t :=
  {| Router.opts := opts r; Router.methods := methods r; Router.stack := [];
     Router.params := params r |}.

(** [router.register(path, methods, middleware, opts)] for one path: the
    new Layer object gets a fresh address, which is returned. *)
Definition register `{PathToRegExp} (rid : RouterId) (p : PathSpec)
    (ms : list string) (middleware : list MwArg) (o : Router.RegisterOptions)
    (h : t) : Outcome Addr :=
  match routers h !! rid with
  | Some r =>
      match Router.register p ms middleware o (settings r) with
      | inl e => Thrown e
      | inr (_, route) =>
          let a := length (layers h) in
          Done a {| layers := layers h ++ [route];
                    routers := <[rid := push a r]> (routers h) |}
      end
  | None => Thrown dangling
  end.

(** [prefix.replace(re, '')] where [re] matches one slash at the end. *)
Fixpoint strip_trailing_slash (s : string) : string :=
  match s with
  | EmptyString => EmptyString
  | String c r =>
      if Ascii.eqb c "/"%char && String.eqb r "" then EmptyString
      else String c (strip_trailing_slash r)
  end.

(** [router.prefix(prefix)]. *)
Definition prefix `{PathToRegExp} (rid : RouterId) (pre : string) (h : t)
    : Outcome unit :=
  let pre' := strip_trailing_slash pre in
  match routers h !! rid with
  | Some r =>
      for_each (setPrefix pre') (stack r)
        (with_routers (<[rid := set_prefix pre' r]> (routers h)) h)
  | None => Thrown dangling
  end.

(** An element of [middlewares] in [use]: the dispatch function of a
    router ([m.router] is that router), any other value that has
    properties, or [undefined] / [null]. *)
Inductive UseArg :=
| Mounted (child : RouterId)
| Plain (m : MwArg)
| Nullish.

(** [typeof m === 'function']. *)
Definition is_function (m : UseArg) : bool :=
  match m with
  | Mounted _ => true
  | Plain (ArgFunction _) | Plain (ArgGenerator _) => true
  | Plain (ArgOther _) => false
  | Nullish => false
  end.

(** The body of [for (const nestedLayer of m.router.stack)]. *)
Definition mount_layer `{PathToRegExp} (rid : RouterId) (path : string)
    (a : Addr) (h : t) : Outcome unit :=
  match (if negb (String.eqb path "") then setPrefix path a h else Done tt h) with
  | Done _ h1 =>
      match routers h1 !! rid with
      | Some r =>
          match (if truthy (RouterOptions.prefix (opts r))
                 then setPrefix (default "" (RouterOptions.prefix (opts r))) a h1
                 else Done tt h1) with
          | Done _ h2 => Done tt (with_routers (<[rid := push a r]> (routers h2)) h2)
          | Thrown e => Thrown e
          | SelfMount => SelfMount
          end
      | None => Thrown dangling
      end
  | Thrown e => Thrown e
  | SelfMount => SelfMount
  end.

(** The options [use] registers a plain middleware with. *)
Definition use_options (hasPath : bool) : Router.RegisterOptions :=
  {| Router.reg_name := None; Router.reg_prefix := None;
     Router.reg_sensitive := None; Router.reg_strict := None;
     Router.reg_ignoreCaptures := Some (negb hasPath);
     Router.reg_end := Some false |}.

(** The body of [for (const m of middlewares)] in [use]. *)
Definition use_one `{PathToRegExp} (rid : RouterId) (path : string)
    (hasPath : bool) (m : UseArg) (h : t) : Outcome unit :=
  match m with
  | Nullish =>
      Thrown (TypeError "Cannot read properties of undefined (reading 'router')")
  | Mounted cid =>
      match routers h !! cid with
      | Some child =>
          if bool_decide (cid = rid) && negb (bool_decide (stack child = []))
          then SelfMount
          else
            match for_each (mount_layer rid path) (stack child) h with
            | Done _ h1 =>
                match routers h1 !! rid with
                | Some r =>
                    for_each (fun kv => param cid (fst kv) (snd kv)) (params r) h1
                | None => Thrown dangling
                end
            | Thrown e => Thrown e
            | SelfMount => SelfMount
            end
      | None => Thrown dangling
      end
  | Plain m =>
      match register rid (PString (if String.eqb path "" then "(.*)" else path))
              [] [m] (use_options hasPath) h with
      | Done _ h1 => Done tt h1
      | Thrown e => Thrown e
      | SelfMount => SelfMount
      end
  end.

(** The first argument of [use]: an array whose first element is a
    string, a string, or anything else. *)
Inductive UseFirst :=
| FirstPaths (first : string) (others : list string)
| FirstPath (p : string)
| FirstArg (m : UseArg).

(** [use] once the array of paths is dealt with. *)
Definition use_at `{PathToRegExp} (rid : RouterId) (path : string)
    (hasPath : bool) (middlewares : list UseArg) (h : t) : Outcome unit :=
  for_each (use_one rid path hasPath) middlewares h.

(** [use(pathOrMiddleware, ...middlewares)].  A first argument that is
    neither a string nor a function is dropped. *)
Definition use `{PathToRegExp} (rid : RouterId) (pathOrMiddleware : UseFirst)
    (middlewares : list UseArg) (h : t) : Outcome unit :=
  match pathOrMiddleware with
  | FirstPaths p ps =>
      for_each (fun path => use_at rid path true middlewares) (p :: ps) h
  | FirstPath p => use_at rid p true middlewares h
  | FirstArg m =>
      use_at rid "" false (if is_function m then m :: middlewares else middlewares) h
  end.


(** Every reference of every router names a Layer object. *)
Definition well_formed (h : t) : Prop :=
  ∀ rid r a, routers h !! rid = Some r → a ∈ stack r → is_Some (layers h !! a).

(** Nothing is taken away between two stores: the routers are the same
    in number and each stack has grown at its end only, with the router's
    implemented methods as they were; every layer is still there, with its
    name, its methods and its options. *)
Definition keeps (h h' : t) : Prop :=
  length (routers h') = length (routers h)
  ∧ (∀ rid r, routers h !! rid = Some r →
       ∃ r', routers h' !! rid = Some r'
             ∧ stack r `prefix_of` stack r'
             ∧ methods r' = methods r)
  ∧ (∀ a l, layers h !! a = Some l →
       ∃ l', layers h' !! a = Some l'
             ∧ Layer.name l' = Layer.name l
             ∧ Layer.methods l' = Layer.methods l
             ∧ Layer.opts l' = Layer.opts l).

(** The same, as a test. *)
Definition references_valid (h : t) : bool :=
  forallb (fun r => forallb (fun a => (a <? length (layers h))%nat) (stack r))
    (routers h).

End Store.

(** ** Words for what the operations build *)

Module Shape.

(** An argument the Layer constructor accepts as middleware. *)
Definition plain_function (a : MwArg) : bool :=
  match a with
  | ArgFunction _ => true
  | _ => false
  end.

(** The function objects among the arguments. *)
Definition functions (args : list MwArg) : list Middleware :=
  omap (fun a => match a with ArgFunction m => Some m | _ => None end) args.

(** The complaint of the constructor about an argument. *)
Definition complaint (a : MwArg) : string :=
  match a with
  | ArgOther ty => ": `middleware` must be a function, not `" +:+ ty +:+ "`"
  | _ => ": Please use async function instead of generator function"
  end.

(** A pattern with a prefix in front; an empty pattern stays empty. *)
Definition prefixed (pre : string) (p : PathSpec) : PathSpec :=
  if path_truthy p then PString (pre +:+ path_to_string p) else p.

(** How many of the method names read GET once in upper case. *)
Definition gets (ms : list string) : nat :=
  length (filter (fun m => toUpperCase m = "GET") ms).

(** The prefix a router passes to its layers: none when it is unset or
    empty. *)
Definition router_prefix (o : RouterOptions.t) : string :=
  if truthy (RouterOptions.prefix o) then default "" (RouterOptions.prefix o)
  else "".


#[global] Instance piece_eq_dec : EqDecision Text.Piece.
Proof. solve_decision. Defined.

(** The key is the name of a placeholder of the pattern, as
    [EggRouter.url] looks for them. *)
Definition is_placeholder (pattern : string) (key : string) : Prop :=
  Text.PName key ∈ Text.scan Text.is_ident_start None pattern.

#[global] Instance is_placeholder_dec (pattern key : string) :
  Decision (is_placeholder pattern key).
Proof. unfold is_placeholder. apply _. Defined.



(** The names of the named tokens of a parsed template, in order. *)
Definition token_names (tokens : list Text.Piece) : list string :=
  omap (fun tok => match tok with
                   | Text.PName n => Some n
                   | Text.PChar _ => None
                   end) tokens.

(** What mounting does to one layer: the mount path in front, when there
    is one, then the prefix of the router mounted on, when it has one. *)
Definition mounted `{PathToRegExp} (path : string) (o : RouterOptions.t)
    (l : Layer.t) : Exn + Layer.t :=
  match (if negb (String.eqb path "") then Layer.setPrefix path l else inr l) with
  | inl e => inl e
  | inr l1 =>
      if truthy (RouterOptions.prefix o)
      then Layer.setPrefix (default "" (RouterOptions.prefix o)) l1
      else inr l1
  end.

(** The pattern of a mounted layer. *)
Definition mounted_path (path : string) (o : RouterOptions.t) (p : PathSpec)
    : PathSpec :=
  let p1 := if negb (String.eqb path "") then prefixed path p else p in
  if truthy (RouterOptions.prefix o)
  then prefixed (default "" (RouterOptions.prefix o)) p1
  else p1.

(** A router object with other layers on its stack. *)
Definition with_stack (st : list Store.Addr) (r : Store.RouterObj)
    : Store.RouterObj :=
  {| Store.opts := Store.opts r; Store.methods := Store.methods r;
     Store.stack := st; Store.params := Store.params r |}.

(** The table of parameter handlers after [param] was called for each
    entry in turn. *)
Definition declared (regs ps : list (string * FnId)) : list (string * FnId) :=
  fold_left (fun ps kv => Router.set_param ps (fst kv) (snd kv)) regs ps.

End Shape.

(** ** class EggRouter: [register] and [resources] (src/EggRouter.ts) *)

(** [inflection.singularize] and [inflection.pluralize] of the
    [inflection] package: external, taken as given. *)
Class Inflection := {
  singularize : string -> string;
  pluralize : string -> string
}.

Module Egg.

(** What is found under [app.controller]: functions, and objects holding
    more of the same.  (The keys looked up are not the built-in
    properties of function objects.) *)
Inductive Node :=
| NFunction (m : Middleware)
| NGenerator (m : Middleware)
| NObject (props : list (string * Node)).

(** An element of the [middleware] array: a controller name, a function
    or controller object, or any other value, of which the code looks at
    the type and the truthiness. *)
Inductive Arg :=
| AString (s : string)
| ANode (n : Node)
| AOther (type_of : string) (truthy : bool).

(** [obj[key]] on the own properties; [None] is [undefined]. *)
Fixpoint lookup (props : list (string * Node)) (key : string) : option Node :=
  match props with
  | [] => None
  | (k, v) :: rest => if String.eqb k key then Some v else lookup rest key
  end.

Definition get (n : Node) (key : string) : option Node :=
  match n with
  | NObject props => lookup props key
  | _ => None
  end.

(** [s.split('.')]. *)
Fixpoint split_dots (cur : string) (s : string) : list string :=
  match s with
  | EmptyString => [cur]
  | String c r =>
      if Ascii.eqb c "."%char then cur :: split_dots "" r
      else split_dots (cur +:+ String c "") r
  end.

(** [actions.forEach(key => { obj = obj[key]; if (!obj) throw ... })]. *)
Fixpoint walk (controller : string) (obj : Node) (actions : list string)
    : Exn + Node :=
  match actions with
  | [] => inr obj
  | key :: rest =>
      match get obj key with
      | Some next => walk controller next rest
      | None => inl (PlainError ("app.controller." +:+ controller +:+ " not exists"))
      end
  end.

(** [resolveController(controller, app)]; [app_controller] is
    [app.controller], and [None] stands for the [undefined] that
    [pop()] gives on an empty array. *)
Definition resolveController (controller : option Arg)
    (app_controller : list (string * Node)) : Exn + Arg :=
  match controller with
  | Some (AString s) =>
      match walk s (NObject app_controller) (split_dots "" s) with
      | inl e => inl e
      | inr n => inr (ANode n)
      end
  | Some (ANode n) => inr (ANode n)
  | Some (AOther ty true) => inr (AOther ty true)
  | Some (AOther _ false) | None => inl (PlainError "controller not exists")
  end.

(** What the Layer constructor sees of an element. *)
Definition to_arg (a : Arg) : MwArg :=
  match a with
  | AString _ => ArgOther "string"
  | ANode (NFunction m) => ArgFunction m
  | ANode (NGenerator m) => ArgGenerator m
  | ANode (NObject _) => ArgOther "object"
  | AOther ty _ => ArgOther ty
  end.

(** [convertMiddlewares(middlewares, app)]: the last element is the
    controller. *)
Definition convertMiddlewares (middlewares : list Arg)
    (app_controller : list (string * Node)) : Exn + list Arg :=
  match resolveController (last middlewares) app_controller with
  | inl e => inl e
  | inr controller => inr (removelast middlewares ++ [controller])
  end.

(** [register(path, methods, middleware, opts)] of [EggRouter], for one
    path. *)
Definition register `{PathToRegExp} (app_controller : list (string * Node))
    (p : PathSpec) (ms : list string) (middleware : list Arg)
    (o : Router.RegisterOptions) (r : Router.t) : Exn + (Router.t * Layer.t) :=
  match convertMiddlewares middleware app_controller with
  | inl e => inl e
  | inr middlewares => Router.register p ms (map to_arg middlewares) o r
  end.

(** An entry of [REST_MAP]. *)
Record RestfulOptions := {
  suffix : string;
  namePrefix : option string;
  method : list string;
  member : bool
}.

Definition REST_MAP : list (string * RestfulOptions) :=
  [("index", {| suffix := ""; namePrefix := None; method := ["GET"]; member := false |});
   ("new", {| suffix := "new"; namePrefix := Some "new_"; method := ["GET"];
              member := true |});
   ("create", {| suffix := ""; namePrefix := None; method := ["POST"];
                 member := false |});
   ("show", {| suffix := ":id"; namePrefix := None; method := ["GET"];
               member := true |});
   ("edit", {| suffix := ":id/edit"; namePrefix := Some "edit_"; method := ["GET"];
               member := true |});
   ("update", {| suffix := ":id"; namePrefix := Some ""; method := ["PATCH"; "PUT"];
                 member := true |});
   ("destroy", {| suffix := ":id"; namePrefix := Some "destroy_";
                  method := ["DELETE"]; member := true |})].

(** [#formatRouteParams]: the path, the middlewares and the name. *)
Inductive PathOrMiddleware :=
| IsPath (p : PathSpec)
| IsMiddleware (a : Arg).

Definition formatRouteParams (nameOrPath : PathSpec)
    (pathOrMiddleware : PathOrMiddleware) (middlewares : list Arg)
    : Exn + (PathSpec * list Arg * option string) :=
  match pathOrMiddleware with
  | IsPath path =>
      match nameOrPath with
      | PRegExp _ => inl (AssertionError "route name should be string")
      | PString name => inr (path, middlewares, Some name)
      end
  | IsMiddleware a => inr (nameOrPath, a :: middlewares, None)
  end.

(** [controller[key]] for the resolved controller. *)
Definition action_of (controller : Arg) (key : string) : option Node :=
  match controller with
  | ANode n => get n key
  | _ => None
  end.

(** The name a REST route is registered under. *)
Definition route_name `{Inflection} (name : option string) (opts : RestfulOptions)
    : string :=
  let routeName :=
    if member opts then singularize (default "" name)
    else pluralize (default "" name) in
  if truthy (namePrefix opts) then default "" (namePrefix opts) +:+ routeName
  else routeName.

(** The path a REST route is registered under: [path] is a string. *)
Definition url_path (path : string) (opts : RestfulOptions) : string :=
  let prefix := Store.strip_trailing_slash path in
  if String.eqb (suffix opts) "" then prefix
  else prefix +:+ "/" +:+ suffix opts.

Definition named (n : string) : Router.RegisterOptions :=
  {| Router.reg_name := Some n; Router.reg_prefix := None;
     Router.reg_sensitive := None; Router.reg_strict := None;
     Router.reg_ignoreCaptures := None; Router.reg_end := None |}.

(** The loop [for (const key in REST_MAP)] of [resources]. *)
Fixpoint resources_loop `{PathToRegExp} `{Inflection}
    (app_controller : list (string * Node)) (path : PathSpec)
    (middlewares : list Arg) (name : option string) (controller : Arg)
    (entries : list (string * RestfulOptions)) (r : Router.t) : Exn + Router.t :=
  match entries with
  | [] => inr r
  | (key, opts) :: rest =>
      match action_of controller key with
      | None =>
          resources_loop app_controller path middlewares name controller rest r
      | Some action =>
          match path with
          | PRegExp _ => inl (TypeError "path.replace is not a function")
          | PString s =>
              match register app_controller (PString (url_path s opts)) (method opts)
                      (middlewares ++ [ANode action]) (named (route_name name opts)) r with
              | inl e => inl e
              | inr (r', _) =>
                  resources_loop app_controller path middlewares name controller rest r'
              end
          end
      end
  end.

(** [resources(nameOrPath, pathOrMiddleware, ...middleware)]. *)
Definition resources `{PathToRegExp} `{Inflection}
    (app_controller : list (string * Node)) (nameOrPath : PathSpec)
    (pathOrMiddleware : PathOrMiddleware) (middleware : list Arg) (r : Router.t)
    : Exn + Router.t :=
  match formatRouteParams nameOrPath pathOrMiddleware middleware with
  | inl e => inl e
  | inr (path, middlewares, name) =>
      match resolveController (last middlewares) app_controller with
      | inl e => inl e
      | inr controller =>
          resources_loop app_controller path (removelast middlewares) name
            controller REST_MAP r
      end
  end.

End Egg.

(** What [resources] registers for an entry of [REST_MAP]: the name, the
    pattern (behind the router's prefix) and the methods of the layer. *)
Module Rest.

Definition defined (controller : Egg.Arg) (entry : string * Egg.RestfulOptions)
    : bool :=
  bool_decide (is_Some (Egg.action_of controller (fst entry))).

Definition expected `{Inflection} (o : RouterOptions.t) (name : option string)
    (path : string) (entry : string * Egg.RestfulOptions)
    : option string * PathSpec * list string :=
  (Some (Egg.route_name name (snd entry)),
   (let p := PString (Egg.url_path path (snd entry)) in
    if truthy (RouterOptions.prefix o)
    then Shape.prefixed (default "" (RouterOptions.prefix o)) p
    else p),
   Layer.build_methods (Egg.method (snd entry))).

Definition summary (l : Layer.t) : option string * PathSpec * list string :=
  (Layer.name l, Layer.path l, Layer.methods l).

End Rest.

(** ** Routers as objects, for the examples *)

Module Scenes.

Import Store.
Import Fixtures.

(** The store a call leaves, or the store as it was when the call did not
    return. *)
Definition after {A} (o : Outcome A) (h : Store.t) : Store.t :=
  match o with
  | Done _ h' => h'
  | _ => h
  end.

(** [router.get(path, handler)] on the router [rid]. *)
Definition get (rid : RouterId) (path : string) (handler : FnId) (h : Store.t)
    : Store.t :=
  after (Store.register rid (PString path) ["get"] (Fixtures.fn_args [handler])
           Fixtures.unnamed h) h.

(** A router object that is nowhere. *)
Definition no_router : RouterObj :=
  {| opts := RouterOptions.empty; methods := []; stack := []; params := [] |}.

Definition router_at (h : Store.t) (rid : RouterId) : RouterObj :=
  default no_router (routers h !! rid).

Definition object_at (h : Store.t) (a : Addr) : Layer.t :=
  default Fixtures.no_layer (layers h !! a).

(** [forums = new Router()] is router 0 and [posts = new Router()] is
    router 1, with [posts.get('/', h1)] and [posts.get('/:pid', h3)]. *)
Definition two_routers : Store.t :=
  get 1 "/:pid" 3%nat (get 1 "/" 1%nat (new None (new None Store.empty).2).2).

(** Then [forums.param('fid', f9)]. *)
Definition forums_with_param : Store.t :=
  after (Store.param 0 "fid" 9%nat two_routers) two_routers.

(** Then [forums.use('/forums/:fid/posts', posts.routes())]. *)
Definition forums_mounted : Store.t :=
  after (Store.use 0 (FirstPath "/forums/:fid/posts") [Mounted 1] forums_with_param)
    forums_with_param.

(** [forums.use('/a', posts.routes())] on the two routers. *)
Definition mounted_at_a : Store.t :=
  after (Store.use 0 (FirstPath "/a") [Mounted 1] two_routers) two_routers.

(** Then [forums.use('/b', posts.routes())]. *)
Definition mounted_at_a_then_b : Store.t :=
  after (Store.use 0 (FirstPath "/b") [Mounted 1] mounted_at_a) mounted_at_a.

(** [posts.prefix('/v1/')] on the two routers. *)
Definition posts_prefixed : Store.t :=
  after (Store.prefix 1 "/v1/" two_routers) two_routers.

(** Then [posts.prefix('/api')]. *)
Definition posts_prefixed_twice : Store.t :=
  after (Store.prefix 1 "/api" posts_prefixed) posts_prefixed.

(** [posts.get('/new', h5)] once [posts] is mounted on [forums]. *)
Definition posts_grown : Store.t := get 1 "/new" 5%nat forums_mounted.

(** [forums.use(m4)] on the two routers. *)
Definition forums_with_middleware : Store.t :=
  after (Store.use 0 (FirstArg (Plain (ArgFunction (Handler 4%nat None)))) []
           two_routers) two_routers.

(** [posts.get('/x', h5)] after the two calls of [posts.prefix]. *)
Definition prefixed_twice_then_grown : Store.t :=
  get 1 "/x" 5%nat posts_prefixed_twice.

(** [router.get('name1', '/people/:id', h4)] on the router of the users:
    the name is already taken by its first route. *)
Definition people : Router.t :=
  registered "/people/:id" ["get"] [4%nat] (named "name1") users_router.

(** [router.param('id', f7)], then [router.get('/users/:id', h0)]. *)
Definition declared_then_registered : Router.t :=
  registered "/users/:id" ["get"] [0%nat] unnamed
    (with_params [("id", 7%nat)] (Router.new None)).

(** The context of [GET /users/1] once the layer of [/users/:id] is
    entered. *)
Definition inside_users_id : Router.Ctx :=
  Router.enter_layer "/users/1" (Fixtures.layer_at users_router 1)
    (Router.request "/users/1" "GET").

(** A stand-in for the [inflection] package: the plural adds an [s]. *)
#[export] Instance plural_s : Inflection := {
  singularize s := s;
  pluralize s := s +:+ "s"
}.

(** [app.controller.post], with five of the seven actions. *)
Definition post_controller : Egg.Node :=
  Egg.NObject [("index", Egg.NFunction (Handler 10%nat None));
               ("show", Egg.NFunction (Handler 11%nat None));
               ("create", Egg.NFunction (Handler 12%nat None));
               ("update", Egg.NFunction (Handler 13%nat None));
               ("new", Egg.NFunction (Handler 14%nat None))].

Definition app_controller : list (string * Egg.Node) :=
  [("post", post_controller)].

(** [router.resources('api_post', '/api/post/', app.controller.post)]. *)
Definition rest_router : Router.t :=
  match Egg.resources app_controller (PString "api_post")
          (Egg.IsPath (PString "/api/post/")) [Egg.ANode post_controller]
          (Router.new None) with
  | inr r => r
  | inl _ => Router.new None
  end.

(** A stand-in for the list of the [methods] package. *)
#[export] Instance some_http_methods : HttpMethods := {
  http_methods := ["get"; "post"; "put"; "head"; "delete"; "options"; "patch"]
}.

End Scenes.

(** * Properties of the embedded code *)

#[local] Set Warnings "-clear-no-such-hyp".

(** ** Router.match *)

Section Match.

Import MatchedResult.

Lemma match_step_fold (p method : string) (ls : list Layer.t) (acc : MatchedResult.t) :
  fold_left (Router.match_step p method) ls acc =
  {| path := path acc ++ Spec.matched_by_path ls p;
     pathAndMethod :=
       pathAndMethod acc ++ List.filter (Spec.answers method) (Spec.matched_by_path ls p);
     route :=
       route acc || existsb (Spec.handles method) (Spec.matched_by_path ls p) |}.
Proof.
  revert acc. induction ls as [|l ls IH]; intros acc; simpl.
  - rewrite !app_nil_r, orb_false_r. by destruct acc.
  - rewrite IH. unfold Router.match_step, Spec.matched_by_path. simpl.
    destruct (Layer.match_ l p) eqn:Hm; simpl; [|done].
    unfold Spec.answers, Spec.handles, includes.
    destruct (Layer.methods l) as [|m ms] eqn:Hms; simpl.
    + by rewrite <- !app_assoc.
    + destruct (bool_decide (method ∈ m :: ms)) eqn:Hin; simpl.
      * rewrite <- !app_assoc. simpl.
        rewrite bool_decide_eq_true_2; [by rewrite orb_true_r|].
        split; [done|]. by apply bool_decide_eq_true in Hin.
      * rewrite <- !app_assoc. simpl.
        rewrite bool_decide_eq_false_2; [done|].
        apply bool_decide_eq_false in Hin. by intros [_ ?].
Qed.

Lemma match_fields (r : Router.t) (p method : string) :
  path (Router.match_ r p method) = Spec.matched_by_path (Router.stack r) p
  ∧ pathAndMethod (Router.match_ r p method) =
      List.filter (Spec.answers method) (Spec.matched_by_path (Router.stack r) p)
  ∧ route (Router.match_ r p method) =
      existsb (Spec.handles method) (Spec.matched_by_path (Router.stack r) p).
Proof.
  unfold Router.match_. by rewrite match_step_fold.
Qed.

(** C1.  For every router, path and method, [Router.match] returns as
    [path] exactly the layers of the stack whose matcher accepts the
    path, in registration order (every one of them, no reordering), and
    as [pathAndMethod] the sub-list of those whose method set is empty or
    contains the request method. *)
Theorem match_lists_in_registration_order (r : Router.t) (p method : string) :
  path (Router.match_ r p method) = Spec.matched_by_path (Router.stack r) p
  ∧ pathAndMethod (Router.match_ r p method) =
      List.filter (Spec.answers method) (Spec.matched_by_path (Router.stack r) p)
  ∧ route (Router.match_ r p method) =
      existsb (Spec.handles method) (Spec.matched_by_path (Router.stack r) p).
Proof.
  unfold Router.match_. rewrite match_step_fold. simpl. done.
Qed.

End Match.

(** ** Router.routes: the dispatch function *)

Section Dispatch.

Import MatchedResult.
Context `{UriDecoder} `{Router.Handlers}.

Lemma layerChain_fold (ls : list Layer.t) (memo : list Router.ChainEntry) :
  fold_left (fun memo layer =>
               (memo ++ [Router.Enter layer]) ++ map Router.Run (Layer.stack layer))
    ls memo
  = memo ++ flat_map (fun l => Router.Enter l :: map Router.Run (Layer.stack l)) ls.
Proof.
  revert memo. induction ls as [|l ls IH]; intros memo; simpl.
  - by rewrite app_nil_r.
  - rewrite IH. by rewrite <- !app_assoc.
Qed.

Lemma layerChain_flat (ls : list Layer.t) :
  Router.layerChain ls
  = flat_map (fun l => Router.Enter l :: map Router.Run (Layer.stack l)) ls.
Proof. unfold Router.layerChain. by rewrite layerChain_fold. Qed.

Lemma no_route_iff (r : Router.t) (p method : string) :
  route (Router.match_ r p method) = false
  ↔ ∀ l, l ∈ Router.stack r → Layer.match_ l p = true →
         ¬ (Layer.methods l ≠ [] ∧ method ∈ Layer.methods l).
Proof.
  destruct (match_fields r p method) as (_ & _ & ->).
  unfold Spec.matched_by_path. split.
  - intros Hex l Hl Hm Hh.
    assert (existsb (Spec.handles method)
              (List.filter (fun l => Layer.match_ l p) (Router.stack r)) = true) as Ht.
    { apply existsb_exists. exists l. split.
      - apply filter_In. split; [by apply list_elem_of_In|done].
      - unfold Spec.handles. by apply bool_decide_eq_true. }
    congruence.
  - intros Hall. apply not_true_is_false. intros Ht.
    apply existsb_exists in Ht as (l & Hl & Hh).
    apply filter_In in Hl as [Hl Hm].
    apply bool_decide_eq_true in Hh.
    by apply (Hall l); [apply list_elem_of_In| |].
Qed.

(** C2.  The dispatch function takes its [return next()] branch, handing
    the continue callback's result back without composing or running any
    layer's middleware, exactly when no layer matching the effective path
    has a non-empty method set containing the request method; otherwise
    it runs the composed chain, which starts by entering the first
    matched layer.  In particular layers with an empty method set never
    trigger the chain by themselves. *)
Theorem dispatch_falls_through_iff_no_route (r : Router.t) (c : Router.Ctx)
    (next : Router.Next) :
  let p := Router.effective_path r c in
  let matched := Router.match_ r p (Router.ctx_method c) in
  let no_handler :=
    ∀ l, l ∈ Router.stack r → Layer.match_ l p = true →
         ¬ (Layer.methods l ≠ [] ∧ Router.ctx_method c ∈ Layer.methods l) in
  (no_handler ↔ (Router.dispatch_plan r c).2 = None)
  ∧ (no_handler →
       Router.routes r c next = next (Router.note_match r matched c))
  ∧ (¬ no_handler →
       ∃ first rest,
         pathAndMethod matched = first :: rest
         ∧ Router.routes r c next
           = Router.compose (Router.run_entry p)
               (Router.Enter first :: map Router.Run (Layer.stack first)
                  ++ Router.layerChain rest)
               (Router.note_match r matched c) next)
  ∧ ((∀ l, l ∈ Router.stack r → Layer.match_ l p = true → Layer.methods l = []) →
       (Router.dispatch_plan r c).2 = None).
Proof.
  intros p matched no_handler.
  assert (no_handler ↔ route matched = false) as Hiff.
  { symmetry. apply no_route_iff. }
  assert (route matched = false ↔ (Router.dispatch_plan r c).2 = None) as Hplan.
  { unfold Router.dispatch_plan. fold p. fold matched.
    destruct (route matched); simpl; split; congruence. }
  split; [by rewrite Hiff|]. split; [|split].
  - intros Hno. apply Hiff in Hno.
    unfold Router.routes, Router.dispatch_plan. fold p. fold matched.
    by rewrite Hno.
  - intros Hyes.
    assert (route matched = true) as Hr.
    { destruct (route matched) eqn:E; [done|]. exfalso. apply Hyes. by apply Hiff. }
    assert (pathAndMethod matched ≠ []) as Hne.
    { intros Hnil. subst matched.
      destruct (match_fields r p (Router.ctx_method c))
        as (_ & Hpm & Hroute).
      rewrite Hroute in Hr. apply existsb_exists in Hr as (l & Hl & Hh).
      rewrite Hpm in Hnil.
      assert (In l (List.filter (Spec.answers (Router.ctx_method c))
                      (Spec.matched_by_path (Router.stack r) p))) as Hin.
      { apply filter_In. split; [done|].
        apply bool_decide_eq_true in Hh as [Hne Hin].
        unfold Spec.answers. destruct (Layer.methods l); [done|].
        by apply bool_decide_eq_true. }
      rewrite Hnil in Hin. done. }
    destruct (pathAndMethod matched) as [|first rest] eqn:Hpm; [done|].
    exists first, rest. split; [done|].
    unfold Router.routes, Router.dispatch_plan. fold p. fold matched.
    rewrite Hr. simpl. rewrite Hpm. rewrite !layerChain_flat. simpl. done.
  - intros Hempty. apply Hplan, Hiff. intros l Hl Hm [Hne _].
    by apply Hne, Hempty.
Qed.

End Dispatch.

(** ** Layer: captures, methods, params *)

Section LayerFacts.

Context `{PathToRegExp} `{UriDecoder}.

(** C10.  [Layer.captures] is defined on every layer and path: it is the
    empty list when the layer ignores captures, the empty list as well
    when the expression does not match the path, and the capture groups in
    order otherwise. *)
Theorem captures_total (l : Layer.t) (p : string) :
  (LayerOptions.ignoreCaptures (Layer.opts l) = Some true → Layer.captures l p = [])
  ∧ (exec (Layer.regexp l) p = None → Layer.captures l p = [])
  ∧ (∀ groups,
       LayerOptions.ignoreCaptures (Layer.opts l) ≠ Some true →
       exec (Layer.regexp l) p = Some groups →
       Layer.captures l p = groups).
Proof.
  unfold Layer.captures. repeat split.
  - by intros ->.
  - intros ->. by destruct (default false _).
  - intros groups Hig ->.
    destruct (LayerOptions.ignoreCaptures (Layer.opts l)) as [[]|]; simpl; congruence.
Qed.

Lemma push_method_spec (acc : list string) (m : string) :
  Layer.push_method acc m =
  if bool_decide (toUpperCase m = "GET")
  then "HEAD" :: acc ++ [toUpperCase m]
  else acc ++ [toUpperCase m].
Proof.
  unfold Layer.push_method.
  assert ((acc ++ [toUpperCase m]) !! (length (acc ++ [toUpperCase m]) - 1)%nat
          = Some (toUpperCase m)) as ->.
  { rewrite length_app. simpl.
    replace (length acc + 1 - 1)%nat with (length acc + 0)%nat by lia.
    by rewrite lookup_app_r, Nat.add_0_r, Nat.sub_diag by lia. }
  destruct (decide (toUpperCase m = "GET")) as [E|E].
  - rewrite !bool_decide_eq_true_2; congruence.
  - rewrite !bool_decide_eq_false_2; congruence.
Qed.

Lemma push_method_keeps_head (acc : list string) (m : string) :
  head acc = Some "HEAD" → head (Layer.push_method acc m) = Some "HEAD".
Proof.
  intros Hh. rewrite push_method_spec. case_bool_decide; [done|].
  destruct acc; [done|]. done.
Qed.

Lemma fold_push_keeps_head (ms : list string) (acc : list string) :
  head acc = Some "HEAD" → head (fold_left Layer.push_method ms acc) = Some "HEAD".
Proof.
  revert acc. induction ms as [|m ms IH]; intros acc Hh; simpl; [done|].
  by apply IH, push_method_keeps_head.
Qed.

Lemma fold_push_keeps_elem (ms : list string) (acc : list string) (x : string) :
  x ∈ acc → x ∈ fold_left Layer.push_method ms acc.
Proof.
  revert acc. induction ms as [|m ms IH]; intros acc Hx; simpl; [done|].
  apply IH. rewrite push_method_spec. case_bool_decide; set_solver.
Qed.

Lemma fold_push_get (ms : list string) (acc : list string) :
  (∃ m, m ∈ ms ∧ toUpperCase m = "GET") →
  head (fold_left Layer.push_method ms acc) = Some "HEAD"
  ∧ "GET" ∈ fold_left Layer.push_method ms acc.
Proof.
  revert acc. induction ms as [|m ms IH]; intros acc (g & Hg & Hup).
  - by apply elem_of_nil in Hg.
  - simpl. apply elem_of_cons in Hg as [->|Hg].
    + rewrite push_method_spec, bool_decide_eq_true_2 by done. split.
      * by apply fold_push_keeps_head.
      * apply fold_push_keeps_elem. rewrite Hup. set_solver.
    + apply IH. eauto.
Qed.

Lemma fold_push_get_origin (ms : list string) (acc : list string) :
  "GET" ∈ fold_left Layer.push_method ms acc →
  "GET" ∈ acc ∨ ∃ m, m ∈ ms ∧ toUpperCase m = "GET".
Proof.
  revert acc. induction ms as [|m ms IH]; intros acc Hin; simpl in Hin; [by left|].
  apply IH in Hin as [Hin|(g & Hg & Hup)].
  - rewrite push_method_spec in Hin. case_bool_decide as E.
    + right. exists m. split; [set_solver|done].
    + apply elem_of_app in Hin as [Hin|Hin]; [by left|].
      apply list_elem_of_singleton in Hin. right. exists m. split; [set_solver|done].
  - right. exists g. split; [set_solver|done].
Qed.

(** C3.  A layer constructed from a method list that contains GET in any
    letter case has HEAD at the front of its method list (and GET in it);
    so a constructed layer that answers GET also answers HEAD; and
    [setPrefix], [param] and matching leave the method list as it is. *)
Theorem constructed_get_layer_answers_head (p : PathSpec) (ms : list string)
    (middlewares : list MwArg) (o : Layer.OptsArg) (l : Layer.t) :
  Layer.new p ms middlewares o = inr l →
  ((∃ m, m ∈ ms ∧ toUpperCase m = "GET") →
     head (Layer.methods l) = Some "HEAD" ∧ "GET" ∈ Layer.methods l)
  ∧ ("GET" ∈ Layer.methods l → "HEAD" ∈ Layer.methods l)
  ∧ (∀ pre l', Layer.setPrefix pre l = inr l' → Layer.methods l' = Layer.methods l)
  ∧ (∀ n fn, Layer.methods (Layer.param n fn l) = Layer.methods l)
  ∧ (∀ (r : Router.t) pth method l',
       l' ∈ MatchedResult.path (Router.match_ r pth method) → l' ∈ Router.stack r).
Proof.
  intros Hnew.
  assert (Layer.methods l = Layer.build_methods ms) as Hms.
  { unfold Layer.new in Hnew.
    destruct (Layer.check_stack _ middlewares); [done|].
    destruct (pathToRegExp p _) as [|[re keys]]; [done|].
    by inversion Hnew. }
  assert ((∃ m, m ∈ ms ∧ toUpperCase m = "GET") →
          head (Layer.methods l) = Some "HEAD" ∧ "GET" ∈ Layer.methods l) as Hget.
  { intros Hex. rewrite Hms. by apply fold_push_get. }
  split; [done|]. split; [|split; [|split]].
  - intros Hin. rewrite Hms in Hin.
    apply fold_push_get_origin in Hin as [Hin|Hex]; [by apply elem_of_nil in Hin|].
    apply Hget in Hex as [Hh _].
    destruct (Layer.methods l) as [|x xs]; [done|].
    simpl in Hh. inversion Hh. set_solver.
  - intros pre l'. unfold Layer.setPrefix.
    destruct (path_truthy (Layer.path l)); [|by intros [= ->]].
    destruct (pathToRegExp _ _) as [|[re keys]]; [done|].
    by intros [= <-].
  - intros n fn. unfold Layer.param.
    by destruct (-1 <? _).
  - intros r pth method l' Hin.
    destruct (match_fields r pth method) as (Hp & _).
    rewrite Hp in Hin. unfold Spec.matched_by_path in Hin.
    apply list_elem_of_In, filter_In in Hin as [Hin _].
    by apply list_elem_of_In.
Qed.

End LayerFacts.

(** ** Layer.params *)

Section Params.

Context `{UriDecoder} `{Router.Handlers}.

Lemma param_value_stored (c : option string) :
  Layer.param_value c = Spec.stored_value c.
Proof.
  unfold Layer.param_value, Spec.stored_value, safeDecodeURIComponent, truthy.
  destruct c as [s|]; [|done].
  destruct (String.eqb s "") eqn:E; simpl.
  - by apply String.eqb_eq in E as ->.
  - by destruct (decodeURIComponent s).
Qed.

Lemma params_loop_untouched (keys : list Key) (caps : list (option string))
    (acc : gmap string (option string)) (key : string) :
  (∀ i k, (i < length caps)%nat → keys !! i = Some k → Layer.prop_of_key k ≠ key) →
  Layer.params_loop keys caps acc !! key = acc !! key.
Proof.
  revert keys acc. induction caps as [|c caps IH]; intros keys acc Hfree; simpl; [done|].
  destruct keys as [|k keys]; [done|].
  rewrite IH.
  - apply lookup_insert_ne. apply (Hfree 0%nat k); simpl; [lia|done].
  - intros i k' Hi Hk'. apply (Hfree (S i) k'); simpl; [lia|done].
Qed.

Lemma params_loop_written (keys : list Key) (caps : list (option string))
    (acc : gmap string (option string)) (i : nat) (k : Key) (c : option string) :
  keys !! i = Some k → caps !! i = Some c →
  (∀ j k', (i < j)%nat → (j < length caps)%nat → keys !! j = Some k' →
           Layer.prop_of_key k' ≠ Layer.prop_of_key k) →
  Layer.params_loop keys caps acc !! Layer.prop_of_key k = Some (Layer.param_value c).
Proof.
  revert keys acc i. induction caps as [|c0 caps IH]; intros keys acc i Hk Hc Hlast; [done|].
  destruct keys as [|k0 keys]; [done|]. simpl.
  destruct i as [|i]; simpl in Hk, Hc.
  - inversion Hk; inversion Hc; subst.
    rewrite params_loop_untouched.
    + by rewrite lookup_insert_eq.
    + intros j k' Hj Hk'. apply (Hlast (S j) k'); simpl; [lia|lia|done].
  - apply (IH keys _ i); [done|done|].
    intros j k' Hij Hj Hk'. apply (Hlast (S j) k'); simpl; [lia|lia|done].
Qed.

(** C9.  [Layer.params] stores, for every capture aligned with a
    parameter, the percent-decoded capture when it is non-empty and decodes,
    and the raw capture unchanged when decoding fails (an empty or absent
    capture is stored as it is); names it does not write keep their
    existing value.  It always returns a mapping, and the chain entry that
    calls it always goes on to the next middleware: a decoding failure
    neither raises nor undoes the match. *)
Theorem params_decode_or_keep_raw (l : Layer.t) (pth : string)
    (caps : list (option string))
    (existing : option (gmap string (option string))) :
  let result := Layer.params l pth caps existing in
  (∀ i k c,
     Layer.paramNames l !! i = Some k → caps !! i = Some c →
     (∀ j k', (i < j)%nat → (j < length caps)%nat → Layer.paramNames l !! j = Some k' →
              Layer.prop_of_key k' ≠ Layer.prop_of_key k) →
     result !! Layer.prop_of_key k = Some (Spec.stored_value c))
  ∧ (∀ i k s,
       Layer.paramNames l !! i = Some k → caps !! i = Some (Some s) →
       (∀ j k', (i < j)%nat → (j < length caps)%nat → Layer.paramNames l !! j = Some k' →
                Layer.prop_of_key k' ≠ Layer.prop_of_key k) →
       decodeURIComponent s = None →
       result !! Layer.prop_of_key k = Some (Some s))
  ∧ (∀ key,
       (∀ i k, (i < length caps)%nat → Layer.paramNames l !! i = Some k →
               Layer.prop_of_key k ≠ key) →
       result !! key = default ∅ existing !! key)
  ∧ (∀ routerPath c next,
       Router.run_entry routerPath (Router.Enter l) c next
       = next (Router.enter_layer routerPath l c)
       ∧ Router.ctx_params (Router.enter_layer routerPath l c)
         = Some (Layer.params l routerPath (Layer.captures l routerPath)
                   (Router.ctx_params c))).
Proof.
  intros result. subst result. unfold Layer.params.
  split; [|split; [|split]].
  - intros i k c Hk Hc Hlast. rewrite <- param_value_stored.
    by apply (params_loop_written _ _ _ i).
  - intros i k s Hk Hc Hlast Hfail.
    rewrite (params_loop_written _ _ _ i k (Some s)) by done.
    rewrite param_value_stored. unfold Spec.stored_value.
    rewrite Hfail. by destruct (String.eqb s "") eqn:E; [apply String.eqb_eq in E as ->|].
  - intros key Hfree. by apply params_loop_untouched.
  - intros routerPath c next. done.
Qed.

End Params.

(** ** Layer.param *)

Section ParamOrder.

Lemma indexOf_range {A} `{EqDecision A} (xs : list A) (x : A) :
  indexOf xs x = -1 ∨ 0 <= indexOf xs x.
Proof.
  induction xs as [|y xs IH]; simpl; [by left|].
  destruct (decide (y = x)); [right; lia|].
  destruct (indexOf xs x <? 0) eqn:E; [by left|].
  apply Z.ltb_ge in E. right. lia.
Qed.

Lemma indexOf_elem {A} `{EqDecision A} (xs : list A) (x : A) :
  x ∈ xs ↔ 0 <= indexOf xs x.
Proof.
  induction xs as [|y xs IH]; simpl.
  - split; [by intros ?%elem_of_nil|lia].
  - destruct (decide (y = x)) as [->|Hne].
    + split; [lia|set_solver].
    + destruct (indexOf xs x <? 0) eqn:E.
      * apply Z.ltb_lt in E. split; [|lia].
        intros [?|Hin]%elem_of_cons; [done|]. apply IH in Hin. lia.
      * apply Z.ltb_ge in E. split; [lia|]. intros _. apply elem_of_cons. right.
        by apply IH.
Qed.

Lemma stops_false (names : list KeyName) (x : Z) (m : Middleware) :
  Layer.stops names x m = false
  ↔ Spec.is_validator m = true ∧ Spec.position names m <= x.
Proof.
  unfold Layer.stops, Spec.is_validator, Spec.position.
  rewrite orb_false_iff, negb_false_iff, Z.ltb_ge. done.
Qed.

Lemma stops_true (names : list KeyName) (x : Z) (m : Middleware) :
  Layer.stops names x m = true
  ↔ Spec.is_validator m = false ∨ x < Spec.position names m.
Proof.
  unfold Layer.stops, Spec.is_validator, Spec.position.
  rewrite orb_true_iff, negb_true_iff, Z.ltb_lt. done.
Qed.

Lemma some_splice_at (names : list KeyName) (x : Z) (mw : Middleware)
    (pre : list Middleware) (e : Middleware) (post : list Middleware) :
  (∀ m, m ∈ pre → Layer.stops names x m = false) →
  Layer.stops names x e = true →
  Layer.some_splice names x mw (pre ++ e :: post) = pre ++ mw :: e :: post.
Proof.
  induction pre as [|p pre IH]; intros Hpre He; simpl.
  - by rewrite He.
  - rewrite (Hpre p) by set_solver. f_equal. apply IH; [|done].
    intros m Hm. apply Hpre. set_solver.
Qed.

Lemma some_splice_no_hit (names : list KeyName) (x : Z) (mw : Middleware)
    (st : list Middleware) :
  (∀ m, m ∈ st → Layer.stops names x m = false) →
  Layer.some_splice names x mw st = st.
Proof.
  induction st as [|p st IH]; intros Hst; simpl; [done|].
  rewrite (Hst p) by set_solver. f_equal. apply IH.
  intros m Hm. apply Hst. set_solver.
Qed.

(** Inserting a validator into a sorted run of validators that is followed
    by a handler keeps the run sorted and the handlers behind it. *)
Lemma some_splice_sorted (names : list KeyName) (mw : Middleware)
    (vs : list Middleware) (h : Middleware) (hs : list Middleware) :
  Spec.is_validator h = false →
  Forall (fun m => Spec.is_validator m = true) vs →
  StronglySorted (Spec.in_parameter_order names) vs →
  ∃ vs',
    Layer.some_splice names (Spec.position names mw) mw (vs ++ h :: hs) = vs' ++ h :: hs
    ∧ Permutation vs' (mw :: vs)
    ∧ StronglySorted (Spec.in_parameter_order names) vs'.
Proof.
  intros Hh. induction vs as [|v vs IH]; intros Hval Hsorted; simpl.
  - exists [mw]. split; [|split].
    + assert (Layer.stops names (Spec.position names mw) h = true) as ->; [|done].
      apply stops_true. by left.
    + done.
    + repeat constructor.
  - inversion Hval as [|? ? Hv Hvs]; subst.
    inversion Hsorted as [|? ? Hsvs Hle]; subst.
    destruct (Layer.stops names (Spec.position names mw) v) eqn:Hstop.
    + exists (mw :: v :: vs). split; [done|]. split; [done|].
      apply stops_true in Hstop as [Hstop|Hlt]; [congruence|].
      constructor; [by constructor|].
      constructor; [unfold Spec.in_parameter_order; lia|].
      eapply Forall_impl; [exact Hle|]. unfold Spec.in_parameter_order.
      intros a Ha. simpl in Ha. lia.
    + destruct (IH Hvs Hsvs) as (vs' & Heq & Hperm & Hs').
      exists (v :: vs'). split; [by rewrite Heq|]. split.
      * rewrite Hperm. apply perm_swap.
      * constructor; [done|].
        apply stops_false in Hstop as [_ Hpos].
        eapply Permutation_Forall; [symmetry; exact Hperm|].
        constructor; [exact Hpos|exact Hle].
Qed.

Lemma register_all_sorted (names : list KeyName) (regs : list (string * FnId))
    (l : Layer.t) (vs : list Middleware) (h : Middleware) (hs : list Middleware) :
  Spec.names_of l = names →
  Layer.stack l = vs ++ h :: hs →
  Spec.is_validator h = false →
  Forall (fun m => Spec.is_validator m = true) vs →
  StronglySorted (Spec.in_parameter_order names) vs →
  Forall (fun kv => fst kv ≠ "" ∧ NameStr (fst kv) ∈ names) regs →
  ∃ vs',
    Layer.stack (Spec.register_all regs l) = vs' ++ h :: hs
    ∧ Permutation vs' (map Spec.validator_of regs ++ vs)
    ∧ StronglySorted (Spec.in_parameter_order names) vs'.
Proof.
  intros Hnames. revert l vs Hnames.
  induction regs as [|[n fn] regs IH]; intros l vs Hnames Hstack Hh Hval Hsorted Hregs.
  - exists vs. by split.
  - inversion Hregs as [|? ? [Hne Hin] Hregs']; subst. simpl in Hne, Hin.
    destruct (some_splice_sorted (Spec.names_of l) (ParamMw n fn) vs h hs Hh Hval Hsorted)
      as (vs1 & Heq & Hperm & Hs1).
    assert (0 <= indexOf (Spec.names_of l) (NameStr n)) as Hx by by apply indexOf_elem.
    assert (Layer.stack (Layer.param n fn l) = vs1 ++ h :: hs) as Hstack1.
    { unfold Layer.param. fold (Spec.names_of l).
      assert ((-1 <? indexOf (Spec.names_of l) (NameStr n)) = true) as ->
        by (apply Z.ltb_lt; lia).
      simpl. by rewrite Hstack. }
    assert (Spec.names_of (Layer.param n fn l) = Spec.names_of l) as Hnames1.
    { unfold Layer.param. by destruct (-1 <? _). }
    destruct (IH (Layer.param n fn l) vs1 Hnames1 Hstack1 Hh) as (vs' & Heq' & Hperm' & Hs').
    + eapply Permutation_Forall; [symmetry; exact Hperm|].
      constructor; [|done]. unfold Spec.is_validator, truthy. simpl.
      apply negb_true_iff. by apply String.eqb_neq.
    + done.
    + done.
    + exists vs'. split; [exact Heq'|]. split; [|done].
      rewrite Hperm', Hperm. simpl. unfold Spec.validator_of at 2. simpl.
      by rewrite Permutation_middle.
Qed.

(** C4 (as amended).  For a layer and a name [n] among its parameter
    names, [Layer.param n f] puts the wrapper right before the first stack
    entry that is not a validator or is the validator of a later parameter;
    when the stack has no such entry (a layer registered without handlers)
    the stack stays as it is; a name that is not a parameter of the layer
    changes nothing.  Consequently, on a layer that has a handler,
    validators registered in any order form a run at the front of the
    stack, sorted left to right by parameter position, with the handlers
    behind them. *)
Theorem param_inserts_in_parameter_order (l : Layer.t) :
  let names := Spec.names_of l in
  (∀ n fn pre e post,
     NameStr n ∈ names →
     Layer.stack l = pre ++ e :: post →
     (∀ m, m ∈ pre →
           Spec.is_validator m = true
           ∧ Spec.position names m <= indexOf names (NameStr n)) →
     (Spec.is_validator e = false
      ∨ indexOf names (NameStr n) < Spec.position names e) →
     Layer.stack (Layer.param n fn l) = pre ++ ParamMw n fn :: e :: post)
  ∧ (∀ n fn,
       NameStr n ∈ names →
       (∀ m, m ∈ Layer.stack l →
             Spec.is_validator m = true
             ∧ Spec.position names m <= indexOf names (NameStr n)) →
       Layer.param n fn l = l)
  ∧ (∀ n fn, NameStr n ∉ names → Layer.param n fn l = l)
  ∧ (∀ regs h hs,
       Layer.stack l = h :: hs →
       Spec.is_validator h = false →
       Forall (fun kv => fst kv ≠ "" ∧ NameStr (fst kv) ∈ names) regs →
       ∃ validators,
         Layer.stack (Spec.register_all regs l) = validators ++ h :: hs
         ∧ Permutation validators (map Spec.validator_of regs)
         ∧ StronglySorted (Spec.in_parameter_order names) validators).
Proof.
  intros names. split; [|split; [|split]].
  - intros n fn pre e post Hin Hstack Hpre He.
    unfold Layer.param. fold (Spec.names_of l). fold names.
    apply indexOf_elem in Hin.
    assert ((-1 <? indexOf names (NameStr n)) = true) as -> by (apply Z.ltb_lt; lia).
    simpl. rewrite Hstack. apply some_splice_at.
    + intros m Hm. by apply stops_false, Hpre.
    + by apply stops_true.
  - intros n fn Hin Hall.
    unfold Layer.param. fold (Spec.names_of l). fold names.
    apply indexOf_elem in Hin.
    assert ((-1 <? indexOf names (NameStr n)) = true) as -> by (apply Z.ltb_lt; lia).
    rewrite some_splice_no_hit.
    + by destruct l.
    + intros m Hm. by apply stops_false, Hall.
  - intros n fn Hnot.
    unfold Layer.param. fold (Spec.names_of l). fold names.
    destruct (indexOf_range names (NameStr n)) as [->|Hpos]; [done|].
    by apply indexOf_elem in Hpos.
  - intros regs h hs Hstack Hh Hregs.
    destruct (register_all_sorted names regs l [] h hs) as (vs & Heq & Hperm & Hs);
      try done.
    + constructor.
    + exists vs. split; [done|]. split; [|done]. by rewrite app_nil_r in Hperm.
Qed.

End ParamOrder.

(** ** Router.allowedMethods *)

Section AllowedMethods.

Lemma first_seen_ext (s1 s2 xs : list string) :
  (∀ x, x ∈ s1 ↔ x ∈ s2) → Spec.first_seen s1 xs = Spec.first_seen s2 xs.
Proof.
  revert s1 s2. induction xs as [|x xs IH]; intros s1 s2 Heq; simpl; [done|].
  destruct (decide (x ∈ s1)) as [Hin|Hnin].
  - rewrite (bool_decide_eq_true_2 (x ∈ s1)) by done.
    rewrite (bool_decide_eq_true_2 (x ∈ s2)) by by apply Heq.
    by apply IH.
  - rewrite (bool_decide_eq_false_2 (x ∈ s1)) by done.
    rewrite (bool_decide_eq_false_2 (x ∈ s2)) by by rewrite <- Heq.
    f_equal. apply IH.
    intros y. rewrite !elem_of_cons, Heq. done.
Qed.

Lemma first_seen_app (s xs ys : list string) :
  Spec.first_seen s (xs ++ ys)
  = Spec.first_seen s xs ++ Spec.first_seen (s ++ xs) ys.
Proof.
  revert s. induction xs as [|x xs IH]; intros s; simpl.
  - by rewrite app_nil_r.
  - case_bool_decide as Hin.
    + rewrite IH. f_equal. apply first_seen_ext. set_solver.
    + simpl. rewrite IH. do 2 f_equal. apply first_seen_ext. set_solver.
Qed.

Lemma first_seen_elem (s xs : list string) (x : string) :
  x ∈ s ++ Spec.first_seen s xs ↔ x ∈ s ++ xs.
Proof.
  revert s. induction xs as [|y xs IH]; intros s; simpl; [done|].
  case_bool_decide as Hin.
  - rewrite IH. set_solver.
  - specialize (IH (y :: s)). set_solver.
Qed.

Lemma allow_keys (allowed : list (string * string)) (m : string) :
  map fst (Router.allow allowed m) =
  if bool_decide (m ∈ map fst allowed) then map fst allowed
  else map fst allowed ++ [m].
Proof.
  induction allowed as [|[k v] allowed IH]; simpl; [done|].
  destruct (String.eqb k m) eqn:E.
  - apply String.eqb_eq in E as ->. simpl.
    rewrite bool_decide_eq_true_2; [done|set_solver].
  - apply String.eqb_neq in E. simpl. rewrite IH.
    destruct (decide (m ∈ map fst allowed)) as [Hin|Hnin].
    + rewrite !bool_decide_eq_true_2; [done|set_solver|done].
    + rewrite !bool_decide_eq_false_2; [done| |done].
      intros [?|?]%elem_of_cons; congruence.
Qed.

Lemma allow_all_keys (ms : list string) (allowed : list (string * string)) :
  map fst (fold_left Router.allow ms allowed)
  = map fst allowed ++ Spec.first_seen (map fst allowed) ms.
Proof.
  revert allowed. induction ms as [|m ms IH]; intros allowed; simpl.
  - by rewrite app_nil_r.
  - rewrite IH, allow_keys. case_bool_decide as Hin; [done|].
    rewrite <- app_assoc. simpl. do 2 f_equal. apply first_seen_ext. set_solver.
Qed.

Lemma collect_keys (ls : list Layer.t) (allowed : list (string * string)) :
  map fst (fold_left (fun a l => fold_left Router.allow (Layer.methods l) a) ls allowed)
  = map fst allowed ++ Spec.first_seen (map fst allowed) (Spec.all_methods ls).
Proof.
  revert allowed. induction ls as [|l ls IH]; intros allowed; simpl.
  - by rewrite app_nil_r.
  - rewrite IH, allow_all_keys, first_seen_app, <- app_assoc. do 2 f_equal.
    apply first_seen_ext. intros x. apply first_seen_elem.
Qed.

(** The keys of [allowed], as [Object.keys] lists them, are the methods of
    the matched layers without repetition, in first-seen order. *)
Lemma allowed_keys_first_seen (matched : list Layer.t) :
  map fst (Router.collect_allowed matched)
  = Spec.first_seen [] (Spec.all_methods matched).
Proof. unfold Router.collect_allowed. by rewrite collect_keys. Qed.

Lemma allow_values (allowed : list (string * string)) (m : string) :
  Forall (fun kv => fst kv = snd kv) allowed →
  Forall (fun kv => fst kv = snd kv) (Router.allow allowed m).
Proof.
  induction allowed as [|[k v] allowed IH]; intros Hall; simpl.
  - by repeat constructor.
  - inversion Hall; subst. destruct (String.eqb k m) eqn:E.
    + apply String.eqb_eq in E as ->. by constructor.
    + constructor; [done|]. by apply IH.
Qed.

Lemma collect_values (matched : list Layer.t) :
  Forall (fun kv => fst kv = snd kv) (Router.collect_allowed matched).
Proof.
  unfold Router.collect_allowed.
  assert (∀ ls acc, Forall (fun kv : string * string => fst kv = snd kv) acc →
            Forall (fun kv => fst kv = snd kv)
              (fold_left (fun a l => fold_left Router.allow (Layer.methods l) a) ls acc))
    as Hgen.
  { induction ls as [|l ls IH]; intros acc Hacc; simpl; [done|].
    apply IH. generalize dependent acc.
    induction (Layer.methods l) as [|m ms IHm]; intros acc Hacc; simpl; [done|].
    by apply IHm, allow_values. }
  apply Hgen. constructor.
Qed.

Lemma allowed_get_key (allowed : list (string * string)) (m : string) :
  Forall (fun kv => fst kv = snd kv) allowed →
  Router.allowed_get allowed m = if bool_decide (m ∈ map fst allowed) then Some m else None.
Proof.
  induction allowed as [|[k v] allowed IH]; intros Hall; simpl; [done|].
  inversion Hall as [|? ? Hkv Hrest]; subst. simpl in Hkv. subst v.
  destruct (String.eqb k m) eqn:E.
  - apply String.eqb_eq in E as ->. rewrite bool_decide_eq_true_2; [done|set_solver].
  - apply String.eqb_neq in E. rewrite IH by done.
    destruct (decide (m ∈ map fst allowed)).
    + rewrite !bool_decide_eq_true_2; [done|set_solver|done].
    + rewrite !bool_decide_eq_false_2; [done| |done].
      intros [?|?]%elem_of_cons; congruence.
Qed.

(** C5.  For a router with the default implemented-method list: once the
    continue callback has settled with the status unset or 404, the
    middleware works on the union of the methods of the path-matched
    layers, without repetition and in first-seen order, and
    - a method that is not implemented gets status 501, or with [throw]
      the not-implemented error, thrown with the context left as it was;
    - OPTIONS with a non-empty union gets status 200, an empty body and
      [Allow] listing the union joined by comma and space;
    - another implemented method missing from the non-empty union gets
      status 405 with the same [Allow], or with [throw] the
      method-not-allowed error, thrown with the context left as it was;
    - in every other case the context is returned as it was. *)
Theorem allowed_methods_contract (r : Router.t)
    (options : option Router.AllowedMethodsOptions)
    (c c' : Router.Ctx) (next : Router.Next) (matched : list Layer.t) :
  Router.methods r = Router.default_methods →
  next c = Router.Returned c' →
  Router.ctx_status c' = None ∨ Router.ctx_status c' = Some 404 →
  Router.ctx_matched c' = Some matched →
  let union := Spec.first_seen [] (Spec.all_methods matched) in
  let allow_header := join ", " union in
  let method := Router.ctx_method c' in
  let result := Router.allowedMethods r options c next in
  (method ∉ Router.default_methods →
     if Router.wants_throw options
     then result = Router.Threw
                     (default (HttpError 501 "Not Implemented")
                        (options ≫= Router.notImplemented)) c'
     else result = Router.Returned (Router.set_response 501 None (Some allow_header) c'))
  ∧ (method = "OPTIONS" → union ≠ [] →
       result = Router.Returned
                  (Router.set_response 200 (Some "") (Some allow_header) c'))
  ∧ (method ∈ Router.default_methods → method ≠ "OPTIONS" →
     union ≠ [] → method ∉ union →
       if Router.wants_throw options
       then result = Router.Threw
                       (default (HttpError 405 "Method Not Allowed")
                          (options ≫= Router.methodNotAllowed)) c'
       else result = Router.Returned
                       (Router.set_response 405 None (Some allow_header) c'))
  ∧ (method ∈ Router.default_methods →
     union = [] ∨ (method ≠ "OPTIONS" ∧ method ∈ union) →
       result = Router.Returned c')
  ∧ (∀ st body h,
       Router.ctx_status (Router.set_response st body (Some h) c') = Some st
       ∧ Router.ctx_headers (Router.set_response st body (Some h) c') !! "Allow" = Some h).
Proof.
  intros Hdefault Hnext Hstatus Hmatched union allow_header method result.
  assert (result = Router.after_next r options c') as Hres.
  { subst result. unfold Router.allowedMethods. by rewrite Hnext. }
  assert (Router.already_answered c' = false) as Hans.
  { unfold Router.already_answered. by destruct Hstatus as [-> | ->]. }
  assert (map fst (Router.collect_allowed matched) = union) as Hkeys
    by apply allowed_keys_first_seen.
  assert (∀ m, m ∈ Router.default_methods → m ≠ "") as Hnonempty.
  { intros m Hm ->. unfold Router.default_methods in Hm.
    repeat (apply elem_of_cons in Hm as [Hm|Hm]; [done|]). by apply elem_of_nil in Hm. }
  unfold Router.after_next in Hres.
  rewrite Hans, Hmatched, Hdefault, Hkeys in Hres. fold method in Hres.
  fold allow_header in Hres. unfold includes in Hres.
  split; [|split; [|split; [|split]]].
  - intros Hnot. rewrite bool_decide_eq_false_2 in Hres by done. simpl in Hres.
    by destruct (Router.wants_throw options).
  - intros Hopt Hne. rewrite bool_decide_eq_true_2 in Hres.
    + simpl in Hres. destruct union as [|u us]; [done|]. simpl in Hres.
      rewrite Hopt in Hres. simpl in Hres. exact Hres.
    + rewrite Hopt. unfold Router.default_methods. set_solver.
  - intros Himpl Hnopt Hne Hnin.
    rewrite bool_decide_eq_true_2 in Hres by done. simpl in Hres.
    destruct union as [|u us] eqn:Hu; [done|]. simpl in Hres.
    assert (String.eqb method "OPTIONS" = false) as Hneq by by apply String.eqb_neq.
    rewrite Hneq in Hres.
    rewrite allowed_get_key, Hkeys, bool_decide_eq_false_2 in Hres
      by (done || apply collect_values).
    simpl in Hres. by destruct (Router.wants_throw options).
  - intros Himpl Hcase.
    rewrite bool_decide_eq_true_2 in Hres by done. simpl in Hres.
    destruct Hcase as [Hempty|[Hnopt Hin]].
    + by rewrite Hempty in Hres.
    + destruct union as [|u us] eqn:Hu; [by apply elem_of_nil in Hin|]. simpl in Hres.
      assert (String.eqb method "OPTIONS" = false) as Hneq by by apply String.eqb_neq.
      rewrite Hneq in Hres.
      rewrite allowed_get_key, Hkeys, bool_decide_eq_true_2 in Hres
        by (done || apply collect_values).
      unfold truthy in Hres.
      assert (String.eqb method "" = false) as Hne by by apply String.eqb_neq, Hnonempty.
      by rewrite Hne in Hres.
  - intros st body h. split; [done|]. simpl. apply lookup_insert_eq.
Qed.

End AllowedMethods.

(** ** The compatibility fields [_matchedRoute] and [_matchedRouteName] *)

Section MatchedRoute.

Import MatchedResult.
Context `{UriDecoder} `{Router.Handlers}.

Lemma passes_on_refl (c : Router.Ctx) : Spec.passes_on c c.
Proof. by repeat split. Qed.

Lemma passes_on_trans (c c1 c2 : Router.Ctx) :
  Spec.passes_on c c1 → Spec.passes_on c1 c2 → Spec.passes_on c c2.
Proof.
  intros (Ha & Hb & Hc) (Ha' & Hb' & Hc'). repeat split; [congruence|congruence|].
  intros Hs. by apply Hc', Hc.
Qed.

(** Running the own stack of a layer, when every function passes on. *)
Lemma run_stack_passes_on (p : string) (ms : list Middleware)
    (rest : list Router.ChainEntry) (c : Router.Ctx) (next : Router.Next) :
  Spec.pass_through _ →
  is_Some (Router.ctx_params c) →
  ∃ c1,
    Router.compose (Router.run_entry p) (map Router.Run ms ++ rest) c next
    = Router.compose (Router.run_entry p) rest c1 next
    ∧ Spec.passes_on c c1.
Proof.
  intros [Hh Hp]. revert c. induction ms as [|m ms IH]; intros c Hsome; simpl.
  - exists c. split; [done|apply passes_on_refl].
  - destruct m as [fn prm|prm fn]; simpl.
    + destruct (Hh fn c (fun c' => Router.compose (Router.run_entry p)
                                     (map Router.Run ms ++ rest) c' next))
        as (c1 & -> & Hpass).
      destruct (IH c1) as (c2 & -> & Hpass2); [by apply Hpass|].
      exists c2. split; [done|]. by eapply passes_on_trans.
    + destruct Hsome as [ps Hps]. rewrite Hps.
      destruct (Hp fn (mjoin (ps !! prm)) c
                  (fun c' => Router.compose (Router.run_entry p)
                               (map Router.Run ms ++ rest) c' next))
        as (c1 & -> & Hpass).
      destruct (IH c1) as (c2 & -> & Hpass2).
      { apply Hpass. by rewrite Hps. }
      exists c2. split; [done|]. by eapply passes_on_trans.
Qed.

(** Running the chain of a non-empty list of layers to its end. *)
Lemma run_layers_to_the_end (p : string) (ls : list Layer.t) (final : Layer.t)
    (c : Router.Ctx) (next : Router.Next) :
  Spec.pass_through _ →
  last ls = Some final →
  ∃ c_end,
    Router.compose (Router.run_entry p)
      (flat_map (fun l => Router.Enter l :: map Router.Run (Layer.stack l)) ls) c next
    = next c_end
    ∧ Router._matchedRoute c_end = Some (Layer.path final)
    ∧ Router._matchedRouteName c_end = Spec.shown_name final.
Proof.
  intros Hpass. revert c. induction ls as [|l ls IH]; intros c Hlast; [done|].
  simpl.
  destruct (run_stack_passes_on p (Layer.stack l)
              (flat_map (fun l => Router.Enter l :: map Router.Run (Layer.stack l)) ls)
              (Router.enter_layer p l c) next Hpass)
    as (c1 & -> & Hr & Hn & _); [by eexists|].
  destruct ls as [|l' ls'].
  - simpl in Hlast. inversion Hlast; subst. simpl.
    exists c1. by repeat split.
  - apply IH. by rewrite last_cons_cons in Hlast.
Qed.

(** C6 (as amended).  [dispatch] itself does not touch the two fields.
    Each matched layer contributes one chain entry followed by its own
    stack, and that entry, when it runs, sets [_matchedRoute] to that
    layer's display path and [_matchedRouteName] to that layer's name
    (undefined when the layer has none): the fields are rewritten at every
    hop.  They hold the values of the last layer of the
    matched-by-path-and-method list once the chain has run to its end,
    which it does when every middleware goes on to [next]. *)
Theorem matched_route_rewritten_at_every_hop (r : Router.t) (c : Router.Ctx)
    (next : Router.Next) :
  let p := Router.effective_path r c in
  let matched := Router.match_ r p (Router.ctx_method c) in
  (Router._matchedRoute (Router.dispatch_plan r c).1 = Router._matchedRoute c
   ∧ Router._matchedRouteName (Router.dispatch_plan r c).1 = Router._matchedRouteName c)
  ∧ (∀ chain, (Router.dispatch_plan r c).2 = Some chain →
       chain = flat_map (fun l => Router.Enter l :: map Router.Run (Layer.stack l))
                 (pathAndMethod matched))
  ∧ (∀ layer c0 k,
       Router.run_entry p (Router.Enter layer) c0 k = k (Router.enter_layer p layer c0)
       ∧ Router._matchedRoute (Router.enter_layer p layer c0) = Some (Layer.path layer)
       ∧ Router._matchedRouteName (Router.enter_layer p layer c0) = Spec.shown_name layer)
  ∧ (∀ final,
       Spec.pass_through _ →
       route matched = true →
       last (pathAndMethod matched) = Some final →
       ∃ c_end,
         Router.routes r c next = next c_end
         ∧ Router._matchedRoute c_end = Some (Layer.path final)
         ∧ Router._matchedRouteName c_end = Spec.shown_name final).
Proof.
  intros p matched. split; [|split; [|split]].
  - unfold Router.dispatch_plan. fold p. fold matched.
    by destruct (negb (route matched)).
  - intros chain. unfold Router.dispatch_plan. fold p. fold matched.
    destruct (negb (route matched)); simpl; [done|].
    intros [= <-]. apply layerChain_flat.
  - intros layer c0 k. done.
  - intros final Hpass Hroute Hlast.
    unfold Router.routes, Router.dispatch_plan. fold p. fold matched.
    rewrite Hroute. simpl. rewrite layerChain_flat.
    by apply run_layers_to_the_end.
Qed.

End MatchedRoute.

(** ** URL generation *)

Section Placeholders.

Import Text.

Lemma app_cons (c : ascii) (s t : string) :
  String c s +:+ t = String c (s +:+ t).
Proof. reflexivity. Qed.



Lemma app_assoc_str (s t u : string) : (s +:+ t) +:+ u = s +:+ (t +:+ u).
Proof. induction s as [|c s IH]; [done|]. by rewrite !app_cons, IH. Qed.


Lemma colon_not_word : is_word ":"%char = false.
Proof. reflexivity. Qed.






End Placeholders.

Section UrlGeneration.

Import Text.
Context `{UriJs}.

Lemma route_in_none (st : list Layer.t) (n : string) :
  Router.route_in st n = None ↔ ∀ l, l ∈ st → Layer.name l ≠ Some n.
Proof.
  induction st as [|l st IH]; simpl.
  - split; [by intros _ l ?%elem_of_nil|done].
  - case_bool_decide as Hn.
    + split; [done|]. intros Hall. exfalso. apply (Hall l); [set_solver|done].
    + rewrite IH. split.
      * intros Hall l' [->|Hin]%elem_of_cons; [done|by apply Hall].
      * intros Hall l' Hin. apply Hall. set_solver.
Qed.

Lemma route_in_first (st : list Layer.t) (n : string) (l : Layer.t) :
  Router.route_in st n = Some l →
  ∃ before after,
    st = before ++ l :: after
    ∧ Layer.name l = Some n
    ∧ ∀ l', l' ∈ before → Layer.name l' ≠ Some n.
Proof.
  induction st as [|l0 st IH]; simpl; [done|].
  case_bool_decide as Hn.
  - intros [= <-]. exists [], st. split; [done|]. split; [done|].
    by intros l' ?%elem_of_nil.
  - intros Hfound. destruct (IH Hfound) as (before & after & -> & Hname & Hbefore).
    exists (l0 :: before), after. split; [done|]. split; [done|].
    intros l' [->|Hin]%elem_of_cons; [done|by apply Hbefore].
Qed.

(** C8 (as amended).  On a plain [Router], [url] with a name that no
    registered layer bears returns the [Error] value "No route found for
    name: ..." (it does not throw), and an [Error] is never a string; with
    a registered name it hands back what [Layer.url] produces for the first
    layer of that name in registration order.  [EggRouter] overrides [url]:
    for an unknown name it returns the empty string. *)
Theorem url_of_unknown_name (r : Router.t) (n : string) :
  (Router.route r n = None ↔ ∀ l, l ∈ Router.stack r → Layer.name l ≠ Some n)
  ∧ (Router.route r n = None →
       ∀ ps rest,
         Router.url r n ps rest
         = inr (Router.UrlError (PlainError ("No route found for name: " +:+ n))))
  ∧ (∀ e s, Router.UrlError e ≠ Router.UrlString s)
  ∧ (∀ l, Router.route r n = Some l →
       (∃ before after,
          Router.stack r = before ++ l :: after
          ∧ Layer.name l = Some n
          ∧ ∀ l', l' ∈ before → Layer.name l' ≠ Some n)
       ∧ ∀ ps rest,
           Router.url r n ps rest
           = match Layer.url l ps rest with
             | inl e => inl e
             | inr s => inr (Router.UrlString s)
             end)
  ∧ (Router.route r n = None →
       ∀ ps, EggRouter.url r n ps = inr ""
             ∧ AnyRouter.url (AnyRouter.Egg r) n ps = inr (Router.UrlString "")).
Proof.
  split; [apply route_in_none|]. split; [|split; [|split]].
  - intros Hnone ps rest. unfold Router.url. by rewrite Hnone.
  - done.
  - intros l Hsome. split; [by apply route_in_first|].
    intros ps rest. unfold Router.url. by rewrite Hsome.
  - intros Hnone ps. unfold AnyRouter.url, EggRouter.url. by rewrite Hnone.
Qed.




End UrlGeneration.

(** * The properties at work on concrete routers *)

Section Checks.

Import Fixtures.

Ltac decide_it :=
  match goal with
  | |- ?P => apply (@bool_decide_unpack P _); vm_compute; exact I
  end.

(** The ordering example of the specification: layers that match are
    listed in registration order, whatever their patterns. *)
Example match_keeps_registration_order :
  map Layer.path
    (MatchedResult.path (Router.match_ users_router "/users/1" "GET"))
  = [PString "/users/1"; PString "/users/:id"].
Proof. reflexivity. Qed.

(** A HEAD request to a GET-only route matches as the GET request does. *)
Example head_matches_like_get :
  map Layer.path
    (MatchedResult.pathAndMethod (Router.match_ post_router "/post/7" "HEAD"))
  = map Layer.path
      (MatchedResult.pathAndMethod (Router.match_ post_router "/post/7" "GET"))
  ∧ MatchedResult.route (Router.match_ post_router "/post/7" "HEAD") = true.
Proof. split; reflexivity. Qed.

(** A layer constructed from [gEt]: HEAD comes first. *)
Lemma constructed_get_layer_answers_head_witness :
  Layer.new (PString "/users/:id") ["gEt"; "put"] (fn_args [0%nat]) Layer.OptsUndefined
  = inr (constructed "/users/:id" ["gEt"; "put"] [0%nat] Layer.OptsUndefined)
  ∧ head (Layer.methods (constructed "/users/:id" ["gEt"; "put"] [0%nat] Layer.OptsUndefined))
    = Some "HEAD"
  ∧ "GET" ∈ Layer.methods (constructed "/users/:id" ["gEt"; "put"] [0%nat] Layer.OptsUndefined).
Proof.
  assert (Layer.new (PString "/users/:id") ["gEt"; "put"] (fn_args [0%nat])
            Layer.OptsUndefined
          = inr (constructed "/users/:id" ["gEt"; "put"] [0%nat] Layer.OptsUndefined))
    as Hnew by reflexivity.
  split; [exact Hnew|].
  pose proof (constructed_get_layer_answers_head _ _ _ _ _ Hnew) as (Hget & _).
  apply Hget. exists "gEt". split; [decide_it|reflexivity].
Defined.

(** Validators registered on the router in the order d, c, a, b run in
    the order a, b, c, d, ahead of the handler. *)
Example validators_run_in_parameter_order :
  Router.ctx_state
    (ctx_of (Router.routes
               (with_params [("d", 4%nat); ("c", 3%nat); ("a", 1%nat); ("b", 2%nat)]
                  four_params_router)
               (Router.request "/1/2/3/4" "GET") Router.Returned))
  = ["param 1 1"; "param 2 2"; "param 3 3"; "param 4 4"; "handler 0 at /:a/:b/:c/:d"].
Proof. vm_compute. reflexivity. Qed.

Example validators_declared_first_are_ordered_too :
  map Layer.stack (Router.stack four_params_declared_first)
  = [[ParamMw "a" 1%nat; ParamMw "b" 2%nat; ParamMw "c" 3%nat; ParamMw "d" 4%nat;
      Handler 0%nat None]].
Proof. reflexivity. Qed.

(** A layer without methods that matches the path does not make the
    router run its chain: the handler is not called. *)
Example middleware_only_layer_falls_through :
  map Layer.path
    (MatchedResult.pathAndMethod (Router.match_ middleware_only_router "/users" "GET"))
  = [PString "/users"]
  ∧ Router.ctx_state
      (ctx_of (Router.routes middleware_only_router (Router.request "/users" "GET")
                 Router.Returned))
    = [].
Proof. split; vm_compute; reflexivity. Qed.

(** A named route registered without a handler has an empty stack, and
    [param] adds nothing to it although the name is one of its parameters:
    the validator is not inserted. *)
Lemma param_on_handlerless_route_inserts_nothing :
  Layer.stack (layer_at bare_router 0) = []
  ∧ NameStr "a" ∈ Spec.names_of (layer_at bare_router 0)
  ∧ Layer.stack (Layer.param "a" 7%nat (layer_at bare_router 0)) = []
  ∧ (ParamMw "a" 7%nat ∉ Layer.stack (Layer.param "a" 7%nat (layer_at bare_router 0)))
  ∧ map Layer.stack (Router.stack (Router.param "a" 7%nat bare_router)) = [[]].
Proof.
  split; [reflexivity|]. split; [decide_it|]. split; [reflexivity|].
  split; [|reflexivity]. vm_compute. by intros ?%elem_of_nil.
Qed.

(** OPTIONS and POST on a router with GET and PUT on [/users]. *)
Example options_lists_the_allowed_methods :
  Router.ctx_status (ctx_of (serve get_put_router None (Router.request "/users" "OPTIONS")))
  = Some 200
  ∧ Router.ctx_headers (ctx_of (serve get_put_router None (Router.request "/users" "OPTIONS")))
      !! "Allow" = Some "HEAD, GET, PUT".
Proof. split; vm_compute; reflexivity. Qed.

Example throw_option_raises_method_not_allowed :
  ∃ c, serve get_put_router
         (Some {| Router.throw := Some true; Router.notImplemented := None;
                  Router.methodNotAllowed := None |})
         (Router.request "/users" "POST")
       = Router.Threw (HttpError 405 "Method Not Allowed") c
       ∧ Router.ctx_headers c !! "Allow" = None.
Proof. eexists. split; vm_compute; reflexivity. Qed.

Lemma allowed_methods_contract_witness :
  Router.methods get_put_router = Router.default_methods
  ∧ Router.ctx_status post_users = None
  ∧ Router.ctx_matched post_users = Some (Router.stack get_put_router)
  ∧ Router.allowedMethods get_put_router None post_users Router.Returned
    = Router.Returned (Router.set_response 405 None (Some "HEAD, GET, PUT") post_users).
Proof.
  split; [reflexivity|]. split; [reflexivity|]. split; [reflexivity|].
  pose proof (allowed_methods_contract get_put_router None post_users post_users
                Router.Returned (Router.stack get_put_router)
                eq_refl eq_refl (or_introl eq_refl) eq_refl) as (_ & _ & H405 & _).
  apply H405.
  - decide_it.
  - discriminate.
  - discriminate.
  - decide_it.
Defined.

(** In the former lib/router.js, on the same router, both handlers read
    the path of the last matched layer. *)
Example legacy_routes_marked_the_last_layer_once :
  Router.ctx_state
    (ctx_of (Legacy.routes users_router (Router.request "/users/1" "GET")
               Router.Returned))
  = ["handler 0 at /users/:id"; "handler 2 at /users/:id"].
Proof. vm_compute. reflexivity. Qed.

(** The handlers that only record their call do pass on. *)
Example passing_handlers_pass_through : Spec.pass_through passing_handlers.
Proof.
  split.
  - intros fn c k. eexists. split; [reflexivity|]. by repeat split.
  - intros fn v c k. eexists. split; [reflexivity|]. by repeat split.
Qed.

(** The test "routerName and routerPath work with next": the first handler
    reads [/users/1] in [_matchedRoute] while the last matched layer is
    [/users/:id], which the second handler reads; and when the first handler
    answers without [next], the field is left at [/users/1]. *)
Lemma matched_route_changes_along_the_chain :
  Layer.path <$>
    last (MatchedResult.pathAndMethod (Router.match_ users_router "/users/1" "GET"))
  = Some (PString "/users/:id")
  ∧ Router.ctx_state
      (ctx_of (Router.routes users_router (Router.request "/users/1" "GET")
                 Router.Returned))
    = ["handler 0 at /users/1"; "handler 2 at /users/:id"]
  ∧ Router._matchedRoute
      (ctx_of (Router.routes users_router_short (Router.request "/users/1" "GET")
                 Router.Returned))
    = Some (PString "/users/1").
Proof. repeat split; vm_compute; reflexivity. Qed.

(** URL generation by name, as in the tests of the repository. *)
Example router_url_by_name :
  Router.url books_router "books"
    (JObject [("category", JString "programming"); ("title", JString "how to node")]) []
  = inr (Router.UrlString "/programming/how%20to%20node")
  ∧ Router.url books_router "books" (JString "programming") [JString "how to node"]
    = inr (Router.UrlString "/programming/how%20to%20node")
  ∧ Router.url books_router "not-exists" (JObject []) []
    = inr (Router.UrlError (PlainError "No route found for name: not-exists")).
Proof. repeat split; vm_compute; reflexivity. Qed.

Example egg_router_url_by_name :
  EggRouter.url post_router "post"
    (Some [("id", JNumber 1); ("foo", JArray [JNumber 1; JNumber 2]); ("bar", JString "bar")])
  = inr "/post/1?foo=1&foo=2&bar=bar"
  ∧ EggRouter.url post_router "post"
      (Some [("foo", JArray [JNumber 1; JNumber 2]); ("bar", JString "bar")])
    = inr "/post/:id?foo=1&foo=2&bar=bar".
Proof. split; vm_compute; reflexivity. Qed.


(** On an [EggRouter], [url] with an unknown name returns the empty
    string: no error value, and the very string it generates for the route
    whose path is empty. *)
Lemma egg_router_url_of_unknown_name_is_a_string :
  Router.route (Router.new None) "fooo" = None
  ∧ AnyRouter.url (AnyRouter.Egg (Router.new None)) "fooo" None
    = inr (Router.UrlString "")
  ∧ Router.route root_router "missing" = None
  ∧ AnyRouter.url (AnyRouter.Egg root_router) "missing" None
    = AnyRouter.url (AnyRouter.Egg root_router) "root" None.
Proof. repeat split; vm_compute; reflexivity. Qed.

(** A capture with a malformed escape is stored raw, a well-formed one
    decoded. *)
Example malformed_escape_is_kept_raw :
  Router.ctx_params
    (ctx_of (Router.routes post_router (Router.request "/post/a%2" "GET") Router.Returned))
  = Some {[ "id" := Some "a%2" ]}
  ∧ Router.ctx_params
      (ctx_of (Router.routes post_router (Router.request "/post/a%41" "GET") Router.Returned))
    = Some {[ "id" := Some "aA" ]}.
Proof. split; vm_compute; reflexivity. Qed.

End Checks.

(** * Further properties of the code *)

(** ** The Layer constructor and [setPrefix] *)

Section LayerShape.

Context `{PathToRegExp}.

Lemma fold_push_shape (ms acc : list string) :
  fold_left Layer.push_method ms acc
  = replicate (Shape.gets ms) "HEAD" ++ acc ++ map toUpperCase ms.
Proof.
  revert acc. induction ms as [|m ms IH]; intros acc.
  - simpl. by rewrite app_nil_r.
  - cbn [fold_left map]. rewrite IH, push_method_spec. unfold Shape.gets.
    rewrite filter_cons. case_bool_decide as E.
    + rewrite decide_True by done. cbn [length].
      rewrite replicate_S_end, <- !app_assoc. simpl. by rewrite <- !app_assoc.
    + rewrite decide_False by done. by rewrite <- !app_assoc.
Qed.

(** X1.  The method list the constructor builds is the given names in
    upper case, in the order given and with their repetitions, behind one
    HEAD for each name that reads GET: nothing is removed, and a GET
    given twice puts HEAD twice. *)
Theorem constructor_keeps_every_method_and_adds_a_head_per_get
    (p : PathSpec) (ms : list string) (middlewares : list MwArg)
    (o : Layer.OptsArg) (l : Layer.t) :
  Layer.build_methods ms = replicate (Shape.gets ms) "HEAD" ++ map toUpperCase ms
  ∧ (Layer.new p ms middlewares o = inr l →
       Layer.methods l = replicate (Shape.gets ms) "HEAD" ++ map toUpperCase ms).
Proof.
  assert (Layer.build_methods ms
          = replicate (Shape.gets ms) "HEAD" ++ map toUpperCase ms) as Hb.
  { unfold Layer.build_methods. by rewrite fold_push_shape. }
  split; [done|]. intros Hnew. rewrite <- Hb.
  unfold Layer.new in Hnew.
  destruct (Layer.check_stack _ middlewares); [done|].
  destruct (pathToRegExp p _) as [|[re keys]]; [done|].
  by inversion Hnew.
Qed.

Lemma check_stack_functions (subject : string) (args : list MwArg) :
  Forall (fun a => Shape.plain_function a = true) args →
  Layer.check_stack subject args = inr (Shape.functions args).
Proof.
  induction 1 as [|a args Ha _ IH]; [done|].
  destruct a; try done. simpl. by rewrite IH.
Qed.

Lemma check_stack_offender (subject : string) (before after : list MwArg)
    (bad : MwArg) :
  Forall (fun a => Shape.plain_function a = true) before →
  Shape.plain_function bad = false →
  Layer.check_stack subject (before ++ bad :: after)
  = inl (TypeError (subject +:+ Shape.complaint bad)).
Proof.
  intros Hb Hbad. induction Hb as [|a args Ha _ IH].
  - destruct bad; done.
  - destruct a; try done. simpl. by rewrite IH.
Qed.

(** X2.  The constructor throws a TypeError for the first middleware
    argument that is not a plain function (a generator function counts as
    none), whatever the pattern: the check comes before the pattern is
    compiled.  When every argument is a plain function, the outcome is
    that of the compiler, and the stack holds the arguments in order. *)
Theorem constructor_checks_middleware_before_the_pattern
    (p : PathSpec) (ms : list string) (middlewares : list MwArg)
    (o : Layer.OptsArg) :
  (∀ before bad after,
     middlewares = before ++ bad :: after →
     Forall (fun a => Shape.plain_function a = true) before →
     Shape.plain_function bad = false →
     Layer.new p ms middlewares o
     = inl (TypeError (Layer.error_subject p ms (Layer.init_opts o)
                       +:+ Shape.complaint bad)))
  ∧ (Forall (fun a => Shape.plain_function a = true) middlewares →
     (∀ e, pathToRegExp p (Layer.init_opts o) = inl e →
           Layer.new p ms middlewares o = inl e)
     ∧ (∀ re keys, pathToRegExp p (Layer.init_opts o) = inr (re, keys) →
          ∃ l, Layer.new p ms middlewares o = inr l
               ∧ Layer.stack l = Shape.functions middlewares
               ∧ Layer.path l = p
               ∧ Layer.regexp l = re ∧ Layer.paramNames l = keys
               ∧ Layer.name l = LayerOptions.name (Layer.init_opts o)
               ∧ is_Some (LayerOptions.prefix (Layer.opts l)))).
Proof.
  split.
  - intros before bad after -> Hb Hbad. unfold Layer.new.
    by rewrite check_stack_offender.
  - intros Hall. unfold Layer.new. rewrite check_stack_functions by done.
    split.
    + by intros e ->.
    + intros re keys ->. eexists. split; [done|]. simpl.
      repeat split; done.
Qed.

Lemma setPrefix_fields (pre : string) (l l1 : Layer.t) :
  Layer.setPrefix pre l = inr l1 →
  Layer.path l1 = Shape.prefixed pre (Layer.path l)
  ∧ Layer.stack l1 = Layer.stack l ∧ Layer.name l1 = Layer.name l
  ∧ Layer.opts l1 = Layer.opts l ∧ Layer.methods l1 = Layer.methods l.
Proof.
  unfold Layer.setPrefix, Shape.prefixed.
  destruct (path_truthy (Layer.path l)); [|by intros [= <-]].
  destruct (pathToRegExp _ _) as [|[re keys]]; [done|].
  by intros [= <-].
Qed.

Lemma append_empty_iff (a b : string) : a +:+ b = "" ↔ a = "" ∧ b = "".
Proof.
  destruct a; [|split; [done|by intros [? _]]].
  change ("" +:+ b) with b. split; [done|by intros [_ ?]].
Qed.

Lemma eqb_empty_append (a b : string) :
  String.eqb b "" = false → String.eqb (a +:+ b) "" = false.
Proof.
  rewrite !String.eqb_neq. intros Hb Hab. by apply append_empty_iff in Hab as [_ ?].
Qed.

Lemma prefixed_twice (p1 p2 s : string) :
  Shape.prefixed p2 (Shape.prefixed p1 (PString s))
  = Shape.prefixed (p2 +:+ p1) (PString s).
Proof.
  unfold Shape.prefixed. simpl.
  destruct (String.eqb s "") eqn:E; simpl.
  - by rewrite E.
  - rewrite eqb_empty_append by done. simpl. by rewrite app_assoc_str.
Qed.


End LayerShape.

(** ** Router.register, Router.param and the verb methods *)

Section Registration.

Context `{PathToRegExp}.

Import MatchedResult.

Lemma register_all_fields (regs : list (string * FnId)) (l : Layer.t) :
  Layer.name (Spec.register_all regs l) = Layer.name l
  ∧ Layer.path (Spec.register_all regs l) = Layer.path l
  ∧ Layer.methods (Spec.register_all regs l) = Layer.methods l
  ∧ Layer.opts (Spec.register_all regs l) = Layer.opts l
  ∧ Layer.regexp (Spec.register_all regs l) = Layer.regexp l
  ∧ Layer.paramNames (Spec.register_all regs l) = Layer.paramNames l.
Proof.
  revert l. induction regs as [|[k fn] regs IH]; intros l; [done|].
  unfold Spec.register_all in *. simpl.
  destruct (IH (Layer.param k fn l)) as (-> & -> & -> & -> & -> & ->).
  unfold Layer.param. by destruct (-1 <? _).
Qed.

(** The layer that [register] builds for a router with these options and
    parameter handlers. *)
Lemma register_inv (p : PathSpec) (ms : list string) (mws : list MwArg)
    (o : Router.RegisterOptions) (r r' : Router.t) (l : Layer.t) :
  Router.register p ms mws o r = inr (r', l) →
  ∃ l1,
    l = Spec.register_all (Router.params r) l1
    ∧ r' = Router.set_stack (Router.stack r ++ [l]) r
    ∧ Layer.stack l1 = Shape.functions mws
    ∧ Layer.name l1 = Router.reg_name o
    ∧ Layer.methods l1 = Layer.build_methods ms
    ∧ Layer.path l1 =
        (if truthy (RouterOptions.prefix (Router.opts r))
         then Shape.prefixed (default "" (RouterOptions.prefix (Router.opts r))) p
         else p)
    ∧ LayerOptions.ignoreCaptures (Layer.opts l1) = Router.reg_ignoreCaptures o
    ∧ Forall (fun a => Shape.plain_function a = true) mws.
Proof.
  unfold Router.register. intros Hreg.
  destruct (Layer.new p ms mws _) as [|l0] eqn:Hnew; [done|].
  assert (Layer.stack l0 = Shape.functions mws ∧ Layer.name l0 = Router.reg_name o
          ∧ Layer.methods l0 = Layer.build_methods ms ∧ Layer.path l0 = p
          ∧ LayerOptions.ignoreCaptures (Layer.opts l0) = Router.reg_ignoreCaptures o
          ∧ Forall (fun a => Shape.plain_function a = true) mws) as (Hst & Hn & Hm & Hp & Hi & Hf).
  { unfold Layer.new in Hnew.
    destruct (Layer.check_stack _ mws) as [|fns] eqn:Hc; [done|].
    destruct (pathToRegExp p _) as [|[re keys]]; [done|].
    inversion Hnew; subst l0; simpl.
    assert (Forall (fun a => Shape.plain_function a = true) mws
            ∧ fns = Shape.functions mws) as [? ->]; [|done].
    clear -Hc. revert fns Hc. induction mws as [|a mws IH]; intros fns Hc.
    - by inversion Hc.
    - destruct a; try done. simpl in Hc.
      destruct (Layer.check_stack _ mws) as [|fns'] eqn:Hc'; [done|].
      inversion Hc; subst fns. destruct (IH _ eq_refl) as [? ->].
      split; [by constructor|done]. }
  destruct (truthy (RouterOptions.prefix (Router.opts r))) eqn:Ht.
  - destruct (Layer.setPrefix _ l0) as [|l1] eqn:Hs; [done|].
    inversion Hreg; subst. exists l1.
    apply setPrefix_fields in Hs as (Hp1 & Hst1 & Hn1 & Ho1 & Hm1).
    rewrite Hp1, Hst1, Hn1, Ho1, Hm1. done.
  - inversion Hreg; subst. by exists l0.
Qed.

Lemma route_in_app (st1 st2 : list Layer.t) (n : string) :
  Router.route_in (st1 ++ st2) n
  = match Router.route_in st1 n with
    | Some l => Some l
    | None => Router.route_in st2 n
    end.
Proof.
  induction st1 as [|l st1 IH]; [done|]. simpl.
  by destruct (bool_decide (Layer.name l = Some n)).
Qed.

(** X4.  [register] pushes exactly one layer at the end of the stack and
    leaves the earlier layers, the options and the parameter handlers as
    they are; the layer carries the given name, the built method list and
    the pattern behind the router's prefix.  Route names are first come,
    first served: a name that an earlier layer has keeps resolving to
    that layer, and only a name not yet taken resolves to the new one. *)
Theorem register_appends_and_names_are_first_come
    (p : PathSpec) (ms : list string) (middlewares : list MwArg)
    (o : Router.RegisterOptions) (r r' : Router.t) (l : Layer.t) :
  Router.register p ms middlewares o r = inr (r', l) →
  Router.stack r' = Router.stack r ++ [l]
  ∧ Router.opts r' = Router.opts r
  ∧ Router.params r' = Router.params r
  ∧ Router.methods r' = Router.methods r
  ∧ Layer.name l = Router.reg_name o
  ∧ Layer.methods l = Layer.build_methods ms
  ∧ Layer.path l =
      (if truthy (RouterOptions.prefix (Router.opts r))
       then Shape.prefixed (default "" (RouterOptions.prefix (Router.opts r))) p
       else p)
  ∧ (∀ n earlier, Router.route r n = Some earlier → Router.route r' n = Some earlier)
  ∧ (∀ n, Router.route r n = None →
          Router.route r' n = if bool_decide (Router.reg_name o = Some n)
                              then Some l else None).
Proof.
  intros Hreg.
  destruct (register_inv _ _ _ _ _ _ _ Hreg)
    as (l1 & Hl & -> & _ & Hn & Hm & Hp & _).
  destruct (register_all_fields (Router.params r) l1) as (Hn' & Hp' & Hm' & _).
  rewrite <- Hl in Hn', Hp', Hm'.
  simpl. repeat split; try congruence.
  - intros n earlier Hr. unfold Router.route in *. simpl.
    by rewrite route_in_app, Hr.
  - intros n Hr. unfold Router.route in *. simpl.
    rewrite route_in_app, Hr. simpl. by rewrite Hn', Hn.
Qed.

Lemma filter_snoc {A} (f : A → bool) (xs : list A) (x : A) :
  List.filter f (xs ++ [x]) = List.filter f xs ++ (if f x then [x] else []).
Proof.
  induction xs as [|y xs IH]; simpl.
  - by destruct (f x).
  - rewrite IH. by destruct (f y).
Qed.

(** X5.  Registering a route does not disturb matching: for every
    request, the layers matched before are matched still, in the same
    order, and the new layer comes after them if its pattern accepts the
    path. *)
Theorem register_keeps_earlier_matches
    (p : PathSpec) (ms : list string) (middlewares : list MwArg)
    (o : Router.RegisterOptions) (r r' : Router.t) (l : Layer.t)
    (pth method : string) :
  Router.register p ms middlewares o r = inr (r', l) →
  path (Router.match_ r' pth method)
  = path (Router.match_ r pth method) ++ (if Layer.match_ l pth then [l] else [])
  ∧ pathAndMethod (Router.match_ r' pth method)
    = pathAndMethod (Router.match_ r pth method)
      ++ (if Layer.match_ l pth && Spec.answers method l then [l] else [])
  ∧ route (Router.match_ r' pth method)
    = route (Router.match_ r pth method)
      || (Layer.match_ l pth && Spec.handles method l).
Proof.
  intros Hreg.
  destruct (register_inv _ _ _ _ _ _ _ Hreg) as (l1 & _ & -> & _).
  destruct (match_fields (Router.set_stack (Router.stack r ++ [l]) r) pth method)
    as (-> & -> & ->).
  destruct (match_fields r pth method) as (-> & -> & ->).
  unfold Spec.matched_by_path. simpl. rewrite filter_snoc.
  destruct (Layer.match_ l pth); simpl.
  - rewrite filter_snoc, existsb_app. simpl. by rewrite orb_false_r.
  - by rewrite !app_nil_r, orb_false_r.
Qed.

Lemma set_param_fresh (ps : list (string * FnId)) (k : string) (fn : FnId) :
  k ∉ map fst ps → Router.set_param ps k fn = ps ++ [(k, fn)].
Proof.
  induction ps as [|[k' v] ps IH]; intros Hk; [done|]. simpl in *.
  apply not_elem_of_cons in Hk as [Hne Hk].
  rewrite (proj2 (String.eqb_neq k' k)) by congruence.
  by rewrite IH.
Qed.

Lemma fold_set_param_fresh (regs acc : list (string * FnId)) :
  NoDup (map fst (acc ++ regs)) →
  fold_left (fun ps kv => Router.set_param ps (fst kv) (snd kv)) regs acc
  = acc ++ regs.
Proof.
  revert acc. induction regs as [|[k fn] regs IH]; intros acc Hnd.
  - by rewrite app_nil_r.
  - simpl. rewrite set_param_fresh.
    + rewrite IH; [by rewrite <- app_assoc|]. by rewrite <- app_assoc.
    + rewrite map_app in Hnd. apply NoDup_app in Hnd as (_ & Hd & _).
      intros Hin. apply (Hd k Hin). simpl. by left.
Qed.

Lemma with_params_fields (regs : list (string * FnId)) (r : Router.t) :
  Fixtures.with_params regs r
  = {| Router.opts := Router.opts r; Router.methods := Router.methods r;
       Router.stack := map (Spec.register_all regs) (Router.stack r);
       Router.params :=
         fold_left (fun ps kv => Router.set_param ps (fst kv) (snd kv)) regs
           (Router.params r) |}.
Proof.
  revert r. induction regs as [|[k fn] regs IH]; intros r.
  - simpl. unfold Spec.register_all. simpl. rewrite map_id. by destruct r.
  - unfold Fixtures.with_params in *. simpl. rewrite IH. simpl.
    by rewrite map_map.
Qed.

(** X6.  Parameter handlers reach a route whether they are declared
    before or after it: when each parameter is declared once, on a router
    that had none, registering a route after the declarations gives the
    very router that the declarations give when made after registering
    it. *)
Theorem param_handlers_before_or_after_registration
    (p : PathSpec) (ms : list string) (middlewares : list MwArg)
    (o : Router.RegisterOptions) (regs : list (string * FnId))
    (r after : Router.t) (l : Layer.t) :
  NoDup (map fst regs) →
  Router.params r = [] →
  Router.register p ms middlewares o (Fixtures.with_params regs r) = inr (after, l) →
  ∃ before l0,
    Router.register p ms middlewares o r = inr (before, l0)
    ∧ Fixtures.with_params regs before = after
    ∧ l = Spec.register_all regs l0.
Proof.
  intros Hnd Hps Hreg.
  rewrite with_params_fields in Hreg.
  rewrite Hps, fold_set_param_fresh in Hreg by done. simpl in Hreg.
  unfold Router.register in *. simpl in *. rewrite Hps.
  destruct (Layer.new p ms middlewares _) as [|l0]; [done|].
  destruct (if truthy _ then _ else _) as [|l1]; [done|].
  inversion Hreg; subst. eexists _, _. split; [done|].
  rewrite with_params_fields. simpl. rewrite Hps.
  rewrite fold_set_param_fresh by done. simpl.
  unfold Router.set_stack. simpl. rewrite map_app. simpl. done.
Qed.

Lemma param_stack_empty (p : string) (fn : FnId) (l : Layer.t) :
  Layer.stack (Layer.param p fn l) = [] ↔ Layer.stack l = [].
Proof.
  unfold Layer.param. destruct (-1 <? _); [|done]. simpl.
  destruct (Layer.stack l) as [|f st]; [done|]. simpl.
  by destruct (Layer.stops _ _ f).
Qed.

Lemma register_all_stack_empty (regs : list (string * FnId)) (l : Layer.t) :
  Layer.stack (Spec.register_all regs l) = [] ↔ Layer.stack l = [].
Proof.
  revert l. induction regs as [|[k fn] regs IH]; intros l; [done|].
  unfold Spec.register_all in *. simpl. rewrite IH. apply param_stack_empty.
Qed.

(** X7.  The two call shapes of a verb method differ when no handler is
    given: [verb(path)] passes [undefined] as the middleware and throws a
    TypeError, whereas [verb(name, path)] registers a named layer whose
    stack is empty and stays empty whatever parameter handlers the router
    has.  A RegExp in the place of the name fails the assertion.  With the
    first shape the layer is unnamed and its stack is never empty. *)
Theorem verb_call_shapes (method : list string) (r : Router.t) :
  (∀ path, ∃ msg,
     Verb.verb method path (Verb.IsMiddleware (ArgOther "undefined")) [] r
     = inl (TypeError msg))
  ∧ (∀ printed path middlewares,
       Verb.verb method (PRegExp printed) (Verb.IsPath path) middlewares r
       = inl (AssertionError "route name should be string"))
  ∧ (∀ name path middlewares r',
       Verb.verb method (PString name) (Verb.IsPath path) middlewares r = inr r' →
       ∃ l l1,
         Router.stack r' = Router.stack r ++ [l]
         ∧ Layer.name l = Some name
         ∧ l = Spec.register_all (Router.params r) l1
         ∧ Layer.stack l1 = Shape.functions middlewares
         ∧ (middlewares = [] → Layer.stack l = []))
  ∧ (∀ path m middlewares r',
       Verb.verb method path (Verb.IsMiddleware m) middlewares r = inr r' →
       ∃ l l1,
         Router.stack r' = Router.stack r ++ [l]
         ∧ Layer.name l = None
         ∧ l = Spec.register_all (Router.params r) l1
         ∧ Layer.stack l1 = Shape.functions (m :: middlewares)
         ∧ Layer.stack l ≠ []).
Proof.
  split; [|split; [|split]].
  - intros path. unfold Verb.verb, Router.register, Layer.new. simpl. by eexists.
  - done.
  - intros name path middlewares r' Hv. unfold Verb.verb in Hv.
    destruct (Router.register _ _ _ _ r) as [|[r1 l]] eqn:Hreg; [done|].
    inversion Hv; subst r1.
    destruct (register_inv _ _ _ _ _ _ _ Hreg) as (l1 & Hl & -> & Hst & Hn & _).
    destruct (register_all_fields (Router.params r) l1) as (Hn' & _).
    rewrite <- Hl in Hn'.
    exists l, l1. split; [done|]. split; [by rewrite Hn', Hn|].
    split; [done|]. split; [done|].
    intros ->. rewrite Hl. by apply register_all_stack_empty.
  - intros path m middlewares r' Hv. unfold Verb.verb in Hv.
    destruct (Router.register _ _ _ _ r) as [|[r1 l]] eqn:Hreg; [done|].
    inversion Hv; subst r1.
    destruct (register_inv _ _ _ _ _ _ _ Hreg)
      as (l1 & Hl & -> & Hst & Hn & _ & _ & _ & Hf).
    destruct (register_all_fields (Router.params r) l1) as (Hn' & _).
    rewrite <- Hl in Hn'.
    exists l, l1. split; [done|]. split; [by rewrite Hn', Hn|].
    split; [done|]. split; [done|].
    rewrite Hl, register_all_stack_empty, Hst.
    apply Forall_cons in Hf as [Hm _]. by destruct m.
Qed.

Section Redirect.

Context `{UriJs} `{HttpMethods}.

Lemma resolve_unknown_name (r : Router.t) (target : string) :
  Text.starts_with (Ascii.eqb "/"%char) target = false →
  Router.route r target = None →
  Verb.resolve r target = inl (PlainError ("No route found for name: " +:+ target)).
Proof.
  intros Hs Hr. unfold Verb.resolve, Router.url. by rewrite Hs, Hr.
Qed.

Lemma resolve_path (r : Router.t) (target : string) :
  Text.starts_with (Ascii.eqb "/"%char) target = true →
  Verb.resolve r target = inr target.
Proof. intros Hs. unfold Verb.resolve. by rewrite Hs. Qed.

(** X8.  [redirect] takes a source or destination that does not start
    with a slash as a route name and throws the error "No route found for
    name" when the router has no such route, the source being looked up
    first; nothing is registered then.  With two paths it registers one
    unnamed layer for the source, answering every method of the [methods]
    list, whose only middleware is the redirecting handler; the
    destination is kept as given, without the router's prefix. *)
Theorem redirect_resolves_names_and_registers_for_all_methods
    (source target : string) (status : Z) (closure : FnId) (r : Router.t) :
  (Text.starts_with (Ascii.eqb "/"%char) source = false →
   Router.route r source = None →
   Verb.redirect source target status closure r
   = inl (PlainError ("No route found for name: " +:+ source)))
  ∧ (Text.starts_with (Ascii.eqb "/"%char) source = true →
     Text.starts_with (Ascii.eqb "/"%char) target = false →
     Router.route r target = None →
     Verb.redirect source target status closure r
     = inl (PlainError ("No route found for name: " +:+ target)))
  ∧ (Text.starts_with (Ascii.eqb "/"%char) source = true →
     Text.starts_with (Ascii.eqb "/"%char) target = true →
     ∀ r' red,
       Verb.redirect source target status closure r = inr (r', red) →
       Verb.destination red = target ∧ Verb.status red = status
       ∧ ∃ l l1,
           Router.stack r' = Router.stack r ++ [l]
           ∧ l = Spec.register_all (Router.params r) l1
           ∧ Layer.stack l1 = [Handler closure None]
           ∧ Layer.name l = None
           ∧ Layer.methods l = Layer.build_methods http_methods
           ∧ Layer.path l =
               (if truthy (RouterOptions.prefix (Router.opts r))
                then Shape.prefixed (default "" (RouterOptions.prefix (Router.opts r)))
                       (PString source)
                else PString source)).
Proof.
  split; [|split].
  - intros Hs Hr. unfold Verb.redirect. by rewrite resolve_unknown_name.
  - intros Hs Ht Hr. unfold Verb.redirect.
    by rewrite resolve_path, resolve_unknown_name.
  - intros Hs Ht r' red. unfold Verb.redirect.
    rewrite !resolve_path by done. unfold Verb.all, Verb.verb.
    destruct (Router.register _ _ _ _ r) as [|[r1 l]] eqn:Hreg; [done|].
    intros [= <- <-]. simpl. split; [done|]. split; [done|].
    destruct (register_inv _ _ _ _ _ _ _ Hreg)
      as (l1 & Hl & -> & Hst & Hn & Hm & Hp & _).
    destruct (register_all_fields (Router.params r) l1) as (Hn' & Hp' & Hm' & _).
    rewrite <- Hl in Hn', Hp', Hm'.
    exists l, l1. split; [done|]. split; [done|]. split; [done|].
    split; [by rewrite Hn', Hn|]. split; [by rewrite Hm', Hm|].
    by rewrite Hp', Hp.
Qed.

End Redirect.

End Registration.

(** ** EggRouter.url: the path and the query string *)

Section EggUrl.

Import Text.


















End EggUrl.

(** ** Dispatch: where a chain ends, and what a later router sees *)

Section DispatchMore.

Context `{UriDecoder} `{Router.Handlers}.

(** X11.  Entering a matched layer stores the layer's pattern in
    [ctx.routerPath].  A router that dispatches later on the same context,
    and has no [routerPath] option of its own, therefore matches its
    layers against the text of that pattern, not against the request
    path: its path matches are the layers accepting the pattern text. *)
Theorem later_router_matches_against_the_matched_pattern
    (p : string) (l : Layer.t) (c : Router.Ctx) (r2 : Router.t) :
  truthy (RouterOptions.routerPath (Router.opts r2)) = false →
  path_truthy (Layer.path l) = true →
  let c1 := Router.enter_layer p l c in
  Router.effective_path r2 c1 = path_to_string (Layer.path l)
  ∧ Router.ctx_matched (Router.dispatch_plan r2 c1).1
    = Some (default [] (Router.ctx_matched c)
            ++ Spec.matched_by_path (Router.stack r2) (path_to_string (Layer.path l)))
  ∧ ((Router.dispatch_plan r2 c1).2 = None
     ↔ ∀ l2, l2 ∈ Router.stack r2 →
             Layer.match_ l2 (path_to_string (Layer.path l)) = true →
             ¬ (Layer.methods l2 ≠ [] ∧ Router.ctx_method c ∈ Layer.methods l2)).
Proof.
  intros Hopt Hpath c1.
  assert (Router.effective_path r2 c1 = path_to_string (Layer.path l)) as Heff.
  { unfold Router.effective_path, c1. rewrite Hopt. simpl. by rewrite Hpath. }
  split; [done|]. unfold Router.dispatch_plan. rewrite Heff.
  change (Router.ctx_method c1) with (Router.ctx_method c).
  pose proof (match_fields r2 (path_to_string (Layer.path l)) (Router.ctx_method c))
    as (Hp & _ & _).
  pose proof (no_route_iff r2 (path_to_string (Layer.path l)) (Router.ctx_method c))
    as Hno.
  set (M := Router.match_ r2 (path_to_string (Layer.path l)) (Router.ctx_method c)) in *.
  split.
  - destruct (negb _); simpl; rewrite Hp; by destruct (Router.ctx_matched c).
  - rewrite <- Hno. destruct (MatchedResult.route M); simpl; split; done.
Qed.

End DispatchMore.

(** ** Router.allowedMethods: the cases around the contract *)

Section AllowedMethodsEdges.

(** X12.  [allowedMethods] around its main cases: a rejection of [next]
    is passed on as it is; a response whose status is set to anything but
    404 is left untouched, whatever the method; when [ctx.matched] is
    undefined (no dispatch ran before) and the status is unset or 404, it
    throws a TypeError; the implemented methods are those of the router's
    [methods] option, so that with a list of one's own a method outside it
    gets 501 (or the not-implemented error) even when a matched layer has
    that method; and in every case it either leaves the context as [next]
    left it or sets the status to 200, 405 or 501 together with the [Allow]
    header (and an empty body for 200), touching nothing else. *)
Theorem allowed_methods_edge_cases (r : Router.t)
    (options : option Router.AllowedMethodsOptions)
    (c : Router.Ctx) (next : Router.Next) :
  (∀ e c', next c = Router.Threw e c' →
           Router.allowedMethods r options c next = Router.Threw e c')
  ∧ (∀ c' st, next c = Router.Returned c' →
        Router.ctx_status c' = Some st → st ≠ 0 → st ≠ 404 →
        Router.allowedMethods r options c next = Router.Returned c')
  ∧ (∀ c', next c = Router.Returned c' →
        Router.ctx_status c' = None ∨ Router.ctx_status c' = Some 404 →
        Router.ctx_matched c' = None →
        ∃ msg, Router.allowedMethods r options c next
               = Router.Threw (TypeError msg) c')
  ∧ (∀ c' matched, next c = Router.Returned c' →
        Router.ctx_status c' = None ∨ Router.ctx_status c' = Some 404 →
        Router.ctx_matched c' = Some matched →
        Router.ctx_method c' ∉ Router.methods r →
        Router.allowedMethods r options c next
        = if Router.wants_throw options
          then Router.Threw (default (HttpError 501 "Not Implemented")
                               (options ≫= Router.notImplemented)) c'
          else Router.Returned
                 (Router.set_response 501 None
                    (Some (join ", " (map fst (Router.collect_allowed matched)))) c'))
  ∧ (∀ c', next c = Router.Returned c' →
        (∀ e c2, Router.allowedMethods r options c next = Router.Threw e c2 → c2 = c')
        ∧ (∀ c2, Router.allowedMethods r options c next = Router.Returned c2 →
             c2 = c'
             ∨ ∃ st body allow,
                 c2 = Router.set_response st body (Some allow) c'
                 ∧ ((st = 200 ∧ body = Some "") ∨ (st = 405 ∧ body = None)
                    ∨ (st = 501 ∧ body = None)))).
Proof.
  unfold Router.allowedMethods. split; [|split; [|split; [|split]]].
  - by intros e c' ->.
  - intros c' st -> Hst H0 H404. unfold Router.after_next, Router.already_answered.
    rewrite Hst.
    rewrite (proj2 (Z.eqb_neq st 0)), (proj2 (Z.eqb_neq st 404)) by done. done.
  - intros c' -> Hst Hm. unfold Router.after_next, Router.already_answered.
    rewrite Hm. destruct Hst as [-> | ->]; simpl; by eexists.
  - intros c' matched -> Hst Hm Hnot. unfold Router.after_next, Router.already_answered.
    rewrite Hm. unfold includes. rewrite bool_decide_eq_false_2 by done.
    destruct Hst as [-> | ->]; simpl; by destruct (Router.wants_throw options).
  - intros c' ->. unfold Router.after_next.
    destruct (Router.already_answered c').
    { split; [done|]. intros c2 [= <-]. by left. }
    destruct (Router.ctx_matched c') as [matched|].
    2:{ split; [by intros e c2 [= _ <-]|done]. }
    destruct (negb (includes _ _)).
    { destruct (Router.wants_throw options).
      - split; [by intros e c2 [= _ <-]|done].
      - split; [done|]. intros c2 [= <-]. right. eexists _, _, _.
        split; [done|]. right. by right. }
    destruct (0 <? length _)%nat.
    2:{ split; [done|]. intros c2 [= <-]. by left. }
    destruct (String.eqb _ "OPTIONS").
    { split; [done|]. intros c2 [= <-]. right. eexists _, _, _.
      split; [done|]. by left. }
    destruct (negb (truthy _)).
    2:{ split; [done|]. intros c2 [= <-]. by left. }
    destruct (Router.wants_throw options).
    + split; [by intros e c2 [= _ <-]|done].
    + split; [done|]. intros c2 [= <-]. right. eexists _, _, _.
      split; [done|]. right. by left.
Qed.

End AllowedMethodsEdges.

(** ** Routers and layers as objects: what [param], [register], [prefix]
    and [use] change *)

Section Objects.

Context `{PathToRegExp}.

Import Store.

Lemma for_each_invariant {A} (body : A → Store.t → Outcome unit)
    (I : list A → Store.t → Prop) (xs : list A) (h h' : Store.t) :
  I [] h →
  (∀ before x rest h1 h2,
     xs = before ++ x :: rest → I before h1 → body x h1 = Done tt h2 →
     I (before ++ [x]) h2) →
  for_each body xs h = Done tt h' →
  I xs h'.
Proof.
  intros H0 Hstep.
  assert (∀ rest before h1,
            xs = before ++ rest → I before h1 →
            for_each body rest h1 = Done tt h' → I xs h') as Hgen.
  { induction rest as [|x rest IH]; intros before h1 Hxs HI Hrun.
    - simpl in Hrun. inversion Hrun; subst. by rewrite app_nil_r.
    - simpl in Hrun. destruct (body x h1) as [[] h2| |] eqn:Hb; try done.
      apply (IH (before ++ [x]) h2); [by rewrite <- app_assoc| |done].
      by apply (Hstep before x rest h1 h2). }
  by apply (Hgen xs [] h).
Qed.

Lemma setPrefix_done (pre : string) (a : Addr) (h h' : Store.t) :
  Store.setPrefix pre a h = Done tt h' →
  ∃ l l', layers h !! a = Some l ∧ Layer.setPrefix pre l = inr l'
          ∧ h' = with_layers (<[a := l']> (layers h)) h.
Proof.
  unfold Store.setPrefix. destruct (layers h !! a) as [l|]; [|done].
  destruct (Layer.setPrefix pre l) as [|l'] eqn:Hs; [done|].
  intros [= <-]. by exists l, l'.
Qed.

Lemma layer_param_done (p : string) (fn : FnId) (a : Addr) (h h' : Store.t) :
  layer_param p fn a h = Done tt h' →
  ∃ l, layers h !! a = Some l
       ∧ h' = with_layers (<[a := Layer.param p fn l]> (layers h)) h.
Proof.
  unfold layer_param. destruct (layers h !! a) as [l|]; [|done].
  intros [= <-]. by exists l.
Qed.

(** [router.param] on a router whose stack holds each layer once. *)
Lemma param_done (rid : RouterId) (p : string) (fn : FnId) (h h' : Store.t)
    (r : RouterObj) :
  routers h !! rid = Some r →
  NoDup (stack r) →
  Store.param rid p fn h = Done tt h' →
  routers h' = <[rid := set_params (Router.set_param (params r) p fn) r]> (routers h)
  ∧ length (layers h') = length (layers h)
  ∧ (∀ a, a ∉ stack r → layers h' !! a = layers h !! a)
  ∧ (∀ a, a ∈ stack r → layers h' !! a = Layer.param p fn <$> layers h !! a).
Proof.
  intros Hr Hnd. unfold Store.param. rewrite Hr.
  set (h0 := with_routers _ h).
  intros Hrun.
  apply (for_each_invariant _
           (fun before h1 =>
              routers h1 = routers h0
              ∧ length (layers h1) = length (layers h)
              ∧ (∀ a, a ∉ before → layers h1 !! a = layers h !! a)
              ∧ (∀ a, a ∈ before → layers h1 !! a = Layer.param p fn <$> layers h !! a)))
    in Hrun.
  - destruct Hrun as (Hrs & Hlen & Hout & Hin). done.
  - repeat split; try done. by intros a ?%elem_of_nil.
  - intros before x rest h1 h2 Hst (Hrs & Hlen & Hout & Hin) Hb.
    apply layer_param_done in Hb as (l & Hl & ->). simpl.
    assert (x ∉ before) as Hx.
    { rewrite Hst in Hnd. apply NoDup_app in Hnd as (_ & Hd & _).
      intros Hxb. apply (Hd x Hxb). by left. }
    rewrite length_insert. repeat split; try done.
    + intros a Ha. apply not_elem_of_app in Ha as [Ha Hax].
      rewrite list_lookup_insert_ne by set_solver. by apply Hout.
    + intros a [Ha| ->%list_elem_of_singleton]%elem_of_app.
      * rewrite list_lookup_insert_ne by (intros ->; done). by apply Hin.
      * rewrite list_lookup_insert_eq by by eapply lookup_lt_Some.
        rewrite <- (Hout x Hx), Hl. done.
Qed.






Lemma register_creates_layer (rid : RouterId) (p : PathSpec) (ms : list string)
    (mws : list MwArg) (o : Router.RegisterOptions) (h : Store.t) (r : RouterObj)
    (a : Addr) (h' : Store.t) :
  routers h !! rid = Some r →
  well_formed h →
  Store.register rid p ms mws o h = Done a h' →
  ∃ l, layers h' = layers h ++ [l]
       ∧ routers h' = <[rid := push a r]> (routers h)
       ∧ a = length (layers h)
       ∧ well_formed h'.
Proof.
  intros Hr Hwf. unfold Store.register. rewrite Hr.
  destruct (Router.register p ms mws o (settings r)) as [|[r0 l]]; [done|].
  intros [= <- <-]. exists l. split; [done|]. split; [done|]. split; [done|].
  assert (rid < length (routers h))%nat as Hlt by by eapply lookup_lt_Some.
  intros x rx a Hx Ha. simpl in *.
  apply lookup_lt_is_Some. rewrite length_app. simpl.
  destruct (decide (x = rid)) as [->|Hne].
  - rewrite list_lookup_insert_eq in Hx by done. inversion Hx; subst rx.
    simpl in Ha. apply elem_of_app in Ha as [Ha| ->%list_elem_of_singleton]; [|lia].
    pose proof (Hwf rid r a Hr Ha) as Hv. apply lookup_lt_is_Some in Hv. lia.
  - rewrite list_lookup_insert_ne in Hx by done.
    pose proof (Hwf x rx a Hx Ha) as Hv. apply lookup_lt_is_Some in Hv. lia.
Qed.


Lemma mount_layer_done (rid : RouterId) (path : string) (a : Addr)
    (h h' : Store.t) (r : RouterObj) (l : Layer.t) :
  routers h !! rid = Some r →
  layers h !! a = Some l →
  mount_layer rid path a h = Done tt h' →
  ∃ l', Shape.mounted path (opts r) l = inr l'
        ∧ layers h' = <[a := l']> (layers h)
        ∧ routers h' = <[rid := push a r]> (routers h).
Proof.
  intros Hr Hl. unfold mount_layer, Shape.mounted.
  assert (a < length (layers h))%nat as Hlt by by eapply lookup_lt_Some.
  destruct (negb (String.eqb path "")).
  - unfold Store.setPrefix at 1. rewrite Hl.
    destruct (Layer.setPrefix path l) as [|l1]; [done|]. simpl. rewrite Hr.
    destruct (truthy (RouterOptions.prefix (opts r))).
    + unfold Store.setPrefix. simpl. rewrite list_lookup_insert_eq by done.
      destruct (Layer.setPrefix _ l1) as [|l2]; [done|].
      intros [= <-]. exists l2. simpl. by rewrite list_insert_insert_eq.
    + intros [= <-]. by exists l1.
  - rewrite Hr. destruct (truthy (RouterOptions.prefix (opts r))).
    + unfold Store.setPrefix. rewrite Hl.
      destruct (Layer.setPrefix _ l) as [|l2]; [done|].
      intros [= <-]. by exists l2.
    + intros [= <-]. exists l. simpl. by rewrite list_insert_id.
Qed.

(** The loop of [use] over the layers of the mounted router. *)
Lemma mount_loop (rid : RouterId) (path : string) (addrs : list Addr)
    (h h' : Store.t) (r : RouterObj) :
  routers h !! rid = Some r →
  (∀ a, a ∈ addrs → is_Some (layers h !! a)) →
  NoDup addrs →
  for_each (mount_layer rid path) addrs h = Done tt h' →
  routers h' = <[rid := Shape.with_stack (stack r ++ addrs) r]> (routers h)
  ∧ length (layers h') = length (layers h)
  ∧ (∀ a, a ∉ addrs → layers h' !! a = layers h !! a)
  ∧ (∀ a l, a ∈ addrs → layers h !! a = Some l →
       ∃ l1, Shape.mounted path (opts r) l = inr l1 ∧ layers h' !! a = Some l1).
Proof.
  intros Hr Hv Hnd Hrun.
  assert (rid < length (routers h))%nat as Hlt by by eapply lookup_lt_Some.
  apply (for_each_invariant _
           (fun before h1 =>
              routers h1 = <[rid := Shape.with_stack (stack r ++ before) r]> (routers h)
              ∧ length (layers h1) = length (layers h)
              ∧ (∀ a, a ∉ before → layers h1 !! a = layers h !! a)
              ∧ (∀ a l, a ∈ before → layers h !! a = Some l →
                   ∃ l1, Shape.mounted path (opts r) l = inr l1
                         ∧ layers h1 !! a = Some l1)))
    in Hrun; [done| |].
  - repeat split; try done.
    + rewrite app_nil_r. symmetry. apply list_insert_id. rewrite Hr. by destruct r.
    + by intros a l ?%elem_of_nil.
  - intros before x rest h1 h2 Hst (Hrs & Hlen & Hout & Hin) Hb.
    assert (x ∉ before) as Hx.
    { rewrite Hst in Hnd. apply NoDup_app in Hnd as (_ & Hd & _).
      intros Hxb. apply (Hd x Hxb). by left. }
    destruct (Hv x) as [l Hl]; [rewrite Hst; set_solver|].
    assert (routers h1 !! rid = Some (Shape.with_stack (stack r ++ before) r)) as Hr1.
    { rewrite Hrs. by apply list_lookup_insert_eq. }
    assert (layers h1 !! x = Some l) as Hl1 by by rewrite Hout.
    destruct (mount_layer_done rid path x h1 h2 _ l Hr1 Hl1 Hb)
      as (l' & Hm & Hls & Hrs2).
    rewrite Hls, Hrs2, Hrs, list_insert_insert_eq, length_insert.
    split; [|split; [done|split]].
    + f_equal. unfold push, Shape.with_stack. simpl. by rewrite <- app_assoc.
    + intros a Ha. apply not_elem_of_app in Ha as [Ha Hax].
      rewrite list_lookup_insert_ne by set_solver. by apply Hout.
    + intros a la [Ha| ->%list_elem_of_singleton]%elem_of_app Hla.
      * rewrite list_lookup_insert_ne by (intros ->; done). by apply Hin.
      * rewrite Hl in Hla. inversion Hla; subst la. exists l'. split; [done|].
        apply list_lookup_insert_eq. rewrite Hlen. by eapply lookup_lt_Some.
Qed.

(** The loop of [use] that hands the parameter handlers of the router
    over to the mounted one. *)
Lemma param_loop (cid : RouterId) (regs : list (string * FnId))
    (h h' : Store.t) (cr : RouterObj) :
  routers h !! cid = Some cr →
  NoDup (stack cr) →
  for_each (fun kv => Store.param cid (fst kv) (snd kv)) regs h = Done tt h' →
  routers h'
  = <[cid := set_params (Shape.declared regs (params cr)) cr]> (routers h)
  ∧ length (layers h') = length (layers h)
  ∧ (∀ a, a ∉ stack cr → layers h' !! a = layers h !! a)
  ∧ (∀ a, a ∈ stack cr →
       layers h' !! a = Spec.register_all regs <$> layers h !! a).
Proof.
  intros Hr Hnd Hrun.
  assert (cid < length (routers h))%nat as Hlt by by eapply lookup_lt_Some.
  apply (for_each_invariant _
           (fun before h1 =>
              routers h1
              = <[cid := set_params (Shape.declared before (params cr)) cr]> (routers h)
              ∧ length (layers h1) = length (layers h)
              ∧ (∀ a, a ∉ stack cr → layers h1 !! a = layers h !! a)
              ∧ (∀ a, a ∈ stack cr →
                   layers h1 !! a = Spec.register_all before <$> layers h !! a)))
    in Hrun; [done| |].
  - repeat split; try done.
    + symmetry. apply list_insert_id. rewrite Hr. by destruct cr.
    + intros a _. unfold Spec.register_all. simpl. by destruct (layers h !! a).
  - intros before [k fn] rest h1 h2 _ (Hrs & Hlen & Hout & Hin) Hb. simpl in Hb.
    assert (routers h1 !! cid
            = Some (set_params (Shape.declared before (params cr)) cr)) as Hr1.
    { rewrite Hrs. by apply list_lookup_insert_eq. }
    destruct (param_done cid k fn h1 h2 _ Hr1 Hnd Hb) as (Hrs2 & Hlen2 & Hout2 & Hin2).
    simpl in *. rewrite Hrs2, Hrs, list_insert_insert_eq.
    split; [|split; [congruence|split]].
    + f_equal. unfold Shape.declared. rewrite fold_left_app. done.
    + intros a Ha. rewrite Hout2 by done. by apply Hout.
    + intros a Ha. rewrite Hin2, Hin by done.
      destruct (layers h !! a) as [l|]; [|done]. simpl. f_equal.
      unfold Spec.register_all. by rewrite fold_left_app.
Qed.

(** Mounting one router on another, each layer of the mounted router
    being on its stack once. *)
Lemma mount_done (rid cid : RouterId) (path : string) (hasPath : bool)
    (h h' : Store.t) (r cr : RouterObj) :
  rid ≠ cid →
  routers h !! rid = Some r →
  routers h !! cid = Some cr →
  (∀ a, a ∈ stack cr → is_Some (layers h !! a)) →
  NoDup (stack cr) →
  use_one rid path hasPath (Mounted cid) h = Done tt h' →
  routers h' !! rid = Some (Shape.with_stack (stack r ++ stack cr) r)
  ∧ routers h' !! cid
    = Some (set_params (Shape.declared (params r) (params cr)) cr)
  ∧ (∀ other, other ≠ rid → other ≠ cid → routers h' !! other = routers h !! other)
  ∧ length (layers h') = length (layers h)
  ∧ (∀ a, a ∉ stack cr → layers h' !! a = layers h !! a)
  ∧ (∀ a l, a ∈ stack cr → layers h !! a = Some l →
       ∃ l1, Shape.mounted path (opts r) l = inr l1
             ∧ layers h' !! a = Some (Spec.register_all (params r) l1)).
Proof.
  intros Hne Hr Hcr Hwf Hnd. unfold use_one. rewrite Hcr.
  rewrite (bool_decide_eq_false_2 (cid = rid)) by congruence. simpl.
  destruct (for_each (mount_layer rid path) (stack cr) h) as [[] h1| |] eqn:Hm;
    try done.
  destruct (mount_loop rid path (stack cr) h h1 r Hr) as (Hrs & Hlen & Hout & Hin);
    [done|done|done|].
  assert (rid < length (routers h))%nat as Hlt by by eapply lookup_lt_Some.
  assert (cid < length (routers h))%nat as Hltc by by eapply lookup_lt_Some.
  assert (routers h1 !! rid = Some (Shape.with_stack (stack r ++ stack cr) r)) as Hr1.
  { rewrite Hrs. by apply list_lookup_insert_eq. }
  assert (routers h1 !! cid = Some cr) as Hcr1.
  { rewrite Hrs, list_lookup_insert_ne by done. done. }
  rewrite Hr1. simpl. intros Hp.
  destruct (param_loop cid (params r) h1 h' cr Hcr1 Hnd Hp)
    as (Hrs2 & Hlen2 & Hout2 & Hin2).
  rewrite Hrs2, Hrs. split; [|split; [|split; [|split; [|split]]]].
  - rewrite list_lookup_insert_ne by congruence. by apply list_lookup_insert_eq.
  - apply list_lookup_insert_eq. by rewrite length_insert.
  - intros other H1 H2. by rewrite !list_lookup_insert_ne by congruence.
  - congruence.
  - intros a Ha. rewrite Hout2 by done. by apply Hout.
  - intros a l Ha Hl. destruct (Hin a l Ha Hl) as (l1 & Hmt & Hl1).
    exists l1. split; [done|]. by rewrite Hin2, Hl1.
Qed.

Lemma mounted_fields (path : string) (o : RouterOptions.t) (l l1 : Layer.t) :
  Shape.mounted path o l = inr l1 →
  Layer.path l1 = Shape.mounted_path path o (Layer.path l)
  ∧ Layer.stack l1 = Layer.stack l ∧ Layer.name l1 = Layer.name l
  ∧ Layer.methods l1 = Layer.methods l.
Proof.
  unfold Shape.mounted, Shape.mounted_path.
  destruct (negb (String.eqb path "")).
  - destruct (Layer.setPrefix path l) as [|l0] eqn:H0; [done|].
    apply setPrefix_fields in H0 as (Hp0 & Hs0 & Hn0 & _ & Hm0).
    destruct (truthy (RouterOptions.prefix o)).
    + intros (Hp & Hs & Hn & _ & Hm)%setPrefix_fields.
      rewrite Hp, Hs, Hn, Hm. by rewrite Hp0.
    + by intros [= <-].
  - destruct (truthy (RouterOptions.prefix o)).
    + by intros (Hp & Hs & Hn & _ & Hm)%setPrefix_fields.
    + by intros [= <-].
Qed.

Lemma use_one_of_use (rid : RouterId) (path : string) (m : UseArg)
    (h h' : Store.t) :
  Store.use rid (FirstPath path) [m] h = Done tt h'
  ∨ (path = "" ∧ is_function m = true
     ∧ Store.use rid (FirstArg m) [] h = Done tt h') →
  ∃ hasPath,
    use_one rid path hasPath m h = Done tt h'
    ∧ (hasPath = false → path = "").
Proof.
  intros [Hu|(-> & Hf & Hu)].
  - exists true. split; [|done]. unfold Store.use, use_at in Hu. simpl in Hu.
    by destruct (use_one rid path true m h) as [[] ?| |].
  - exists false. split; [|done]. unfold Store.use, use_at in Hu.
    rewrite Hf in Hu. simpl in Hu.
    by destruct (use_one rid "" false m h) as [[] ?| |].
Qed.


(** X16.  Mounting the same router a second time moves its layers once
    more: the objects taken over the first time are the ones prefixed
    again, so this router's stack then holds each of them twice, and both
    places read the pattern with the second mount path in front of the
    first.  Without a router prefix a layer with pattern [s], mounted at
    [p1] and then at [p2], answers at [p2 p1 s] only. *)
Theorem mounting_twice_prefixes_the_same_layers_again
    (rid cid : RouterId) (p1 p2 : string) (h h1 h2 : Store.t)
    (r cr : RouterObj) :
  rid ≠ cid →
  routers h !! rid = Some r →
  routers h !! cid = Some cr →
  well_formed h →
  NoDup (stack cr) →
  Store.use rid (FirstPath p1) [Mounted cid] h = Done tt h1 →
  Store.use rid (FirstPath p2) [Mounted cid] h1 = Done tt h2 →
  (∃ r2, routers h2 !! rid = Some r2
         ∧ stack r2 = stack r ++ stack cr ++ stack cr)
  ∧ (∀ a l, a ∈ stack cr → layers h !! a = Some l →
       ∃ l2, layers h2 !! a = Some l2
             ∧ Layer.path l2
               = Shape.mounted_path p2 (opts r)
                   (Shape.mounted_path p1 (opts r) (Layer.path l))
             ∧ (∀ s, truthy (RouterOptions.prefix (opts r)) = false →
                     p1 ≠ "" → p2 ≠ "" → Layer.path l = PString s →
                     Layer.path l2 = Shape.prefixed (p2 +:+ p1) (PString s))).
Proof.
  intros Hne Hr Hcr Hwf Hnd Hu1 Hu2.
  destruct (use_one_of_use _ _ _ _ _ (or_introl Hu1)) as (hp1 & Hone1 & _).
  destruct (use_one_of_use _ _ _ _ _ (or_introl Hu2)) as (hp2 & Hone2 & _).
  destruct (mount_done rid cid p1 hp1 h h1 r cr Hne Hr Hcr) as
    (Hr1 & Hcr1 & _ & Hlen1 & Hout1 & Hin1);
    [by intros a Ha; apply (Hwf cid cr)|done|done|].
  destruct (mount_done rid cid p2 hp2 h1 h2 _ _ Hne Hr1 Hcr1) as
    (Hr2 & Hcr2 & _ & Hlen2 & Hout2 & Hin2); [|done|done|].
  { intros a Ha. simpl in Ha. apply lookup_lt_is_Some. rewrite Hlen1.
    apply lookup_lt_is_Some. by apply (Hwf cid cr). }
  split.
  - eexists. split; [exact Hr2|]. simpl. by rewrite <- app_assoc.
  - intros a l Ha Hl.
    destruct (Hin1 a l Ha Hl) as (l1 & Hm1 & Hl1).
    destruct (Hin2 a _ Ha Hl1) as (l2 & Hm2 & Hl2). simpl in *.
    eexists. split; [exact Hl2|].
    destruct (mounted_fields _ _ _ _ Hm1) as (Hp1 & _).
    destruct (mounted_fields _ _ _ _ Hm2) as (Hp2 & _).
    destruct (register_all_fields (params r) l1) as (_ & Hq1 & _).
    destruct (register_all_fields (params r) l2) as (_ & Hq2 & _).
    assert (Layer.path (Spec.register_all (params r) l2)
            = Shape.mounted_path p2 (opts r)
                (Shape.mounted_path p1 (opts r) (Layer.path l))) as Hpath.
    { by rewrite Hq2, Hp2, Hq1, Hp1. }
    split; [done|].
    intros s Hpre Hn1 Hn2 Hs. rewrite Hpath, Hs. unfold Shape.mounted_path.
    rewrite Hpre.
    rewrite (proj2 (String.eqb_neq p1 "")), (proj2 (String.eqb_neq p2 "")) by done.
    simpl. apply prefixed_twice.
Qed.

Lemma prefix_done (rid : RouterId) (pre : string) (h h' : Store.t) (r : RouterObj) :
  routers h !! rid = Some r →
  (∀ a, a ∈ stack r → is_Some (layers h !! a)) →
  NoDup (stack r) →
  Store.prefix rid pre h = Done tt h' →
  routers h' = <[rid := set_prefix (strip_trailing_slash pre) r]> (routers h)
  ∧ length (layers h') = length (layers h)
  ∧ (∀ a, a ∉ stack r → layers h' !! a = layers h !! a)
  ∧ (∀ a l, a ∈ stack r → layers h !! a = Some l →
       ∃ l', Layer.setPrefix (strip_trailing_slash pre) l = inr l'
             ∧ layers h' !! a = Some l').
Proof.
  intros Hr Hv Hnd. unfold Store.prefix. rewrite Hr.
  set (pre' := strip_trailing_slash pre). set (h0 := with_routers _ h).
  intros Hrun.
  apply (for_each_invariant _
           (fun before h1 =>
              routers h1 = routers h0
              ∧ length (layers h1) = length (layers h)
              ∧ (∀ a, a ∉ before → layers h1 !! a = layers h !! a)
              ∧ (∀ a l, a ∈ before → layers h !! a = Some l →
                   ∃ l', Layer.setPrefix pre' l = inr l' ∧ layers h1 !! a = Some l')))
    in Hrun.
  - destruct Hrun as (Hrs & Hlen & Hout & Hin). done.
  - repeat split; try done. by intros a l ?%elem_of_nil.
  - intros before x rest h1 h2 Hst (Hrs & Hlen & Hout & Hin) Hb.
    apply setPrefix_done in Hb as (l & l' & Hl & Hs & ->). simpl.
    assert (x ∉ before) as Hx.
    { rewrite Hst in Hnd. apply NoDup_app in Hnd as (_ & Hd & _).
      intros Hxb. apply (Hd x Hxb). by left. }
    rewrite length_insert. repeat split; try done.
    + intros a Ha. apply not_elem_of_app in Ha as [Ha Hax].
      rewrite list_lookup_insert_ne by set_solver. by apply Hout.
    + intros a la [Ha| ->%list_elem_of_singleton]%elem_of_app Hla.
      * rewrite list_lookup_insert_ne by (intros ->; done). by apply Hin.
      * rewrite <- (Hout x Hx), Hl in Hla. inversion Hla; subst la.
        exists l'. split; [done|].
        apply list_lookup_insert_eq. by eapply lookup_lt_Some.
Qed.

Lemma strip_slash_appended (s : string) :
  strip_trailing_slash (s +:+ "/") = s.
Proof.
  induction s as [|c s IH]; [done|].
  rewrite app_cons. simpl. rewrite IH.
  assert (String.eqb (s +:+ "/") "" = false) as ->; [|by rewrite andb_false_r].
  by destruct s.
Qed.

Lemma strip_slash_none (s : string) :
  (∀ t, s ≠ t +:+ "/") → strip_trailing_slash s = s.
Proof.
  induction s as [|c s IH]; intros Hs; [done|]. simpl.
  destruct (Ascii.eqb c "/"%char && String.eqb s "") eqn:E.
  - apply andb_true_iff in E as [->%Ascii.eqb_eq ->%String.eqb_eq].
    by destruct (Hs "").
  - rewrite IH; [done|]. intros t ->. by apply (Hs (String c t)).
Qed.

Lemma register_after_prefix (rid : RouterId) (p : PathSpec) (ms : list string)
    (mws : list MwArg) (o : Router.RegisterOptions) (h h' : Store.t)
    (r : RouterObj) (a : Addr) :
  routers h !! rid = Some r →
  Store.register rid p ms mws o h = Done a h' →
  ∃ l l1, layers h' !! a = Some l
          ∧ l = Spec.register_all (params r) l1
          ∧ Layer.stack l1 = Shape.functions mws
          ∧ Layer.name l = Router.reg_name o
          ∧ Layer.methods l = Layer.build_methods ms
          ∧ LayerOptions.ignoreCaptures (Layer.opts l) = Router.reg_ignoreCaptures o
          ∧ Layer.path l =
              (if truthy (RouterOptions.prefix (opts r))
               then Shape.prefixed (default "" (RouterOptions.prefix (opts r))) p
               else p)
          ∧ layers h' = layers h ++ [l]
          ∧ routers h' = <[rid := push a r]> (routers h)
          ∧ a = length (layers h).
Proof.
  intros Hr. unfold Store.register. rewrite Hr.
  destruct (Router.register p ms mws o (settings r)) as [|[r0 l]] eqn:Hreg; [done|].
  intros [= <- <-]. simpl.
  destruct (register_inv _ _ _ _ _ _ _ Hreg) as (l1 & Hl & _ & Hst & Hn & Hm & Hp & Hi & _).
  destruct (register_all_fields (Router.params (settings r)) l1)
    as (Hn' & Hp' & Hm' & Ho' & _).
  rewrite <- Hl in Hn', Hp', Hm', Ho'. simpl in *.
  exists l, l1. rewrite lookup_app_r, Nat.sub_diag by done.
  repeat split; try done; congruence.
Qed.

(** X17.  [prefix] drops one slash from the end of the prefix (a prefix
    without a final slash is taken as it is), stores the result as the
    router's prefix and puts it in front of the pattern of every layer of
    the stack, each being there once; no other layer is touched.  A route
    registered afterwards gets the same stored prefix in front of its
    pattern. *)
Theorem prefix_is_put_before_every_layer_and_kept_for_later_routes
    (rid : RouterId) (pre : string) (h h' : Store.t) (r : RouterObj) :
  routers h !! rid = Some r →
  well_formed h →
  NoDup (stack r) →
  Store.prefix rid pre h = Done tt h' →
  let stored := strip_trailing_slash pre in
  (∀ s, strip_trailing_slash (s +:+ "/") = s)
  ∧ ((∀ t, pre ≠ t +:+ "/") → stored = pre)
  ∧ routers h' !! rid = Some (set_prefix stored r)
  ∧ (∀ a, a ∉ stack r → layers h' !! a = layers h !! a)
  ∧ (∀ a l, a ∈ stack r → layers h !! a = Some l →
       ∃ l', layers h' !! a = Some l'
             ∧ Layer.setPrefix stored l = inr l'
             ∧ Layer.path l' = Shape.prefixed stored (Layer.path l))
  ∧ (∀ p ms middlewares o a h2,
       Store.register rid p ms middlewares o h' = Done a h2 →
       ∃ l, layers h2 !! a = Some l
            ∧ Layer.path l = (if String.eqb stored "" then p
                              else Shape.prefixed stored p)).
Proof.
  intros Hr Hwf Hnd Hpre stored.
  destruct (prefix_done rid pre h h' r Hr) as (Hrs & _ & Hout & Hin);
    [by intros a Ha; apply (Hwf rid r)|done|done|].
  assert (routers h' !! rid = Some (set_prefix stored r)) as Hr'.
  { rewrite Hrs. apply list_lookup_insert_eq. by eapply lookup_lt_Some. }
  split; [apply strip_slash_appended|]. split; [apply strip_slash_none|].
  split; [done|]. split; [done|]. split.
  - intros a l Ha Hl. destruct (Hin a l Ha Hl) as (l' & Hs & Hl').
    exists l'. split; [done|]. split; [done|].
    by apply setPrefix_fields in Hs as (? & _).
  - intros p ms middlewares o a h2 Hreg.
    destruct (register_after_prefix _ _ _ _ _ _ _ _ _ Hr' Hreg)
      as (l & l1 & Hl & _ & _ & _ & _ & _ & Hp & _).
    exists l. split; [done|]. rewrite Hp. simpl.
    by destruct (String.eqb stored "").
Qed.

(** X18.  [prefix] called twice piles the two prefixes up on the layers
    that are registered, the later one in front, while the router keeps
    the later prefix only: a layer with pattern [s] then reads
    [p2 p1 s], and a route registered after both calls gets [p2] alone. *)
Theorem prefix_twice_piles_up_on_registered_layers_only
    (rid : RouterId) (p1 p2 : string) (h h1 h2 : Store.t) (r : RouterObj) :
  routers h !! rid = Some r →
  well_formed h →
  NoDup (stack r) →
  Store.prefix rid p1 h = Done tt h1 →
  Store.prefix rid p2 h1 = Done tt h2 →
  let q1 := strip_trailing_slash p1 in
  let q2 := strip_trailing_slash p2 in
  routers h2 !! rid = Some (set_prefix q2 r)
  ∧ (∀ a l s, a ∈ stack r → layers h !! a = Some l → Layer.path l = PString s →
       ∃ l2, layers h2 !! a = Some l2
             ∧ Layer.path l2 = Shape.prefixed (q2 +:+ q1) (PString s))
  ∧ (∀ p ms middlewares o a h3,
       Store.register rid p ms middlewares o h2 = Done a h3 →
       ∃ l, layers h3 !! a = Some l
            ∧ Layer.path l = (if String.eqb q2 "" then p else Shape.prefixed q2 p)).
Proof.
  intros Hr Hwf Hnd H1 H2 q1 q2.
  destruct (prefix_done rid p1 h h1 r Hr) as (Hrs1 & Hlen1 & Hout1 & Hin1);
    [by intros a Ha; apply (Hwf rid r)|done|done|].
  assert (rid < length (routers h))%nat as Hlt by by eapply lookup_lt_Some.
  assert (routers h1 !! rid = Some (set_prefix q1 r)) as Hr1.
  { rewrite Hrs1. by apply list_lookup_insert_eq. }
  destruct (prefix_done rid p2 h1 h2 _ Hr1) as (Hrs2 & Hlen2 & Hout2 & Hin2);
    [|done|done|].
  { intros a Ha. simpl in Ha. apply lookup_lt_is_Some. rewrite Hlen1.
    apply lookup_lt_is_Some. by apply (Hwf rid r). }
  assert (routers h2 !! rid = Some (set_prefix q2 r)) as Hr2.
  { rewrite Hrs2, Hrs1, list_insert_insert_eq. by apply list_lookup_insert_eq. }
  split; [done|]. split.
  - intros a l s Ha Hl Hs.
    destruct (Hin1 a l Ha Hl) as (l1 & Hs1 & Hl1).
    destruct (Hin2 a l1 Ha Hl1) as (l2 & Hs2 & Hl2).
    exists l2. split; [done|].
    apply setPrefix_fields in Hs1 as (Hp1 & _).
    apply setPrefix_fields in Hs2 as (Hp2 & _).
    rewrite Hp2, Hp1, Hs. apply prefixed_twice.
  - intros p ms middlewares o a h3 Hreg.
    destruct (register_after_prefix _ _ _ _ _ _ _ _ _ Hr2 Hreg)
      as (l & l1 & Hl & _ & _ & _ & _ & _ & Hp & _).
    exists l. split; [done|]. rewrite Hp. simpl.
    by destruct (String.eqb q2 "").
Qed.

Lemma use_plain_done (rid : RouterId) (path : string) (hasPath : bool)
    (m : MwArg) (h h' : Store.t) (r : RouterObj) :
  routers h !! rid = Some r →
  use_one rid path hasPath (Plain m) h = Done tt h' →
  ∃ l l1 f,
    m = ArgFunction f
    ∧ layers h' = layers h ++ [l]
    ∧ routers h' !! rid = Some (push (length (layers h)) r)
    ∧ l = Spec.register_all (params r) l1
    ∧ Layer.stack l1 = [f]
    ∧ Layer.methods l = [] ∧ Layer.name l = None
    ∧ LayerOptions.ignoreCaptures (Layer.opts l) = Some (negb hasPath)
    ∧ Layer.path l =
        (let p := PString (if String.eqb path "" then "(.*)" else path) in
         if truthy (RouterOptions.prefix (opts r))
         then Shape.prefixed (default "" (RouterOptions.prefix (opts r))) p
         else p).
Proof.
  intros Hr. unfold use_one.
  destruct (Store.register rid _ [] [m] (use_options hasPath) h) as [a h1| |] eqn:Hreg;
    try done.
  intros [= <-].
  destruct (register_after_prefix _ _ _ _ _ _ _ _ _ Hr Hreg)
    as (l & l1 & _ & Hl & Hst & Hn & Hm & Hi & Hp & Hls & Hrs & ->).
  assert (∃ f, m = ArgFunction f) as [f ->].
  { unfold Store.register in Hreg. rewrite Hr in Hreg.
    unfold Router.register, Layer.new in Hreg. simpl in Hreg.
    destruct m; [by eexists|done|done]. }
  exists l, l1, f. split; [done|]. split; [done|]. split.
  { rewrite Hrs. apply list_lookup_insert_eq. by eapply lookup_lt_Some. }
  done.
Qed.

(** X19.  [use] with a plain function registers a layer without methods
    (so it never makes a request count as routed by itself) and without a
    name.  Given without a path, the function is registered under the
    catch-all pattern and the layer ignores captures: it yields no
    captures for any path.  Given with a path, the layer is registered
    under that path and keeps its captures.  A first argument that is
    neither a string nor a function is dropped without complaint, whereas
    the same value given after a path makes the call throw a TypeError. *)
Theorem use_registers_a_function_as_a_layer_without_methods
    (rid : RouterId) (h : Store.t) (r : RouterObj) (f : Middleware) :
  routers h !! rid = Some r →
  (∀ path h',
     Store.use rid (FirstPath path) [Plain (ArgFunction f)] h = Done tt h' →
     ∃ l l1,
       layers h' = layers h ++ [l]
       ∧ routers h' !! rid = Some (push (length (layers h)) r)
       ∧ l = Spec.register_all (params r) l1 ∧ Layer.stack l1 = [f]
       ∧ Layer.methods l = [] ∧ Layer.name l = None
       ∧ (∀ method, Spec.handles method l = false)
       ∧ LayerOptions.ignoreCaptures (Layer.opts l) = Some false
       ∧ Layer.path l =
           (let p := PString (if String.eqb path "" then "(.*)" else path) in
            if truthy (RouterOptions.prefix (opts r))
            then Shape.prefixed (default "" (RouterOptions.prefix (opts r))) p
            else p))
  ∧ (∀ h',
       Store.use rid (FirstArg (Plain (ArgFunction f))) [] h = Done tt h' →
       ∃ l l1,
         layers h' = layers h ++ [l]
         ∧ routers h' !! rid = Some (push (length (layers h)) r)
         ∧ l = Spec.register_all (params r) l1 ∧ Layer.stack l1 = [f]
         ∧ Layer.methods l = [] ∧ Layer.name l = None
         ∧ (∀ method, Spec.handles method l = false)
         ∧ (∀ p, Layer.captures l p = [])
         ∧ Layer.path l =
             (if truthy (RouterOptions.prefix (opts r))
              then Shape.prefixed (default "" (RouterOptions.prefix (opts r)))
                     (PString "(.*)")
              else PString "(.*)"))
  ∧ (∀ ty rest,
       Store.use rid (FirstArg (Plain (ArgOther ty))) rest h
       = Store.use rid (FirstArg Nullish) rest h
       ∧ Store.use rid (FirstArg (Plain (ArgOther ty))) [] h = Done tt h)
  ∧ (∀ path ty rest, ∃ msg,
       Store.use rid (FirstPath path) (Plain (ArgOther ty) :: rest) h
       = Thrown (TypeError msg)).
Proof.
  intros Hr. split; [|split; [|split]].
  - intros path h' Hu.
    assert (use_one rid path true (Plain (ArgFunction f)) h = Done tt h') as Ht.
    { unfold Store.use, use_at in Hu. cbn [for_each] in Hu.
      by destruct (use_one rid path true _ h) as [[] ?| |]. }
    destruct (use_plain_done _ _ _ _ _ _ _ Hr Ht)
      as (l & l1 & f' & [= <-] & Hls & Hrs & Hl & Hst & Hm & Hn & Hi & Hp).
    exists l, l1. repeat split; try done.
    intros method. unfold Spec.handles. rewrite Hm.
    apply bool_decide_eq_false_2. by intros [? _].
  - intros h' Hu.
    assert (use_one rid "" false (Plain (ArgFunction f)) h = Done tt h') as Ht.
    { unfold Store.use, use_at in Hu. cbn [for_each is_function] in Hu.
      by destruct (use_one rid "" false _ h) as [[] ?| |]. }
    destruct (use_plain_done _ _ _ _ _ _ _ Hr Ht)
      as (l & l1 & f' & [= <-] & Hls & Hrs & Hl & Hst & Hm & Hn & Hi & Hp).
    exists l, l1. repeat split; try done.
    + intros method. unfold Spec.handles. rewrite Hm.
      apply bool_decide_eq_false_2. by intros [? _].
    + intros p. unfold Layer.captures. by rewrite Hi.
  - intros ty rest. split; [done|]. done.
  - intros path ty rest. unfold Store.use, use_at. simpl.
    unfold Store.register. rewrite Hr.
    unfold Router.register, Layer.new. simpl. by eexists.
Qed.

(** X20.  A route registered on a router after it was mounted is not
    part of the router it was mounted on: that router's stack is
    unchanged and does not hold the new layer, and the new layer's
    pattern gets the mounted router's own prefix only, not the mount
    path.  It does get the parameter handlers that were handed over at
    mount time. *)
Theorem routes_registered_after_mounting_stay_with_the_mounted_router
    (rid cid : RouterId) (path : string) (h h1 h2 : Store.t) (r cr : RouterObj)
    (p : PathSpec) (ms : list string) (middlewares : list MwArg)
    (o : Router.RegisterOptions) (a : Addr) :
  rid ≠ cid →
  routers h !! rid = Some r →
  routers h !! cid = Some cr →
  well_formed h →
  NoDup (stack cr) →
  Store.use rid (FirstPath path) [Mounted cid] h = Done tt h1 →
  Store.register cid p ms middlewares o h1 = Done a h2 →
  routers h2 !! rid = Some (Shape.with_stack (stack r ++ stack cr) r)
  ∧ (a ∉ stack r ++ stack cr)
  ∧ (∃ cr2, routers h2 !! cid = Some cr2 ∧ stack cr2 = stack cr ++ [a])
  ∧ ∃ l l1,
      layers h2 !! a = Some l
      ∧ l = Spec.register_all (Shape.declared (params r) (params cr)) l1
      ∧ Layer.stack l1 = Shape.functions middlewares
      ∧ Layer.path l =
          (if truthy (RouterOptions.prefix (opts cr))
           then Shape.prefixed (default "" (RouterOptions.prefix (opts cr))) p
           else p).
Proof.
  intros Hne Hr Hcr Hwf Hnd Hu Hreg.
  destruct (use_one_of_use _ _ _ _ _ (or_introl Hu)) as (hp & Hone & _).
  destruct (mount_done rid cid path hp h h1 r cr Hne Hr Hcr) as
    (Hr1 & Hcr1 & _ & Hlen & _ & _); [by intros x Hx; apply (Hwf cid cr)|done|done|].
  destruct (register_after_prefix _ _ _ _ _ _ _ _ _ Hcr1 Hreg)
    as (l & l1 & Hl & Hl1 & Hst & _ & _ & _ & Hp & _ & Hrs & ->).
  split; [|split; [|split]].
  - rewrite Hrs, list_lookup_insert_ne by congruence. done.
  - rewrite Hlen. intros [Hin|Hin]%elem_of_app.
    + pose proof (Hwf rid r _ Hr Hin) as Hv. apply lookup_lt_is_Some in Hv. lia.
    + pose proof (Hwf cid cr _ Hcr Hin) as Hv. apply lookup_lt_is_Some in Hv. lia.
  - eexists. split.
    + rewrite Hrs. apply list_lookup_insert_eq. by eapply lookup_lt_Some.
    + done.
  - exists l, l1. done.
Qed.

End Objects.

(** ** Routers and layers as objects: nothing is taken away *)

Section Keeps.

Context `{PathToRegExp}.

Import Store.

Lemma keeps_refl (h : Store.t) : keeps h h.
Proof.
  split; [done|]. split.
  - intros rid r Hr. by exists r.
  - intros a l Hl. by exists l.
Qed.

Lemma keeps_trans (h1 h2 h3 : Store.t) : keeps h1 h2 → keeps h2 h3 → keeps h1 h3.
Proof.
  intros (Hn & Hr & Hl) (Hn' & Hr' & Hl'). split; [congruence|]. split.
  - intros rid r Hrid. destruct (Hr rid r Hrid) as (r2 & H2 & Hp & Hm).
    destruct (Hr' rid r2 H2) as (r3 & H3 & Hp' & Hm').
    exists r3. split; [done|]. split; [by etrans|congruence].
  - intros a l Ha. destruct (Hl a l Ha) as (l2 & H2 & Hn2 & Hm2 & Ho2).
    destruct (Hl' a l2 H2) as (l3 & H3 & Hn3 & Hm3 & Ho3).
    exists l3. split; [done|]. split; [congruence|]. split; congruence.
Qed.

(** A layer replaced in place by one of the same name, methods and
    options. *)
Lemma keeps_layer (h : Store.t) (a : Addr) (l l' : Layer.t) :
  layers h !! a = Some l →
  Layer.name l' = Layer.name l → Layer.methods l' = Layer.methods l →
  Layer.opts l' = Layer.opts l →
  well_formed h →
  well_formed (with_layers (<[a := l']> (layers h)) h)
  ∧ keeps h (with_layers (<[a := l']> (layers h)) h).
Proof.
  intros Hl Hn Hm Ho Hwf. split.
  - intros rid r x Hr Hx. simpl in *. apply lookup_lt_is_Some.
    rewrite length_insert. apply lookup_lt_is_Some. by apply (Hwf rid r).
  - split; [done|]. split.
    + intros rid r Hr. by exists r.
    + intros x lx Hx. simpl. destruct (decide (x = a)) as [->|Hne].
      * rewrite Hl in Hx. inversion Hx; subst lx. exists l'. split; [|done].
        apply list_lookup_insert_eq. by eapply lookup_lt_Some.
      * exists lx. by rewrite list_lookup_insert_ne.
Qed.

(** A router replaced in place by one whose stack has grown by valid
    references. *)
Lemma keeps_router (h : Store.t) (rid : RouterId) (r r' : RouterObj) :
  routers h !! rid = Some r →
  stack r `prefix_of` stack r' →
  methods r' = methods r →
  (∀ a, a ∈ stack r' → is_Some (layers h !! a)) →
  well_formed h →
  well_formed (with_routers (<[rid := r']> (routers h)) h)
  ∧ keeps h (with_routers (<[rid := r']> (routers h)) h).
Proof.
  intros Hr Hp Hm Hv Hwf.
  assert (rid < length (routers h))%nat as Hlt by by eapply lookup_lt_Some.
  split.
  - intros x rx a Hx Ha. simpl in *. destruct (decide (x = rid)) as [->|Hne].
    + rewrite list_lookup_insert_eq in Hx by done. inversion Hx; subst rx.
      by apply Hv.
    + rewrite list_lookup_insert_ne in Hx by done. by apply (Hwf x rx).
  - split; [by simpl; rewrite length_insert|]. split.
    + intros x rx Hx. simpl. destruct (decide (x = rid)) as [->|Hne].
      * rewrite Hr in Hx. inversion Hx; subst rx. exists r'.
        by rewrite list_lookup_insert_eq.
      * exists rx. by rewrite list_lookup_insert_ne.
    + intros a l Hl. by exists l.
Qed.

Lemma for_each_keeps {A} (body : A → Store.t → Outcome unit) (xs : list A)
    (P : A → Prop) (h h' : Store.t) :
  (∀ x h1 h2, P x → well_formed h1 → keeps h h1 → body x h1 = Done tt h2 →
              well_formed h2 ∧ keeps h1 h2) →
  (∀ x, x ∈ xs → P x) →
  well_formed h →
  for_each body xs h = Done tt h' →
  well_formed h' ∧ keeps h h'.
Proof.
  intros Hbody HP Hwf Hrun.
  apply (for_each_invariant _ (fun _ h1 => well_formed h1 ∧ keeps h h1)) in Hrun;
    [done| |].
  - split; [done|apply keeps_refl].
  - intros before x rest h1 h2 Hxs [Hwf1 Hk1] Hb.
    destruct (Hbody x h1 h2) as [Hwf2 Hk2]; try done.
    + apply HP. rewrite Hxs. set_solver.
    + split; [done|]. by eapply keeps_trans.
Qed.

Lemma setPrefix_keeps (pre : string) (a : Addr) (h h' : Store.t) :
  well_formed h → Store.setPrefix pre a h = Done tt h' →
  well_formed h' ∧ keeps h h'.
Proof.
  intros Hwf (l & l' & Hl & Hs & ->)%setPrefix_done.
  apply setPrefix_fields in Hs as (_ & _ & Hn & Ho & Hm).
  by apply (keeps_layer h a l l').
Qed.

Lemma layer_param_keeps (p : string) (fn : FnId) (a : Addr) (h h' : Store.t) :
  well_formed h → layer_param p fn a h = Done tt h' →
  well_formed h' ∧ keeps h h'.
Proof.
  intros Hwf (l & Hl & ->)%layer_param_done.
  apply (keeps_layer h a l); try done; unfold Layer.param; by destruct (-1 <? _).
Qed.

Lemma param_keeps (rid : RouterId) (p : string) (fn : FnId) (h h' : Store.t) :
  well_formed h → Store.param rid p fn h = Done tt h' →
  well_formed h' ∧ keeps h h'.
Proof.
  intros Hwf. unfold Store.param.
  destruct (routers h !! rid) as [r|] eqn:Hr; [|done].
  destruct (keeps_router h rid r (set_params (Router.set_param (params r) p fn) r))
    as [Hwf0 Hk0]; try done.
  { by intros a Ha; apply (Hwf rid r). }
  set (h0 := with_routers _ h) in *. intros Hrun.
  assert (well_formed h' ∧ keeps h0 h') as [Hwf' Hk'].
  { eapply (for_each_keeps _ _ (fun _ => True)); [| |exact Hwf0|exact Hrun]; [|done].
    intros x h1 h2 _ Hw _ Hb. by apply (layer_param_keeps p fn x). }
  split; [done|]. by eapply keeps_trans.
Qed.

Lemma prefix_keeps (rid : RouterId) (pre : string) (h h' : Store.t) :
  well_formed h → Store.prefix rid pre h = Done tt h' →
  well_formed h' ∧ keeps h h'.
Proof.
  intros Hwf. unfold Store.prefix.
  destruct (routers h !! rid) as [r|] eqn:Hr; [|done].
  destruct (keeps_router h rid r (set_prefix (strip_trailing_slash pre) r))
    as [Hwf0 Hk0]; try done.
  { by intros a Ha; apply (Hwf rid r). }
  set (h0 := with_routers _ h) in *. intros Hrun.
  assert (well_formed h' ∧ keeps h0 h') as [Hwf' Hk'].
  { eapply (for_each_keeps _ _ (fun _ => True)); [| |exact Hwf0|exact Hrun]; [|done].
    intros x h1 h2 _ Hw _ Hb. by apply (setPrefix_keeps (strip_trailing_slash pre) x). }
  split; [done|]. by eapply keeps_trans.
Qed.

Lemma register_keeps (rid : RouterId) (p : PathSpec) (ms : list string)
    (mws : list MwArg) (o : Router.RegisterOptions) (a : Addr) (h h' : Store.t) :
  well_formed h → Store.register rid p ms mws o h = Done a h' →
  well_formed h' ∧ keeps h h'.
Proof.
  intros Hwf Hreg.
  destruct (routers h !! rid) as [r|] eqn:Hr.
  2:{ unfold Store.register in Hreg. by rewrite Hr in Hreg. }
  destruct (register_creates_layer rid p ms mws o h r a h' Hr Hwf Hreg)
    as (l & Hls & Hrs & -> & Hwf').
  split; [done|].
  assert (rid < length (routers h))%nat as Hlt by by eapply lookup_lt_Some.
  split; [by rewrite Hrs, length_insert|]. split.
  - intros x rx Hx. rewrite Hrs. destruct (decide (x = rid)) as [->|Hne].
    + rewrite Hr in Hx. inversion Hx; subst rx. exists (push (length (layers h)) r).
      rewrite list_lookup_insert_eq by done. split; [done|]. split; [|done].
      by apply prefix_app_r.
    + exists rx. by rewrite list_lookup_insert_ne.
  - intros x lx Hx. exists lx. rewrite Hls. by rewrite (lookup_app_l_Some _ _ _ _ Hx).
Qed.

Lemma mount_layer_keeps (rid : RouterId) (path : string) (a : Addr)
    (h h' : Store.t) :
  well_formed h → is_Some (layers h !! a) →
  mount_layer rid path a h = Done tt h' →
  well_formed h' ∧ keeps h h'.
Proof.
  intros Hwf [l Hl] Hm.
  destruct (routers h !! rid) as [r|] eqn:Hr.
  2:{ unfold mount_layer in Hm. destruct (negb (String.eqb path "")).
      - unfold Store.setPrefix in Hm. rewrite Hl in Hm.
        destruct (Layer.setPrefix path l); [done|]. simpl in Hm. by rewrite Hr in Hm.
      - by rewrite Hr in Hm. }
  destruct (mount_layer_done rid path a h h' r l Hr Hl Hm) as (l' & Hmt & Hls & Hrs).
  destruct (mounted_fields _ _ _ _ Hmt) as (_ & _ & Hn & Hms).
  assert (Layer.opts l' = Layer.opts l) as Ho.
  { unfold Shape.mounted in Hmt. destruct (negb (String.eqb path "")).
    - destruct (Layer.setPrefix path l) as [|l0] eqn:H0; [done|].
      apply setPrefix_fields in H0 as (_ & _ & _ & Ho0 & _).
      destruct (truthy (RouterOptions.prefix (opts r))).
      + apply setPrefix_fields in Hmt as (_ & _ & _ & Ho1 & _). congruence.
      + by inversion Hmt; subst.
    - destruct (truthy (RouterOptions.prefix (opts r))).
      + by apply setPrefix_fields in Hmt as (_ & _ & _ & Ho1 & _).
      + by inversion Hmt; subst. }
  destruct (keeps_layer h a l l' Hl Hn Hms Ho Hwf) as [Hwf1 Hk1].
  set (h1 := with_layers (<[a := l']> (layers h)) h) in *.
  destruct (keeps_router h1 rid r (push a r)) as [Hwf2 Hk2]; try done.
  { by apply prefix_app_r. }
  { intros x [Hx| ->%list_elem_of_singleton]%elem_of_app.
    - by apply (Hwf1 rid r).
    - simpl. apply lookup_lt_is_Some. rewrite length_insert. by eapply lookup_lt_Some. }
  assert (h' = with_routers (<[rid := push a r]> (routers h1)) h1) as ->.
  { destruct h'. simpl in *. by subst. }
  split; [done|]. by eapply keeps_trans.
Qed.

Lemma use_one_keeps (rid : RouterId) (path : string) (hasPath : bool)
    (m : UseArg) (h h' : Store.t) :
  well_formed h → use_one rid path hasPath m h = Done tt h' →
  well_formed h' ∧ keeps h h'.
Proof.
  intros Hwf. destruct m as [cid|m|]; simpl; [| |done].
  - destruct (routers h !! cid) as [cr|] eqn:Hcr; [|done].
    destruct (_ && _); [done|].
    destruct (for_each (mount_layer rid path) (stack cr) h) as [[] h1| |] eqn:Hm;
      try done.
    destruct (for_each_keeps (mount_layer rid path) (stack cr)
                (fun a => is_Some (layers h !! a)) h h1) as [Hwf1 Hk1]; try done.
    { intros x h2 h3 [l Hl] Hw2 (_ & _ & Hk2) Hb.
      apply (mount_layer_keeps rid path x h2 h3 Hw2); [|done].
      destruct (Hk2 x l Hl) as (l' & ? & _). by eexists. }
    { intros a Ha. by apply (Hwf cid cr). }
    destruct (routers h1 !! rid) as [r1|] eqn:Hr1; [|done].
    intros Hp.
    destruct (for_each_keeps (fun kv => Store.param cid (fst kv) (snd kv)) (params r1)
                (fun _ => True) h1 h') as [Hwf2 Hk2]; try done.
    { intros kv h2 h3 _ Hw2 _ Hb. by apply (param_keeps cid (fst kv) (snd kv)). }
    split; [done|]. by eapply keeps_trans.
  - destruct (Store.register rid _ [] [m] (use_options hasPath) h) as [a h1| |] eqn:Hreg;
      try done.
    intros [= <-]. by eapply register_keeps.
Qed.

Lemma use_keeps (rid : RouterId) (first : UseFirst) (middlewares : list UseArg)
    (h h' : Store.t) :
  well_formed h → Store.use rid first middlewares h = Done tt h' →
  well_formed h' ∧ keeps h h'.
Proof.
  intros Hwf.
  assert (∀ path hasPath ms h1 h2,
            well_formed h1 → use_at rid path hasPath ms h1 = Done tt h2 →
            well_formed h2 ∧ keeps h1 h2) as Hat.
  { intros path hasPath ms h1 h2 Hw Hrun. unfold use_at in Hrun.
    apply (for_each_keeps (use_one rid path hasPath) ms (fun _ => True) h1 h2);
      try done.
    intros x h3 h4 _ Hw3 _ Hb. by apply (use_one_keeps rid path hasPath x). }
  destruct first as [p ps|p|m]; unfold Store.use.
  - intros Hrun.
    apply (for_each_keeps (fun path => use_at rid path true middlewares) (p :: ps)
             (fun _ => True) h h'); try done.
    intros x h3 h4 _ Hw3 _ Hb. by apply (Hat x true middlewares).
  - by apply Hat.
  - by apply Hat.
Qed.

(** X21.  Building up routers never takes anything away.  After any call
    of [param], [prefix], [register] or [use] that returns, on routers
    and layers that are all there: every router still has the layers it
    had, in the same order and at the front of its stack (stacks only grow
    at the end), and the same implemented methods; every Layer object is
    still there with the name, the methods and the options it had; and
    every reference held by a router still names a layer. *)
Theorem building_routers_never_takes_anything_away (h h' : Store.t) :
  well_formed h →
  (∃ rid p fn, Store.param rid p fn h = Done tt h')
  ∨ (∃ rid pre, Store.prefix rid pre h = Done tt h')
  ∨ (∃ rid p ms middlewares o a, Store.register rid p ms middlewares o h = Done a h')
  ∨ (∃ rid first middlewares, Store.use rid first middlewares h = Done tt h') →
  well_formed h' ∧ keeps h h'.
Proof.
  intros Hwf [(rid & p & fn & Hp)|[(rid & pre & Hp)|[(rid & p & ms & mws & o & a & Hr)
                                                    |(rid & first & mws & Hu)]]].
  - by eapply param_keeps.
  - by eapply prefix_keeps.
  - by eapply register_keeps.
  - by eapply use_keeps.
Qed.

End Keeps.

(** ** lib/router.js: where the former [routes] sets [_matchedRoute] *)

Section LegacyRoutes.

Import MatchedResult.
Context `{UriDecoder} `{Router.Handlers}.

Lemma legacy_run_stack (p : string) (ms : list Middleware)
    (rest : list Router.ChainEntry) (c : Router.Ctx) (next : Router.Next) :
  Spec.pass_through _ →
  is_Some (Router.ctx_params c) →
  ∃ c1,
    Router.compose (Legacy.run_entry p) (map Router.Run ms ++ rest) c next
    = Router.compose (Legacy.run_entry p) rest c1 next
    ∧ Spec.passes_on c c1.
Proof.
  intros [Hh Hp]. revert c. induction ms as [|m ms IH]; intros c Hsome; simpl.
  - exists c. split; [done|apply passes_on_refl].
  - destruct m as [fn prm|prm fn]; simpl.
    + destruct (Hh fn c (fun c' => Router.compose (Legacy.run_entry p)
                                     (map Router.Run ms ++ rest) c' next))
        as (c1 & -> & Hpass).
      destruct (IH c1) as (c2 & -> & Hpass2); [by apply Hpass|].
      exists c2. split; [done|]. by eapply passes_on_trans.
    + destruct Hsome as [ps Hps]. rewrite Hps.
      destruct (Hp fn (mjoin (ps !! prm)) c
                  (fun c' => Router.compose (Legacy.run_entry p)
                               (map Router.Run ms ++ rest) c' next))
        as (c1 & -> & Hpass).
      destruct (IH c1) as (c2 & -> & Hpass2).
      { apply Hpass. by rewrite Hps. }
      exists c2. split; [done|]. by eapply passes_on_trans.
Qed.

Lemma legacy_run_layers (p : string) (ls : list Layer.t) (c : Router.Ctx)
    (next : Router.Next) :
  Spec.pass_through _ →
  ∃ c_end,
    Router.compose (Legacy.run_entry p)
      (flat_map (fun l => Router.Enter l :: map Router.Run (Layer.stack l)) ls) c next
    = next c_end
    ∧ Router._matchedRoute c_end = Router._matchedRoute c
    ∧ Router._matchedRouteName c_end = Router._matchedRouteName c.
Proof.
  intros Hpass. revert c. induction ls as [|l ls IH]; intros c.
  - by exists c.
  - simpl.
    destruct (legacy_run_stack p (Layer.stack l)
                (flat_map (fun l => Router.Enter l :: map Router.Run (Layer.stack l)) ls)
                (Legacy.enter_layer p l c) next Hpass)
      as (c1 & -> & Hr & Hn & _); [by eexists|].
    destruct (IH c1) as (c_end & -> & Hr' & Hn').
    exists c_end. split; [done|]. simpl in *. split; congruence.
Qed.

(** X22.  The [routes] of lib/router.js, unlike the one of src/, sets
    [_matchedRoute] once, before the chain runs, to the pattern of the last
    layer matched by path and method, and the closure it pushes for a
    layer leaves [_matchedRoute] and [_matchedRouteName] alone; so when
    every middleware goes on to [next], the fields still hold that value
    at the end of the chain.  [_matchedRouteName] is only assigned when
    that layer has a name: otherwise the value found on the context is
    kept. *)
Theorem legacy_routes_mark_the_last_matched_layer_once
    (r : Router.t) (c : Router.Ctx) (next : Router.Next) :
  let p := Router.effective_path r c in
  let matched := Router.match_ r p (Router.ctx_method c) in
  (route matched = false →
     Legacy.routes r c next = next (Router.note_match r matched c))
  ∧ (∀ layer c0,
       Router._matchedRoute (Legacy.enter_layer p layer c0) = Router._matchedRoute c0
       ∧ Router._matchedRouteName (Legacy.enter_layer p layer c0)
         = Router._matchedRouteName c0)
  ∧ (∀ final,
       route matched = true →
       last (pathAndMethod matched) = Some final →
       Legacy.routes r c next
       = Router.compose (Legacy.run_entry p)
           (Router.layerChain (pathAndMethod matched))
           (Legacy.mark_most_specific final (Router.note_match r matched c)) next
       ∧ (Spec.pass_through _ →
          ∃ c_end,
            Legacy.routes r c next = next c_end
            ∧ Router._matchedRoute c_end = Some (Layer.path final)
            ∧ Router._matchedRouteName c_end
              = if truthy (Layer.name final) then Layer.name final
                else Router._matchedRouteName c)).
Proof.
  intros p matched. split; [|split].
  - intros Hr. unfold Legacy.routes. fold p. fold matched. by rewrite Hr.
  - done.
  - intros final Hr Hlast.
    assert (Legacy.routes r c next
            = Router.compose (Legacy.run_entry p)
                (Router.layerChain (pathAndMethod matched))
                (Legacy.mark_most_specific final (Router.note_match r matched c)) next)
      as Hrun.
    { unfold Legacy.routes. fold p. fold matched. by rewrite Hr, Hlast. }
    split; [done|]. intros Hpass. rewrite Hrun, layerChain_flat.
    destruct (legacy_run_layers p (pathAndMethod matched)
                (Legacy.mark_most_specific final (Router.note_match r matched c))
                next Hpass) as (c_end & -> & Hroute & Hname).
    exists c_end. split; [done|]. by rewrite Hroute, Hname.
Qed.

End LegacyRoutes.

(** ** Layer.url: positional arguments *)

Section UrlArguments.

Lemma lookup_assign_props (props : list (string * JsValue)) (k k' : string)
    (v : JsValue) :
  Value.lookup (Layer.assign_props props k v) k'
  = if decide (k = k') then Some v else Value.lookup props k'.
Proof.
  induction props as [|[k0 v0] props IH]; simpl.
  - destruct (decide (k = k')) as [->|Hne].
    + by rewrite String.eqb_refl.
    + by rewrite (proj2 (String.eqb_neq k k')).
  - destruct (String.eqb k0 k) eqn:E0; simpl.
    + apply String.eqb_eq in E0 as ->.
      destruct (decide (k = k')) as [->|Hne].
      * by rewrite String.eqb_refl.
      * by rewrite (proj2 (String.eqb_neq k k')).
    + rewrite IH. destruct (String.eqb k0 k') eqn:E1; [|done].
      apply String.eqb_eq in E1 as ->. apply String.eqb_neq in E0.
      by rewrite decide_False by congruence.
Qed.

Lemma positional_lookup (tokens : list Text.Piece) (args : list JsValue)
    (replace : list (string * JsValue)) :
  NoDup (Shape.token_names tokens) →
  (∀ i n, Shape.token_names tokens !! i = Some n →
          Value.lookup (Layer.positional tokens args replace) n
          = Some (default JUndefined (args !! i)))
  ∧ (∀ n, n ∉ Shape.token_names tokens →
          Value.lookup (Layer.positional tokens args replace) n
          = Value.lookup replace n).
Proof.
  revert args replace.
  induction tokens as [|[c|k] tokens IH]; intros args replace Hnd.
  - split; [done|done].
  - simpl. by apply IH.
  - unfold Shape.token_names in *. csimpl in *.
    apply NoDup_cons in Hnd as [Hk Hnd].
    destruct (IH (tail args) (Layer.assign_props replace k
                                (default JUndefined (head args))) Hnd) as [Hin Hout].
    split.
    + intros [|i] n Hn; simpl in Hn.
      * inversion Hn; subst n. rewrite Hout by done.
        rewrite lookup_assign_props, decide_True by done. by destruct args.
      * rewrite (Hin i n Hn). by destruct args.
    + intros n Hn. apply not_elem_of_cons in Hn as [Hne Hn].
      rewrite Hout by done. rewrite lookup_assign_props.
      by rewrite decide_False by congruence.
Qed.

(** X23.  The positional call shape of [Layer.url]: a first argument that
    is neither undefined nor an object starts a list of values, from which
    a last element that is an object is taken off as the options.  The
    values are given to the named tokens of the template from left to
    right, one each: with pairwise different names, the [i]-th named token
    gets the [i]-th value, or undefined when the values have run out, and
    values beyond the last named token are not used. *)
Theorem positional_values_go_to_the_named_tokens_in_order
    (tokens : list Text.Piece) (first : JsValue) (rest : list JsValue) :
  Value.is_undefined first = false →
  Value.is_object first = false →
  NoDup (Shape.token_names tokens) →
  (∃ values options final,
     Layer.split_arguments first rest = inr (JArray values, options)
     ∧ last (first :: rest) = Some final
     ∧ (if Value.is_object final
        then values = removelast (first :: rest) ∧ options = final
        else values = first :: rest ∧ options = JUndefined))
  ∧ (∀ values i n,
       Shape.token_names tokens !! i = Some n →
       Value.lookup (Layer.positional tokens values []) n
       = Some (default JUndefined (values !! i)))
  ∧ (∀ values n,
       n ∉ Shape.token_names tokens →
       Value.lookup (Layer.positional tokens values []) n = None).
Proof.
  intros Hu Ho Hnd. split; [|split].
  - unfold Layer.split_arguments. rewrite Hu, Ho. cbn [negb andb].
    rewrite Nat.sub_1_r, <- last_lookup, <- removelast_firstn_len.
    destruct (last (first :: rest)) as [final|] eqn:Hlast.
    2:{ by apply last_None in Hlast. }
    unfold default, from_option, id.
    destruct (Value.is_object final) eqn:E.
    + exists (removelast (first :: rest)), final, final. by rewrite E.
    + exists (first :: rest), JUndefined, final. by rewrite E.
  - intros values i n Hn.
    by destruct (positional_lookup tokens values [] Hnd) as [Hin _]; apply Hin.
  - intros values n Hn.
    by destruct (positional_lookup tokens values [] Hnd) as [_ Hout]; rewrite Hout.
Qed.

End UrlArguments.

(** ** EggRouter: [register] and [resources] *)

Section EggRegister.

Context `{PathToRegExp} `{Inflection}.

Lemma convert_with_node (app : list (string * Egg.Node)) (init : list Egg.Arg)
    (n : Egg.Node) :
  Egg.convertMiddlewares (init ++ [Egg.ANode n]) app = inr (init ++ [Egg.ANode n]).
Proof.
  unfold Egg.convertMiddlewares. rewrite last_snoc. simpl.
  by rewrite removelast_last.
Qed.

Lemma resources_loop_spec (app : list (string * Egg.Node)) (s : string)
    (middlewares : list Egg.Arg) (name : option string) (controller : Egg.Arg)
    (entries : list (string * Egg.RestfulOptions)) (r r' : Router.t) :
  Egg.resources_loop app (PString s) middlewares name controller entries r = inr r' →
  ∃ new,
    Router.stack r' = Router.stack r ++ new
    ∧ map Rest.summary new
      = map (Rest.expected (Router.opts r) name s)
          (List.filter (Rest.defined controller) entries)
    ∧ Router.opts r' = Router.opts r
    ∧ Router.params r' = Router.params r
    ∧ Forall (fun l => ∃ l1 action,
                l = Spec.register_all (Router.params r) l1
                ∧ Layer.stack l1
                  = Shape.functions (map Egg.to_arg (middlewares ++ [Egg.ANode action])))
        new.
Proof.
  revert r. induction entries as [|[key opts] entries IH]; intros r Hrun.
  - simpl in Hrun. inversion Hrun; subst. exists []. by rewrite app_nil_r.
  - simpl in Hrun. unfold Rest.defined at 1. simpl.
    destruct (Egg.action_of controller key) as [action|] eqn:Ha.
    + rewrite bool_decide_eq_true_2 by by eexists.
      unfold Egg.register in Hrun. rewrite convert_with_node in Hrun.
      destruct (Router.register _ _ _ _ r) as [|[r1 l]] eqn:Hreg; [done|].
      destruct (register_inv _ _ _ _ _ _ _ Hreg)
        as (l1 & Hl & Hr1 & Hst & Hn & Hm & Hp & _).
      destruct (register_all_fields (Router.params r) l1) as (Hn' & Hp' & Hm' & _).
      rewrite <- Hl in Hn', Hp', Hm'.
      destruct (IH r1 Hrun) as (new & Hstack & Hsum & Ho & Hps & Hall).
      subst r1. simpl in *. exists (l :: new).
      split; [by rewrite Hstack, <- app_assoc|].
      split; [|split; [done|split; [done|]]].
      * simpl. rewrite Hsum. f_equal.
        unfold Rest.summary, Rest.expected. simpl. by rewrite Hn', Hp', Hm', Hn, Hp, Hm.
      * constructor; [|done]. by exists l1, action.
    + rewrite bool_decide_eq_false_2 by by intros [? ?].
      by apply IH.
Qed.

(** X24.  [resources] of EggRouter walks the table [REST_MAP] in its
    order (index, new, create, show, edit, update, destroy) and, for each
    action the controller has, registers one layer at the end of the
    stack: under the path without a final slash, followed by a slash and
    the suffix of the entry when it has one, for the methods of the entry
    ([update] answers PATCH and PUT), and under the name made from the
    singular or plural of the given name with the prefix of the entry.
    Actions the controller lacks are skipped; earlier layers, options and
    parameter handlers are untouched; each new layer holds the given
    middlewares followed by the action. *)
Theorem resources_registers_the_rest_routes_in_table_order
    (app : list (string * Egg.Node)) (nameOrPath : PathSpec)
    (pathOrMiddleware : Egg.PathOrMiddleware) (middleware : list Egg.Arg)
    (s : string) (middlewares : list Egg.Arg) (name : option string)
    (controller : Egg.Arg) (r r' : Router.t) :
  Egg.formatRouteParams nameOrPath pathOrMiddleware middleware
  = inr (PString s, middlewares, name) →
  Egg.resolveController (last middlewares) app = inr controller →
  Egg.resources app nameOrPath pathOrMiddleware middleware r = inr r' →
  ∃ new,
    Router.stack r' = Router.stack r ++ new
    ∧ map Rest.summary new
      = map (Rest.expected (Router.opts r) name s)
          (List.filter (Rest.defined controller) Egg.REST_MAP)
    ∧ Router.opts r' = Router.opts r
    ∧ Router.params r' = Router.params r
    ∧ Forall (fun l => ∃ l1 action,
                l = Spec.register_all (Router.params r) l1
                ∧ Layer.stack l1
                  = Shape.functions
                      (map Egg.to_arg (removelast middlewares ++ [Egg.ANode action])))
        new.
Proof.
  intros Hf Hc. unfold Egg.resources. rewrite Hf, Hc.
  apply resources_loop_spec.
Qed.

Lemma walk_error (c : string) (keys : list string) (obj : Egg.Node) (e : Exn) :
  Egg.walk c obj keys = inl e →
  e = PlainError ("app.controller." +:+ c +:+ " not exists").
Proof.
  revert obj. induction keys as [|k keys IH]; intros obj Hw; [done|].
  simpl in Hw. destruct (Egg.get obj k) as [next|]; [by apply (IH next)|].
  by inversion Hw.
Qed.

(** X25.  [register] of EggRouter resolves the last element of the
    middleware array as the controller, before anything else is checked:
    with no element at all it throws "controller not exists"; a string is
    looked up along its dots under [app.controller], and the first
    missing segment throws "app.controller.<name> not exists", whatever
    the other elements and the pattern are.  Only the last element is
    resolved: a string anywhere else reaches the Layer constructor as a
    string and is refused there.  A function or object given as the last
    element is passed on as it is. *)
Theorem egg_register_resolves_the_last_element_only
    (app : list (string * Egg.Node)) (p : PathSpec) (ms : list string)
    (o : Router.RegisterOptions) (r : Router.t) :
  Egg.register app p ms [] o r = inl (PlainError "controller not exists")
  ∧ (∀ init s e,
       Egg.walk s (Egg.NObject app) (Egg.split_dots "" s) = inl e →
       Egg.register app p ms (init ++ [Egg.AString s]) o r
       = inl (PlainError ("app.controller." +:+ s +:+ " not exists")))
  ∧ (∀ init s n,
       Egg.walk s (Egg.NObject app) (Egg.split_dots "" s) = inr n →
       Egg.register app p ms (init ++ [Egg.AString s]) o r
       = Router.register p ms (map Egg.to_arg init ++ [Egg.to_arg (Egg.ANode n)]) o r)
  ∧ (∀ init n,
       Egg.register app p ms (init ++ [Egg.ANode n]) o r
       = Router.register p ms (map Egg.to_arg init ++ [Egg.to_arg (Egg.ANode n)]) o r)
  ∧ (∀ before s after n,
       Forall (fun a => Shape.plain_function (Egg.to_arg a) = true) before →
       ∃ msg,
         Egg.register app p ms (before ++ Egg.AString s :: after ++ [Egg.ANode n]) o r
         = inl (TypeError msg)).
Proof.
  split; [done|]. split; [|split; [|split]].
  - intros init s e Hw. unfold Egg.register, Egg.convertMiddlewares.
    rewrite last_snoc. simpl. rewrite Hw.
    by rewrite (walk_error _ _ _ _ Hw).
  - intros init s n Hw. unfold Egg.register, Egg.convertMiddlewares.
    rewrite last_snoc. simpl. rewrite Hw, removelast_last.
    by rewrite map_app.
  - intros init n. unfold Egg.register. rewrite convert_with_node.
    by rewrite map_app.
  - intros before s after n Hb. unfold Egg.register.
    replace (before ++ Egg.AString s :: after ++ [Egg.ANode n])
      with ((before ++ Egg.AString s :: after) ++ [Egg.ANode n])
      by by rewrite <- app_assoc.
    rewrite convert_with_node, <- app_assoc. simpl.
    unfold Router.register, Layer.new.
    rewrite map_app. simpl.
    rewrite (check_stack_offender _ (map Egg.to_arg before)); [by eexists| |done].
    clear -Hb. induction Hb; by constructor.
Qed.

End EggRegister.

(** * The further properties at work *)

Section MoreChecks.

Import Fixtures Scenes Store.

Ltac decide_now :=
  match goal with
  | |- ?P => apply (@bool_decide_unpack P _); vm_compute; exact I
  end.

Lemma references_valid_sound (h : Store.t) :
  references_valid h = true → well_formed h.
Proof.
  unfold references_valid. intros Hv rid r a Hr Ha.
  rewrite forallb_forall in Hv.
  specialize (Hv r (proj1 (list_elem_of_In _ _) (list_elem_of_lookup_2 _ _ _ Hr))).
  rewrite forallb_forall in Hv.
  specialize (Hv a (proj1 (list_elem_of_In _ _) Ha)).
  apply lookup_lt_is_Some. by apply Nat.ltb_lt.
Defined.

(** The methods are kept as given, with one HEAD per GET. *)
Example methods_are_not_deduplicated :
  Layer.build_methods ["get"; "post"; "GET"; "post"]
  = ["HEAD"; "HEAD"; "GET"; "POST"; "GET"; "POST"].
Proof. reflexivity. Qed.

(** A generator function is refused, and the pattern is not looked at. *)
Example generator_function_is_refused :
  Layer.new (PString "/users") ["get"]
    [ArgFunction (Handler 0%nat None); ArgGenerator (Handler 1%nat None)]
    Layer.OptsUndefined
  = inl (TypeError
           "get `/users`: Please use async function instead of generator function").
Proof. reflexivity. Qed.

(** A route registered with the empty path ignores the prefix. *)
Example empty_pattern_is_not_prefixed :
  Layer.path (layer_at root_router 0) = PString ""
  ∧ Layer.setPrefix "/api" (layer_at root_router 0) = inr (layer_at root_router 0).
Proof. split; reflexivity. Qed.

Lemma register_appends_and_names_are_first_come_witness :
  Router.register (PString "/people/:id") ["get"] (fn_args [4%nat]) (named "name1")
    users_router
  = inr (people, layer_at people 2)
  ∧ Router.route users_router "name1" = Some (layer_at users_router 0)
  ∧ Router.route people "name1" = Some (layer_at users_router 0).
Proof.
  assert (Router.register (PString "/people/:id") ["get"] (fn_args [4%nat])
            (named "name1") users_router
          = inr (people, layer_at people 2)) as Hreg by reflexivity.
  split; [exact Hreg|]. split; [reflexivity|].
  pose proof (register_appends_and_names_are_first_come _ _ _ _ _ _ _ Hreg)
    as (_ & _ & _ & _ & _ & _ & _ & Hearlier & _).
  apply Hearlier. reflexivity.
Defined.

Lemma register_keeps_earlier_matches_witness :
  Router.register (PString "/people/:id") ["get"] (fn_args [4%nat]) (named "name1")
    users_router
  = inr (people, layer_at people 2)
  ∧ MatchedResult.path (Router.match_ people "/users/1" "GET")
    = MatchedResult.path (Router.match_ users_router "/users/1" "GET") ++ [].
Proof.
  assert (Router.register (PString "/people/:id") ["get"] (fn_args [4%nat])
            (named "name1") users_router
          = inr (people, layer_at people 2)) as Hreg by reflexivity.
  split; [exact Hreg|].
  pose proof (register_keeps_earlier_matches _ _ _ _ _ _ _ "/users/1" "GET" Hreg)
    as (Hpath & _).
  exact Hpath.
Defined.

Lemma param_handlers_before_or_after_registration_witness :
  NoDup (map fst [("id", 7%nat)])
  ∧ Router.params (Router.new None) = []
  ∧ Router.register (PString "/users/:id") ["get"] (fn_args [0%nat]) unnamed
      (with_params [("id", 7%nat)] (Router.new None))
    = inr (declared_then_registered, layer_at declared_then_registered 0)
  ∧ ∃ before l0,
      Router.register (PString "/users/:id") ["get"] (fn_args [0%nat]) unnamed
        (Router.new None) = inr (before, l0)
      ∧ with_params [("id", 7%nat)] before = declared_then_registered
      ∧ layer_at declared_then_registered 0
        = Spec.register_all [("id", 7%nat)] l0.
Proof.
  assert (NoDup (map fst [("id", 7%nat)])) as Hnd by decide_now.
  assert (Router.register (PString "/users/:id") ["get"] (fn_args [0%nat]) unnamed
            (with_params [("id", 7%nat)] (Router.new None))
          = inr (declared_then_registered,
                 layer_at declared_then_registered 0)) as Hreg by reflexivity.
  assert (Router.params (Router.new None) = []) as Hps by reflexivity.
  split; [exact Hnd|]. split; [exact Hps|]. split; [exact Hreg|].
  exact (param_handlers_before_or_after_registration _ _ _ _ _ _ _ _
           Hnd Hps Hreg).
Defined.

(** Declared twice, a parameter handler is replaced for the routes to
    come but added to the routes that are there. *)
Example param_declared_twice :
  Layer.stack
    (layer_at
       (registered "/users/:id" ["get"] [0%nat] unnamed
          (with_params [("id", 7%nat); ("id", 8%nat)] (Router.new None))) 0)
  = [ParamMw "id" 8%nat; Handler 0%nat None]
  ∧ Layer.stack
      (layer_at
         (with_params [("id", 7%nat); ("id", 8%nat)]
            (registered "/users/:id" ["get"] [0%nat] unnamed (Router.new None))) 0)
    = [ParamMw "id" 7%nat; ParamMw "id" 8%nat; Handler 0%nat None].
Proof. split; reflexivity. Qed.

(** [get('/users')] throws; [get('users', '/users')] registers a layer
    that has no handler. *)
Example verb_without_handler :
  Verb.verb ["get"] (PString "/users") (Verb.IsMiddleware (ArgOther "undefined")) []
    (Router.new None)
  = inl (TypeError "get `/users`: `middleware` must be a function, not `undefined`")
  ∧ match Verb.verb ["get"] (PString "users") (Verb.IsPath (PString "/users")) []
            (Router.new None) with
    | inr r => map (fun l => (Layer.name l, Layer.path l, Layer.stack l)) (Router.stack r)
               = [(Some "users", PString "/users", [])]
    | inl _ => False
    end.
Proof. split; reflexivity. Qed.

(** [redirect('login', '/sign-in')] on a router without a route of that
    name. *)
Example redirect_from_an_unknown_name :
  Verb.redirect "login" "/sign-in" 301 5%nat users_router
  = inl (PlainError "No route found for name: login").
Proof. reflexivity. Qed.



Lemma later_router_matches_against_the_matched_pattern_witness :
  truthy (RouterOptions.routerPath (Router.opts users_router)) = false
  ∧ path_truthy (Layer.path (layer_at users_router 1)) = true
  ∧ MatchedResult.path (Router.match_ users_router "/users/1" "GET")
    = [layer_at users_router 0; layer_at users_router 1]
  ∧ Router.effective_path users_router inside_users_id = "/users/:id"
  ∧ Router.ctx_matched (Router.dispatch_plan users_router inside_users_id).1
    = Some [layer_at users_router 1].
Proof.
  split; [reflexivity|]. split; [reflexivity|]. split; [reflexivity|].
  pose proof (later_router_matches_against_the_matched_pattern
                "/users/1" (layer_at users_router 1) (Router.request "/users/1" "GET")
                users_router eq_refl eq_refl) as (Heff & Hmatched & _).
  split; [exact Heff|]. unfold inside_users_id. rewrite Hmatched. reflexivity.
Defined.




Lemma mounting_twice_prefixes_the_same_layers_again_witness :
  0%nat ≠ 1%nat
  ∧ routers two_routers !! 0%nat = Some (router_at two_routers 0)
  ∧ routers two_routers !! 1%nat = Some (router_at two_routers 1)
  ∧ well_formed two_routers
  ∧ NoDup (stack (router_at two_routers 1))
  ∧ Store.use 0 (FirstPath "/a") [Mounted 1] two_routers = Done tt mounted_at_a
  ∧ Store.use 0 (FirstPath "/b") [Mounted 1] mounted_at_a = Done tt mounted_at_a_then_b
  ∧ stack (router_at mounted_at_a_then_b 0) = [0; 1; 0; 1]%nat
  ∧ ∃ l2,
      layers mounted_at_a_then_b !! 1%nat = Some l2
      ∧ Layer.path l2 = PString "/b/a/:pid".
Proof.
  assert (0%nat ≠ 1%nat) as Hne by discriminate.
  assert (routers two_routers !! 0%nat = Some (router_at two_routers 0))
    as Hr by reflexivity.
  assert (routers two_routers !! 1%nat = Some (router_at two_routers 1))
    as Hcr by reflexivity.
  assert (well_formed two_routers) as Hwf
    by (apply references_valid_sound; reflexivity).
  assert (NoDup (stack (router_at two_routers 1))) as Hnd by decide_now.
  assert (Store.use 0 (FirstPath "/a") [Mounted 1] two_routers = Done tt mounted_at_a)
    as H1 by reflexivity.
  assert (Store.use 0 (FirstPath "/b") [Mounted 1] mounted_at_a
          = Done tt mounted_at_a_then_b) as H2 by reflexivity.
  do 7 (split; [assumption|]). split; [reflexivity|].
  destruct (mounting_twice_prefixes_the_same_layers_again
              0%nat 1%nat "/a" "/b" two_routers mounted_at_a mounted_at_a_then_b
              _ _ Hne Hr Hcr Hwf Hnd H1 H2) as (_ & Hin).
  destruct (Hin 1%nat (object_at two_routers 1)) as (l2 & Hlook & Hpath & _);
    [decide_now|reflexivity|].
  exists l2. split; [exact Hlook|]. rewrite Hpath. reflexivity.
Defined.

Lemma prefix_is_put_before_every_layer_and_kept_for_later_routes_witness :
  routers two_routers !! 1%nat = Some (router_at two_routers 1)
  ∧ well_formed two_routers
  ∧ NoDup (stack (router_at two_routers 1))
  ∧ Store.prefix 1 "/v1/" two_routers = Done tt posts_prefixed
  ∧ RouterOptions.prefix (opts (router_at posts_prefixed 1)) = Some "/v1"
  ∧ ∃ l',
      layers posts_prefixed !! 1%nat = Some l'
      ∧ Layer.path l' = PString "/v1/:pid".
Proof.
  assert (routers two_routers !! 1%nat = Some (router_at two_routers 1))
    as Hr by reflexivity.
  assert (well_formed two_routers) as Hwf
    by (apply references_valid_sound; reflexivity).
  assert (NoDup (stack (router_at two_routers 1))) as Hnd by decide_now.
  assert (Store.prefix 1 "/v1/" two_routers = Done tt posts_prefixed)
    as Hp by reflexivity.
  do 4 (split; [assumption|]). split; [reflexivity|].
  destruct (prefix_is_put_before_every_layer_and_kept_for_later_routes
              1%nat "/v1/" two_routers posts_prefixed _ Hr Hwf Hnd Hp)
    as (_ & _ & _ & _ & Hin & _).
  destruct (Hin 1%nat (object_at two_routers 1)) as (l' & Hlook & _ & Hpath);
    [decide_now|reflexivity|].
  exists l'. split; [exact Hlook|]. rewrite Hpath. reflexivity.
Defined.

Lemma prefix_twice_piles_up_on_registered_layers_only_witness :
  routers two_routers !! 1%nat = Some (router_at two_routers 1)
  ∧ well_formed two_routers
  ∧ NoDup (stack (router_at two_routers 1))
  ∧ Store.prefix 1 "/v1/" two_routers = Done tt posts_prefixed
  ∧ Store.prefix 1 "/api" posts_prefixed = Done tt posts_prefixed_twice
  ∧ (∃ l2, layers posts_prefixed_twice !! 1%nat = Some l2
           ∧ Layer.path l2 = PString "/api/v1/:pid")
  ∧ (∃ l, layers prefixed_twice_then_grown !! 2%nat = Some l
          ∧ Layer.path l = PString "/api/x").
Proof.
  assert (routers two_routers !! 1%nat = Some (router_at two_routers 1))
    as Hr by reflexivity.
  assert (well_formed two_routers) as Hwf
    by (apply references_valid_sound; reflexivity).
  assert (NoDup (stack (router_at two_routers 1))) as Hnd by decide_now.
  assert (Store.prefix 1 "/v1/" two_routers = Done tt posts_prefixed)
    as H1 by reflexivity.
  assert (Store.prefix 1 "/api" posts_prefixed = Done tt posts_prefixed_twice)
    as H2 by reflexivity.
  do 5 (split; [assumption|]).
  destruct (prefix_twice_piles_up_on_registered_layers_only
              1%nat "/v1/" "/api" two_routers posts_prefixed posts_prefixed_twice
              _ Hr Hwf Hnd H1 H2) as (_ & Hin & Hlater).
  split.
  - destruct (Hin 1%nat (object_at two_routers 1) "/:pid") as (l2 & Hlook & Hpath);
      [decide_now|reflexivity|reflexivity|].
    exists l2. split; [exact Hlook|]. rewrite Hpath. reflexivity.
  - destruct (Hlater (PString "/x") ["get"] (fn_args [5%nat]) unnamed 2%nat
                prefixed_twice_then_grown) as (l & Hlook & Hpath); [reflexivity|].
    exists l. split; [exact Hlook|]. rewrite Hpath. reflexivity.
Defined.

Lemma use_registers_a_function_as_a_layer_without_methods_witness :
  routers two_routers !! 0%nat = Some (router_at two_routers 0)
  ∧ Store.use 0 (FirstArg (Plain (ArgFunction (Handler 4%nat None)))) [] two_routers
    = Done tt forums_with_middleware
  ∧ ∃ l,
      layers forums_with_middleware = layers two_routers ++ [l]
      ∧ Layer.path l = PString "(.*)"
      ∧ Layer.methods l = []
      ∧ ∀ p, Layer.captures l p = [].
Proof.
  assert (routers two_routers !! 0%nat = Some (router_at two_routers 0))
    as Hr by reflexivity.
  assert (Store.use 0 (FirstArg (Plain (ArgFunction (Handler 4%nat None)))) []
            two_routers = Done tt forums_with_middleware) as Hu by reflexivity.
  split; [exact Hr|]. split; [exact Hu|].
  destruct (use_registers_a_function_as_a_layer_without_methods
              0%nat two_routers _ (Handler 4%nat None) Hr) as (_ & Hfn & _).
  destruct (Hfn forums_with_middleware Hu)
    as (l & l1 & Hls & _ & _ & _ & Hm & _ & _ & Hcap & Hpath).
  exists l. split; [exact Hls|]. split; [|split; [exact Hm|exact Hcap]].
  rewrite Hpath. reflexivity.
Defined.

Lemma routes_registered_after_mounting_stay_with_the_mounted_router_witness :
  0%nat ≠ 1%nat
  ∧ routers forums_with_param !! 0%nat = Some (router_at forums_with_param 0)
  ∧ routers forums_with_param !! 1%nat = Some (router_at forums_with_param 1)
  ∧ well_formed forums_with_param
  ∧ NoDup (stack (router_at forums_with_param 1))
  ∧ Store.use 0 (FirstPath "/forums/:fid/posts") [Mounted 1] forums_with_param
    = Done tt forums_mounted
  ∧ Store.register 1 (PString "/new") ["get"] (fn_args [5%nat]) unnamed forums_mounted
    = Done 2%nat posts_grown
  ∧ stack (router_at posts_grown 0) = [0; 1]%nat
  ∧ ∃ l, layers posts_grown !! 2%nat = Some l ∧ Layer.path l = PString "/new".
Proof.
  assert (0%nat ≠ 1%nat) as Hne by discriminate.
  assert (routers forums_with_param !! 0%nat = Some (router_at forums_with_param 0))
    as Hr by reflexivity.
  assert (routers forums_with_param !! 1%nat = Some (router_at forums_with_param 1))
    as Hcr by reflexivity.
  assert (well_formed forums_with_param) as Hwf
    by (apply references_valid_sound; reflexivity).
  assert (NoDup (stack (router_at forums_with_param 1))) as Hnd by decide_now.
  assert (Store.use 0 (FirstPath "/forums/:fid/posts") [Mounted 1] forums_with_param
          = Done tt forums_mounted) as Huse by reflexivity.
  assert (Store.register 1 (PString "/new") ["get"] (fn_args [5%nat]) unnamed
            forums_mounted = Done 2%nat posts_grown) as Hreg by reflexivity.
  do 7 (split; [assumption|]). split; [reflexivity|].
  destruct (routes_registered_after_mounting_stay_with_the_mounted_router
              0%nat 1%nat "/forums/:fid/posts" forums_with_param forums_mounted
              posts_grown _ _ (PString "/new") ["get"] (fn_args [5%nat]) unnamed 2%nat
              Hne Hr Hcr Hwf Hnd Huse Hreg) as (_ & _ & _ & l & l1 & Hlook & _ & _ & Hpath).
  exists l. split; [exact Hlook|]. rewrite Hpath. reflexivity.
Defined.

Lemma positional_values_go_to_the_named_tokens_in_order_witness :
  Value.is_undefined (JString "programming") = false
  ∧ Value.is_object (JString "programming") = false
  ∧ NoDup (Shape.token_names (PathToRegExpSpec.parse "/:category/:title"))
  ∧ Layer.split_arguments (JString "programming")
      [JString "how-to-node"; JObject [("query", JString "page=2")]]
    = inr (JArray [JString "programming"; JString "how-to-node"],
           JObject [("query", JString "page=2")])
  ∧ Value.lookup
      (Layer.positional (PathToRegExpSpec.parse "/:category/:title")
         [JString "programming"; JString "how-to-node"] []) "title"
    = Some (JString "how-to-node").
Proof.
  assert (NoDup (Shape.token_names (PathToRegExpSpec.parse "/:category/:title")))
    as Hnd by decide_now.
  split; [reflexivity|]. split; [reflexivity|]. split; [exact Hnd|].
  split; [reflexivity|].
  pose proof (positional_values_go_to_the_named_tokens_in_order
                (PathToRegExpSpec.parse "/:category/:title") (JString "programming")
                [JString "how-to-node"; JObject [("query", JString "page=2")]]
                eq_refl eq_refl Hnd) as (_ & Hin & _).
  exact (Hin [JString "programming"; JString "how-to-node"] 1%nat "title" eq_refl).
Defined.

Lemma resources_registers_the_rest_routes_in_table_order_witness :
  Egg.formatRouteParams (PString "api_post") (Egg.IsPath (PString "/api/post/"))
    [Egg.ANode post_controller]
  = inr (PString "/api/post/", [Egg.ANode post_controller], Some "api_post")
  ∧ Egg.resolveController (last [Egg.ANode post_controller]) app_controller
    = inr (Egg.ANode post_controller)
  ∧ Egg.resources app_controller (PString "api_post")
      (Egg.IsPath (PString "/api/post/")) [Egg.ANode post_controller]
      (Router.new None)
    = inr rest_router
  ∧ map Rest.summary (Router.stack rest_router)
    = [(Some "api_posts", PString "/api/post", ["HEAD"; "GET"]);
       (Some "new_api_post", PString "/api/post/new", ["HEAD"; "GET"]);
       (Some "api_posts", PString "/api/post", ["POST"]);
       (Some "api_post", PString "/api/post/:id", ["HEAD"; "GET"]);
       (Some "api_post", PString "/api/post/:id", ["PATCH"; "PUT"])].
Proof.
  assert (Egg.resources app_controller (PString "api_post")
            (Egg.IsPath (PString "/api/post/")) [Egg.ANode post_controller]
            (Router.new None)
          = inr rest_router) as Hres by reflexivity.
  split; [reflexivity|]. split; [reflexivity|]. split; [exact Hres|].
  destruct (resources_registers_the_rest_routes_in_table_order
              app_controller (PString "api_post") (Egg.IsPath (PString "/api/post/"))
              [Egg.ANode post_controller] "/api/post/" [Egg.ANode post_controller]
              (Some "api_post") (Egg.ANode post_controller) (Router.new None)
              rest_router eq_refl eq_refl Hres) as (new & Hstack & Hsum & _).
  rewrite Hstack. exact Hsum.
Defined.

(** A controller name is looked up along its dots; a missing one is
    reported with the whole name. *)
Example controller_names_are_resolved :
  Egg.resolveController (Some (Egg.AString "post.show")) app_controller
  = inr (Egg.ANode (Egg.NFunction (Handler 11%nat None)))
  ∧ Egg.register app_controller (PString "/x") ["get"] [Egg.AString "post.edit"]
      Fixtures.unnamed (Router.new None)
    = inl (PlainError "app.controller.post.edit not exists").
Proof. split; reflexivity. Qed.

Lemma building_routers_never_takes_anything_away_witness :
  well_formed forums_with_param
  ∧ Store.use 0 (FirstPath "/forums/:fid/posts") [Mounted 1] forums_with_param
    = Done tt forums_mounted
  ∧ well_formed forums_mounted
  ∧ keeps forums_with_param forums_mounted.
Proof.
  assert (well_formed forums_with_param) as Hwf
    by (apply references_valid_sound; reflexivity).
  assert (Store.use 0 (FirstPath "/forums/:fid/posts") [Mounted 1] forums_with_param
          = Done tt forums_mounted) as Huse by reflexivity.
  do 2 (split; [assumption|]).
  apply (building_routers_never_takes_anything_away forums_with_param forums_mounted
           Hwf).
  right; right; right.
  exists 0%nat, (FirstPath "/forums/:fid/posts"), [Mounted 1]. exact Huse.
Defined.

End MoreChecks.
